(** * Supermind assistant: conversation orchestration, delegation and streaming

    A shallow embedding of the orchestration core of the repository:

    - [Js]         the JavaScript string primitives the sources rely on;
    - [Assistant]  packages/assistant: [Orchestrator] (orchestrator.ts),
                   the delegation tools (tools.ts) and the sub-agents
                   (sub-agents.ts);
    - [WebChat]    the web-chat Lambda: [formatSSE] and the frames written
                   by [streamOrchestratorResponse];
    - [ChatStream] the frontend hook useChatStream: [parseSSEChunk], the
                   read loop of [startStream] and [stopStream].

    Asynchronous functions are embedded as functions returning a
    completion (normal value or thrown error) together with the list of
    observable effects they performed, in program order; a method of the
    orchestrator also returns the instance as the call leaves it.  The
    async generator behind [textStream] and the read loop of the client
    are state machines stepped by their consumer and by what they await.
    External collaborators (the language model, the integration store,
    Composio, [JSON.parse]) are arguments: every theorem holds whatever
    they answer.  An optional field is [None] when the key is absent. *)

From Stdlib Require Import Ascii String.
From stdpp Require Import base strings list gmap pretty.

Open Scope string_scope.
Open Scope list_scope.

(* ================================================================== *)
(** ** JavaScript strings *)
(* ================================================================== *)

(** A [string] stands for a JavaScript string whose UTF-16 code units are
    all below 256; each [ascii] is one code unit. *)
Module Js.

Definition nl : string := String "010"%char EmptyString.

Definition dquote : string := String "034"%char EmptyString.

(** [if (s)] on a string: only the empty string is falsy. *)
Definition truthy (s : string) : bool := negb (String.eqb s EmptyString).

(** [WhiteSpace] and [LineTerminator] code units below 256:
    TAB, LF, VT, FF, CR, SP and NBSP. *)
Definition isWhiteSpace (c : ascii) : bool :=
  let n := nat_of_ascii c in
  Nat.eqb n 9 || Nat.eqb n 10 || Nat.eqb n 11 || Nat.eqb n 12
  || Nat.eqb n 13 || Nat.eqb n 32 || Nat.eqb n 160.

Fixpoint trimStart (s : string) : string :=
  match s with
  | EmptyString => EmptyString
  | String c r => if isWhiteSpace c then trimStart r else s
  end.

Fixpoint trimEnd (s : string) : string :=
  match s with
  | EmptyString => EmptyString
  | String c r =>
      match trimEnd r with
      | EmptyString => if isWhiteSpace c then EmptyString else String c EmptyString
      | r' => String c r'
      end
  end.

(** [String.prototype.trim]. *)
Definition trim (s : string) : string := trimEnd (trimStart s).

(** Lower-case mapping of one code unit below 256: A-Z and the Latin-1
    capitals U+00C0-U+00DE (except the multiplication sign U+00D7). *)
Definition lowerUnit (c : ascii) : ascii :=
  let n := nat_of_ascii c in
  if (Nat.leb 65 n && Nat.leb n 90)
     || (Nat.leb 192 n && Nat.leb n 222 && negb (Nat.eqb n 215))
  then ascii_of_nat (n + 32) else c.

(** [String.prototype.toLowerCase]. *)
Fixpoint toLowerCase (s : string) : string :=
  match s with
  | EmptyString => EmptyString
  | String c r => String (lowerUnit c) (toLowerCase r)
  end.

(** [s.split(sep)] for a one-unit separator: never the empty list. *)
Fixpoint split (sep : ascii) (s : string) : list string :=
  match s with
  | EmptyString => [EmptyString]
  | String c r =>
      if Ascii.eqb c sep then EmptyString :: split sep r
      else match split sep r with
           | h :: t => String c h :: t
           | [] => [String c EmptyString]
           end
  end.

(** [s.startsWith(p)]. *)
Fixpoint startsWith (p s : string) : bool :=
  match p, s with
  | EmptyString, _ => true
  | String _ _, EmptyString => false
  | String a p', String b s' => Ascii.eqb a b && startsWith p' s'
  end.

(** [s.slice(n)] for [n >= 0]. *)
Fixpoint slice (n : nat) (s : string) : string :=
  match n, s with
  | O, _ => s
  | S n', String _ r => slice n' r
  | S _, EmptyString => EmptyString
  end.

(** No line feed occurs in [s]. *)
Fixpoint singleLine (s : string) : bool :=
  match s with
  | EmptyString => true
  | String c r => negb (Ascii.eqb c "010"%char) && singleLine r
  end.

(** [l.join("")]. *)
Definition concat (l : list string) : string :=
  fold_right String.append EmptyString l.

(** The code unit [sep] does not occur in [s]. *)
Fixpoint lacks (sep : ascii) (s : string) : bool :=
  match s with
  | EmptyString => true
  | String c r => negb (Ascii.eqb c sep) && lacks sep r
  end.

(** [l.join(sep)]. *)
Fixpoint join (sep : string) (l : list string) : string :=
  match l with
  | [] => EmptyString
  | [a] => a
  | a :: rest => a +:+ sep +:+ join sep rest
  end.

(** [s.includes(needle)]. *)
Fixpoint includes (needle s : string) : bool :=
  startsWith needle s
  || match s with
     | EmptyString => false
     | String _ r => includes needle r
     end.

(** The last of the lines of [s]. *)
Definition lastLine (s : string) : string :=
  List.last (split "010"%char s) EmptyString.

End Js.

(* ================================================================== *)
(** ** packages/assistant *)
(* ================================================================== *)

Module Assistant.

(** *** Completions and effects *)

Record JsError := { name : string; message : string }.

Inductive Completion (A : Type) : Type :=
| Normal (a : A)
| Throw (e : JsError).
Arguments Normal {A} a.
Arguments Throw {A} e.

Inductive Role := system | user | assistant.

Record ModelMessage := { role : Role; content : string }.

(** A tool as returned by [composio.tools.get] (typed [any] in the
    source): its slug and the toolkit it belongs to. *)
Record ComposioTool := { slug : string; toolkit : string }.

(** What the code does to the outside, in program order.  Of the console
    only [warn] and [error] are recorded. *)
Inductive Event :=
| ConsoleWarn (text : string)
| ConsoleError (text : string)
| GetIntegration (userId connector : string)
| ComposioToolsGet (apiKey userId : string) (toolkits : list string)
| SubAgentGenerateText (modelId : string) (tools : list ComposioTool) (prompt : string)
| GenerateText (messages : list ModelMessage)
| StreamText (messages : list ModelMessage).

(** An awaited computation: the effects performed, then how it settled. *)
Definition Eff (A : Type) : Type := (list Event * Completion A)%type.

Definition ret {A} (a : A) : Eff A := ([], Normal a).

Definition throw {A} (e : JsError) : Eff A := ([], Throw e).

Definition bind {A B} (m : Eff A) (k : A -> Eff B) : Eff B :=
  match m with
  | (ev, Normal a) => let '(ev', r) := k a in (ev ++ ev', r)
  | (ev, Throw e) => (ev, Throw e)
  end.

(** [try { body } catch (e) { handler e }]. *)
Definition tryCatch {A} (body : Eff A) (handler : JsError -> Eff A) : Eff A :=
  match body with
  | (ev, Normal a) => (ev, Normal a)
  | (ev, Throw e) => let '(ev', r) := handler e in (ev ++ ev', r)
  end.

(** A call to a collaborator: recorded, then settled as it answers. *)
Definition external {A} (e : Event) (answer : Completion A) : Eff A := ([e], answer).

Definition emit (e : Event) : Eff unit := ([e], Normal tt).

Notation "'await' x ':=' m 'in' k" := (bind m (fun x => k))
  (at level 10, x name, m at level 100, k at level 200).

(** *** Collaborators *)

Record ThirdPartyIntegration := { connectionId : string; connectionStatus : string }.

Record World := {
  (** [IntegrationsClient.getIntegration(userId, connector)] *)
  getIntegration : string -> string -> Completion (option ThirdPartyIntegration);
  (** [new Composio({ apiKey }).tools.get(userId, { toolkits })] *)
  composio_tools_get : string -> string -> list string -> Completion (list ComposioTool);
  (** [generateText({ model, tools, prompt })] of a sub-agent, giving [result.text] *)
  subagent_generateText : string -> list ComposioTool -> string -> Completion string
}.

(** *** types.ts *)

(** An optional key [k?: T] of the object a caller passes: absent, or
    present with a value, which may be [undefined]. *)
Inductive Key (A : Type) : Type :=
| Absent
| Present (value : option A).
Arguments Absent {A}.
Arguments Present {A} value.

(** [{ k: d, ...config }.k]: the default when the key is absent, and
    otherwise the caller's value, [undefined] included. *)
Definition spreadOver {A} (d : A) (k : Key A) : option A :=
  match k with
  | Absent => Some d
  | Present value => value
  end.

(** The keys that have a default in the constructor are [Key]s.
    [composioApiKey] and [connectionIds] have none, so for them absent
    and [undefined] read the same: [None]. *)
Record OrchestratorConfig := {
  userId : string;
  sessionId : string;
  supermemoryApiKey : string;
  streaming : Key bool;
  region : Key string;
  modelId : Key string;
  verbose : Key bool;
  composioApiKey : option string;
  connectionIds : option (gmap string string);
  toneOfResponse : Key string
}.

Record RunUsage := {
  inputTokens : option N;
  outputTokens : option N;
  totalTokens : option N
}.

Record OrchestratorResponse := {
  text : string;
  finishReason : option string;
  usage : RunUsage
}.

(** *** sub-agents.ts *)

Record SubAgentContext := {
  agent_tools : list ComposioTool;
  agent_model : string;
  agent_composio : string;
  connectedAccountId : string
}.

Definition haiku : string := "us.anthropic.claude-3-5-haiku-20241022-v1:0".

Definition createGmailAgent (w : World) (userId connectedAccountId composioApiKey : string)
  : Eff SubAgentContext :=
  await tools := external (ComposioToolsGet composioApiKey userId ["gmail"])
                    (composio_tools_get w composioApiKey userId ["gmail"]) in
  ret {| agent_tools := tools;
         agent_model := haiku;
         agent_composio := composioApiKey;
         connectedAccountId := connectedAccountId |}.

Definition createCalendarAgent (w : World) (userId connectedAccountId composioApiKey : string)
  : Eff SubAgentContext :=
  await tools := external (ComposioToolsGet composioApiKey userId ["googlecalendar"])
                    (composio_tools_get w composioApiKey userId ["googlecalendar"]) in
  ret {| agent_tools := tools;
         agent_model := haiku;
         agent_composio := composioApiKey;
         connectedAccountId := connectedAccountId |}.

Definition executeGmailTask (w : World) (agent : SubAgentContext) (task : string) : Eff string :=
  let prompt := "You are a Gmail assistant. " +:+ task in
  external (SubAgentGenerateText (agent_model agent) (agent_tools agent) prompt)
           (subagent_generateText w (agent_model agent) (agent_tools agent) prompt).

Definition executeCalendarTask (w : World) (agent : SubAgentContext) (task : string) : Eff string :=
  let prompt := "You are a Google Calendar assistant. " +:+ task in
  external (SubAgentGenerateText (agent_model agent) (agent_tools agent) prompt)
           (subagent_generateText w (agent_model agent) (agent_tools agent) prompt).

(** *** tools.ts: createDelegationTools *)

(** What a delegation tool hands back to the model:
    [{ result }] or [{ error }]. *)
Inductive ToolOutput :=
| ResultOutput (result : string)
| ErrorOutput (error : string).

Record Tool := {
  description : string;
  execute : World -> string -> Eff ToolOutput
}.

Record DelegationTools := {
  delegate_to_gmail : Tool;
  delegate_to_calendar : Tool
}.

(** [!connectionId] for a [string | null]. *)
Definition noConnection (connectionId : option string) : bool :=
  match connectionId with
  | Some c => negb (Js.truthy c)
  | None => true
  end.

Definition connectionOrEmpty (connectionId : option string) : string :=
  match connectionId with Some c => c | None => EmptyString end.

Definition createDelegationTools (userId composioApiKey : string)
    (getConnectionId : World -> string -> Eff (option string)) : DelegationTools :=
  {| delegate_to_gmail :=
       {| description :=
            "Delegate Gmail-related tasks like searching emails, sending emails, reading emails, managing drafts";
          execute := fun w task =>
            await connectionId := getConnectionId w "gmail" in
            if noConnection connectionId then
              ret (ErrorOutput
                     "Gmail not connected. Please connect Gmail first in your profile settings.")
            else
              tryCatch
                (await agent := createGmailAgent w userId (connectionOrEmpty connectionId)
                                           composioApiKey in
                 await result := executeGmailTask w agent task in
                 ret (ResultOutput result))
                (fun error => ret (ErrorOutput ("Gmail task failed: " +:+ message error))) |};
     delegate_to_calendar :=
       {| description :=
            "Delegate Google Calendar tasks like checking schedule, creating events, finding meetings, updating events";
          execute := fun w task =>
            await connectionId := getConnectionId w "google_calendar" in
            if noConnection connectionId then
              ret (ErrorOutput
                     "Google Calendar not connected. Please connect Calendar first in your profile settings.")
            else
              tryCatch
                (await agent := createCalendarAgent w userId (connectionOrEmpty connectionId)
                                              composioApiKey in
                 await result := executeCalendarTask w agent task in
                 ret (ResultOutput result))
                (fun error => ret (ErrorOutput ("Calendar task failed: " +:+ message error))) |}
  |}.

(** *** orchestrator.ts *)

(** What the model does when invoked with tools: it may ask for
    delegation tools any number of times, each answer steering what it does
    next, then it finishes with a text or fails. *)
Inductive ModelRun :=
| Finish (result : OrchestratorResponse)
| Fail (e : JsError)
| ToolCall (toolName : string) (task : string) (k : ToolOutput -> ModelRun).

(** The model behind [this.model], as a function of the messages sent. *)
Definition LanguageModel : Type := list ModelMessage -> ModelRun.

(** The [textStream] of [streamText]: the chunks it yields, then it ends
    or rejects. *)
Record TextStream := { chunks : list string; failure : option JsError }.

(** The streaming model: [streamText] throws or hands back a stream. *)
Definition StreamingModel : Type := list ModelMessage -> Completion TextStream.

(** [this.config]: the defaults overridden by the caller's config.  A
    key the caller passes as [undefined] overrides its default, so the
    keys with a default may still read [undefined]: [None]. *)
Record Config := {
  cfg_userId : string;
  cfg_sessionId : string;
  cfg_supermemoryApiKey : string;
  cfg_streaming : option bool;
  cfg_region : option string;
  cfg_modelId : option string;
  cfg_verbose : option bool;
  cfg_toneOfResponse : option string;
  cfg_composioApiKey : option string;
  cfg_connectionIds : option (gmap string string)
}.

(** The argument of [createBedrockWithMemory]: identifies [this.model]. *)
Record ProviderConfig := {
  pc_userId : string;
  pc_conversationId : string;
  pc_supermemoryApiKey : string;
  pc_region : option string;
  pc_modelId : option string;
  pc_verbose : option bool
}.

Record Orchestrator := {
  model : ProviderConfig;
  config : Config;
  conversationHistory : list ModelMessage;
  delegationTools : option DelegationTools
}.

(** The outcome of a method call: effects, completion, and the instance
    as the call leaves it. *)
Record Step (A : Type) : Type := mkStep {
  effects : list Event;
  completion : Completion A;
  after : Orchestrator
}.
Arguments mkStep {A} effects completion after.
Arguments effects {A} s.
Arguments completion {A} s.
Arguments after {A} s.

(** [this.config.connectionIds?.[connector] || null] *)
Definition fallbackConnectionId (this_config : Config) (connector : string) : option string :=
  match cfg_connectionIds this_config with
  | Some ids =>
      match ids !! connector with
      | Some c => if Js.truthy c then Some c else None
      | None => None
      end
  | None => None
  end.

Definition getConnectionId (this_config : Config) (w : World) (connector : string)
  : Eff (option string) :=
  tryCatch
    (await integration := external (GetIntegration (cfg_userId this_config) connector)
                                   (getIntegration w (cfg_userId this_config) connector) in
     match integration with
     | Some i =>
         if String.eqb (connectionStatus i) "active" then ret (Some (connectionId i))
         else ret (fallbackConnectionId this_config connector)
     | None => ret (fallbackConnectionId this_config connector)
     end)
    (fun error =>
       await _ := emit (ConsoleError "Error fetching connection ID from DynamoDB:") in
       ret (fallbackConnectionId this_config connector)).

Section WithConstants.

(** prompts.ts *)
Variable ORCHESTRATOR_SYSTEM_PROMPT : string.

(** [process.env.AWS_REGION] *)
Variable AWS_REGION : option string.

Definition defaultRegion : string :=
  match AWS_REGION with
  | Some r => if Js.truthy r then r else "us-east-1"
  | None => "us-east-1"
  end.

Definition constructor (cfg : OrchestratorConfig) : Orchestrator :=
  let this_config :=
    {| cfg_userId := userId cfg;
       cfg_sessionId := sessionId cfg;
       cfg_supermemoryApiKey := supermemoryApiKey cfg;
       cfg_streaming := spreadOver false (streaming cfg);
       cfg_region := spreadOver defaultRegion (region cfg);
       cfg_modelId := spreadOver haiku (modelId cfg);
       cfg_verbose := spreadOver false (verbose cfg);
       cfg_toneOfResponse := spreadOver "concise and direct" (toneOfResponse cfg);
       cfg_composioApiKey := composioApiKey cfg;
       cfg_connectionIds := connectionIds cfg |} in
  {| model :=
       {| pc_userId := cfg_userId this_config;
          pc_conversationId := cfg_sessionId this_config;
          pc_supermemoryApiKey := cfg_supermemoryApiKey this_config;
          pc_region := cfg_region this_config;
          pc_modelId := cfg_modelId this_config;
          pc_verbose := cfg_verbose this_config |};
     config := this_config;
     conversationHistory := [] ++ [{| role := system; content := ORCHESTRATOR_SYSTEM_PROMPT |}];
     delegationTools :=
       match cfg_composioApiKey this_config with
       | Some key =>
           if Js.truthy key
           then Some (createDelegationTools (cfg_userId this_config) key
                                            (getConnectionId this_config))
           else None
       | None => None
       end |}.

Definition clearHistory (this : Orchestrator) : Orchestrator :=
  {| model := model this;
     config := config this;
     conversationHistory := [{| role := system; content := ORCHESTRATOR_SYSTEM_PROMPT |}];
     delegationTools := delegationTools this |}.

End WithConstants.

(** [this.conversationHistory.push(m)] *)
Definition push (this : Orchestrator) (m : ModelMessage) : Orchestrator :=
  {| model := model this;
     config := config this;
     conversationHistory := conversationHistory this ++ [m];
     delegationTools := delegationTools this |}.

(** [this.conversationHistory.pop()] *)
Definition pop (this : Orchestrator) : Orchestrator :=
  {| model := model this;
     config := config this;
     conversationHistory := removelast (conversationHistory this);
     delegationTools := delegationTools this |}.

Definition getHistory (this : Orchestrator) : list ModelMessage :=
  [] ++ conversationHistory this.

Definition setHistory (this : Orchestrator) (messages : list ModelMessage) : Orchestrator :=
  {| model := model this;
     config := config this;
     conversationHistory := messages;
     delegationTools := delegationTools this |}.

(** [tools[toolName]] *)
Definition lookupTool (tools : option DelegationTools) (toolName : string) : option Tool :=
  match tools with
  | Some t =>
      if String.eqb toolName "delegate_to_gmail" then Some (delegate_to_gmail t)
      else if String.eqb toolName "delegate_to_calendar" then Some (delegate_to_calendar t)
      else None
  | None => None
  end.

(** The tool loop of [generateText]: each tool the model asks for is
    executed and its output handed back.  A call to a tool that is not
    registered, and an [execute] that rejects, fail the whole call. *)
Fixpoint runModel (w : World) (tools : option DelegationTools) (run : ModelRun)
  : Eff OrchestratorResponse :=
  match run with
  | Finish result => ret result
  | Fail e => throw e
  | ToolCall toolName task k =>
      match lookupTool tools toolName with
      | Some t =>
          await output := execute t w task in
          runModel w tools (k output)
      | None => throw {| name := "AI_NoSuchToolError"; message := toolName |}
      end
  end.

(** [generateText({ model, messages, tools })] *)
Definition generateText (w : World) (llm : LanguageModel)
    (messages : list ModelMessage) (tools : option DelegationTools) : Eff OrchestratorResponse :=
  await _ := emit (GenerateText messages) in
  runModel w tools (llm messages).

(** [streamText({ model, messages, tools })] *)
Definition streamText (sllm : StreamingModel)
    (messages : list ModelMessage) (tools : option DelegationTools) : Eff TextStream :=
  external (StreamText messages) (sllm messages).

(** [additionalContext ? `${additionalContext}\n\nUser message: ${message}` : message] *)
Definition withContext (message : string) (additionalContext : option string) : string :=
  match additionalContext with
  | Some ctx =>
      if Js.truthy ctx
      then ctx +:+ Js.nl +:+ Js.nl +:+ "User message: " +:+ message
      else message
  | None => message
  end.

Definition conciseSuffix : string :=
  Js.nl +:+ Js.nl +:+ "Response Tone: Skip the fluff, speedrun the answer." +:+ Js.dquote.

Definition professionalSuffix : string :=
  Js.nl +:+ Js.nl +:+ "Response Tone: Helpful genius, but fun at parties." +:+ Js.dquote.

Definition detailedSuffix : string :=
  Js.nl +:+ Js.nl +:+ "Nerd out and spill the tea.".

(** The tone block of [processMessage] (the [if] on
    [this.config.toneOfResponse]): the new [userContent] and what it logs.
    The guard is false of [undefined] as of the empty string. *)
Definition toneDirective (tone : option string) (userContent : string)
  : string * list Event :=
  match tone with
  | Some tone =>
      if Js.truthy tone then
        let toneOfResponse := Js.toLowerCase (Js.trim tone) in
        if String.eqb "concise and direct" toneOfResponse then
          (userContent +:+ conciseSuffix, [])
        else if String.eqb "professional and friendly" toneOfResponse then
          (userContent +:+ professionalSuffix, [])
        else if String.eqb "detailed and conversational" toneOfResponse then
          (userContent +:+ detailedSuffix, [])
        else
          (userContent,
           [ConsoleWarn ("[Orchestrator.processMessage] Invalid toneOfResponse: " +:+ tone)])
      else (userContent, [])
  | None => (userContent, [])
  end.

Definition processMessage (w : World) (llm : LanguageModel) (this : Orchestrator)
    (message : string) (additionalContext : option string) : Step OrchestratorResponse :=
  let userContent := withContext message additionalContext in
  let '(userContent, toneLog) := toneDirective (cfg_toneOfResponse (config this)) userContent in
  let this := push this {| role := user; content := userContent |} in
  match generateText w llm (conversationHistory this) (delegationTools this) with
  | (ev, Normal result) =>
      let this := push this {| role := assistant; content := text result |} in
      mkStep (toneLog ++ ev)
             (Normal {| text := text result;
                        finishReason := finishReason result;
                        usage := {| inputTokens := inputTokens (usage result);
                                    outputTokens := outputTokens (usage result);
                                    totalTokens := totalTokens (usage result) |} |})
             this
  | (ev, Throw error) =>
      mkStep (toneLog ++ ev
              ++ [ConsoleError "[Orchestrator.processMessage] Error during message processing"])
             (Throw error)
             (pop this)
  end.

(** The generator object behind [enhancedTextStream]: what is left of
    [originalTextStream], the closure variables [fullText] and
    [chunkCount], and whether the generator has finished. *)
Record EnhancedTextStream := {
  originalTextStream : TextStream;
  fullText : string;
  chunkCount : nat;
  finished : bool
}.

Inductive IteratorResult :=
| Yielded (chunk : string)
| Done
| Rejected (e : JsError).

(** [enhancedTextStream.next()]: run the generator body up to its next
    [yield], or to its end, where the assistant turn is pushed. *)
Definition next (g : EnhancedTextStream) (this : Orchestrator)
  : IteratorResult * EnhancedTextStream * Orchestrator :=
  if finished g then (Done, g, this)
  else
    match chunks (originalTextStream g) with
    | chunk :: rest =>
        (Yielded chunk,
         {| originalTextStream := {| chunks := rest; failure := failure (originalTextStream g) |};
            fullText := fullText g +:+ chunk;
            chunkCount := S (chunkCount g);
            finished := false |},
         this)
    | [] =>
        match failure (originalTextStream g) with
        | None =>
            (Done,
             {| originalTextStream := originalTextStream g;
                fullText := fullText g;
                chunkCount := chunkCount g;
                finished := true |},
             push this {| role := assistant; content := fullText g |})
        | Some e =>
            (Rejected e,
             {| originalTextStream := originalTextStream g;
                fullText := fullText g;
                chunkCount := chunkCount g;
                finished := true |},
             this)
        end
    end.

(** [enhancedTextStream.return()], what leaving a [for await] early
    calls: the body has no [finally], the generator just finishes. *)
Definition abandon (g : EnhancedTextStream) : EnhancedTextStream :=
  {| originalTextStream := originalTextStream g;
     fullText := fullText g;
     chunkCount := chunkCount g;
     finished := true |}.

(** The generator as created: nothing of its body has run. *)
Definition enhancedTextStream (result_textStream : TextStream) : EnhancedTextStream :=
  {| originalTextStream := result_textStream;
     fullText := EmptyString;
     chunkCount := 0;
     finished := false |}.

Definition processMessageStream (sllm : StreamingModel) (this : Orchestrator)
    (message : string) (additionalContext : option string) : Step EnhancedTextStream :=
  let userContent := withContext message additionalContext in
  let this := push this {| role := user; content := userContent |} in
  match streamText sllm (conversationHistory this) (delegationTools this) with
  | (ev, Normal result) =>
      mkStep ev (Normal (enhancedTextStream result)) this
  | (ev, Throw error) =>
      mkStep (ev ++ [ConsoleError "[Orchestrator.processMessageStream] Error during streaming"])
             (Throw error)
             (pop this)
  end.

(** What [process] resolves to: the value of the method it routed to. *)
Inductive Processed :=
| Complete (response : OrchestratorResponse)
| Stream (textStream : EnhancedTextStream).

Definition process (w : World) (llm : LanguageModel) (sllm : StreamingModel)
    (this : Orchestrator) (message : string) (additionalContext : option string)
  : Step Processed :=
  match cfg_streaming (config this) with
  | Some true =>
      let s := processMessageStream sllm this message additionalContext in
      mkStep (effects s)
             (match completion s with
              | Normal stream => Normal (Stream stream)
              | Throw error => Throw error
              end)
             (after s)
  | Some false | None =>
      let s := processMessage w llm this message additionalContext in
      mkStep (effects s)
             (match completion s with
              | Normal response => Normal (Complete response)
              | Throw error => Throw error
              end)
             (after s)
  end.

(** *** Consumers of the stream *)

Inductive ConsumerAction := Pull | Leave.

(** A consumer that calls [next] and [return] as scripted.  Gives the
    chunks it received, the generator and the instance. *)
Fixpoint consume (script : list ConsumerAction) (g : EnhancedTextStream) (this : Orchestrator)
  : list string * EnhancedTextStream * Orchestrator :=
  match script with
  | [] => ([], g, this)
  | Leave :: script' => consume script' (abandon g) this
  | Pull :: script' =>
      match next g this with
      | (Yielded chunk, g', this') =>
          let '(got, g'', this'') := consume script' g' this' in
          (chunk :: got, g'', this'')
      | (_, g', this') => consume script' g' this'
      end
  end.

(** [for await (const chunk of stream.textStream) { ... }] run to its
    end: [next] is called until the generator is done or rejects. *)
Fixpoint forAwait (fuel : nat) (g : EnhancedTextStream) (this : Orchestrator)
  : option (list string * IteratorResult * Orchestrator) :=
  match fuel with
  | O => None
  | S fuel' =>
      match next g this with
      | (Yielded chunk, g', this') =>
          match forAwait fuel' g' this' with
          | Some (got, r, this'') => Some (chunk :: got, r, this'')
          | None => None
          end
      | (r, _, this') => Some ([], r, this')
      end
  end.

(** *** Callers *)

Inductive Call :=
| Buffered (llm : LanguageModel) (message : string) (additionalContext : option string)
| Streamed (sllm : StreamingModel) (message : string) (additionalContext : option string).

(** One call that succeeds: [processMessage] returns, or
    [processMessageStream] returns and its [textStream] is read to the end
    by a [for await].  [None] when the call or the stream fails. *)
Definition succeed (w : World) (c : Call) (this : Orchestrator) : option Orchestrator :=
  match c with
  | Buffered llm message additionalContext =>
      let s := processMessage w llm this message additionalContext in
      match completion s with
      | Normal _ => Some (after s)
      | Throw _ => None
      end
  | Streamed sllm message additionalContext =>
      let s := processMessageStream sllm this message additionalContext in
      match completion s with
      | Normal g =>
          match forAwait (S (length (chunks (originalTextStream g)))) g (after s) with
          | Some (_, Done, this') => Some this'
          | _ => None
          end
      | Throw _ => None
      end
  end.

(** Calls made one after the other on one instance, all succeeding. *)
Fixpoint session (w : World) (calls : list Call) (this : Orchestrator) : option Orchestrator :=
  match calls with
  | [] => Some this
  | c :: calls' =>
      match succeed w c this with
      | Some this' => session w calls' this'
      | None => None
      end
  end.

(** *** Observers *)

(** The messages handed to the model by the first invocation among the
    effects. *)
Fixpoint messagesSent (effects : list Event) : option (list ModelMessage) :=
  match effects with
  | [] => None
  | GenerateText messages :: _ => Some messages
  | StreamText messages :: _ => Some messages
  | _ :: rest => messagesSent rest
  end.

(** The turn recorded last when the model was invoked. *)
Definition turnSent (effects : list Event) : option ModelMessage :=
  match messagesSent effects with
  | Some messages => last messages
  | None => None
  end.

(** What was logged with [console.warn]. *)
Fixpoint warnings (effects : list Event) : list string :=
  match effects with
  | [] => []
  | ConsoleWarn t :: rest => t :: warnings rest
  | _ :: rest => warnings rest
  end.

(** The calls made to collaborators, the console left out. *)
Fixpoint collaborations (effects : list Event) : list Event :=
  match effects with
  | [] => []
  | ConsoleWarn _ :: rest => collaborations rest
  | ConsoleError _ :: rest => collaborations rest
  | e :: rest => e :: collaborations rest
  end.

(** The roles of [n] completed exchanges: user then assistant, [n] times. *)
Fixpoint exchanges (n : nat) : list Role :=
  match n with
  | O => []
  | S n' => user :: assistant :: exchanges n'
  end.

(** What was logged with [console.warn] before the model was invoked. *)
Fixpoint warnedBeforeInvocation (effects : list Event) : list string :=
  match effects with
  | [] => []
  | ConsoleWarn t :: rest => t :: warnedBeforeInvocation rest
  | GenerateText _ :: _ => []
  | StreamText _ :: _ => []
  | _ :: rest => warnedBeforeInvocation rest
  end.

(** *** The tone table, twice *)


(** As [processMessage] matches it: after [trim()] and [toLowerCase()],
    and only for a non-empty value. *)
Definition recognizedSuffix (tone : string) : option string :=
  if Js.truthy tone then
    let toneOfResponse := Js.toLowerCase (Js.trim tone) in
    if String.eqb "concise and direct" toneOfResponse then Some conciseSuffix
    else if String.eqb "professional and friendly" toneOfResponse then Some professionalSuffix
    else if String.eqb "detailed and conversational" toneOfResponse then Some detailedSuffix
    else None
  else None.


(** *** Delegation, observed *)

(** The connection id [getConnectionId] settles on, read off the store's
    answer and the configured fallback. *)
Definition resolvedConnection (this_config : Config) (w : World) (connector : string)
  : option string :=
  match getIntegration w (cfg_userId this_config) connector with
  | Normal (Some i) =>
      if String.eqb (connectionStatus i) "active" then Some (connectionId i)
      else fallbackConnectionId this_config connector
  | _ => fallbackConnectionId this_config connector
  end.

(** The store shows no active integration of the user for the connector:
    none is stored, the stored one is not active, or the lookup fails. *)
Definition noActiveIntegration (w : World) (userId connector : string) : Prop :=
  match getIntegration w userId connector with
  | Normal (Some i) => connectionStatus i <> "active"
  | Normal None => True
  | Throw _ => True
  end.

(** The [{ error }] messages of the two tools when not connected. *)
Definition gmailNotConnected : string :=
  "Gmail not connected. Please connect Gmail first in your profile settings.".

Definition calendarNotConnected : string :=
  "Google Calendar not connected. Please connect Calendar first in your profile settings.".

(** Delegation to Gmail as the specification words it: without an active
    connection in the store the tool answers [{ error }] and does nothing
    but the lookup. *)
Definition failsClosedAsSpecified (w : World) (this : Orchestrator) (task : string) : Prop :=
  match delegationTools this with
  | Some tools =>
      noActiveIntegration w (cfg_userId (config this)) "gmail" ->
      exists ev e,
        execute (delegate_to_gmail tools) w task = (ev, Normal (ErrorOutput e))
        /\ collaborations ev = [GetIntegration (cfg_userId (config this)) "gmail"]
  | None => True
  end.

(** A run in which the model does not fail by itself and asks for no
    other tool than the two delegation tools. *)
Inductive Cooperative : ModelRun -> Prop :=
| CooperativeFinish (result : OrchestratorResponse) : Cooperative (Finish result)
| CooperativeGmail (task : string) (k : ToolOutput -> ModelRun) :
    (forall output, Cooperative (k output)) ->
    Cooperative (ToolCall "delegate_to_gmail" task k)
| CooperativeCalendar (task : string) (k : ToolOutput -> ModelRun) :
    (forall output, Cooperative (k output)) ->
    Cooperative (ToolCall "delegate_to_calendar" task k).

(** An effect that shows a toolset shows one of the given toolkit only:
    tools are asked of Composio for that toolkit alone, and a sub-agent
    runs with tools of that toolkit alone. *)
Definition toolsetWithin (tk : string) (e : Event) : Prop :=
  match e with
  | ComposioToolsGet _ _ toolkits => toolkits = [tk]
  | SubAgentGenerateText _ tools _ => Forall (fun t => toolkit t = tk) tools
  | _ => True
  end.

End Assistant.

(* ================================================================== *)
(** ** Sample collaborators and configurations *)
(* ================================================================== *)

Module Sample.
Import Assistant.

Definition prompt : string := "You are a Personal AI Assistant.".

Definition cfg : OrchestratorConfig :=
  {| userId := "u1";
     sessionId := "s1";
     supermemoryApiKey := "sm-key";
     streaming := Absent;
     region := Absent;
     modelId := Absent;
     verbose := Absent;
     composioApiKey := Some "composio-key";
     connectionIds := None;
     toneOfResponse := Absent |}.


(** The sample configuration with the key [toneOfResponse] present and
    [undefined], as [{ ...base, toneOfResponse: undefined }] or a
    forwarded optional value gives it. *)
Definition withUndefinedTone : OrchestratorConfig :=
  {| userId := "u1";
     sessionId := "s1";
     supermemoryApiKey := "sm-key";
     streaming := Absent;
     region := Absent;
     modelId := Absent;
     verbose := Absent;
     composioApiKey := Some "composio-key";
     connectionIds := None;
     toneOfResponse := Present None |}.

(** A configuration with a fallback connection id for Gmail. *)
Definition withFallback : OrchestratorConfig :=
  {| userId := "u1";
     sessionId := "s1";
     supermemoryApiKey := "sm-key";
     streaming := Absent;
     region := Absent;
     modelId := Absent;
     verbose := Absent;
     composioApiKey := Some "composio-key";
     connectionIds := Some {[ "gmail" := "conn_dev" ]};
     toneOfResponse := Absent |}.

Definition boom : JsError := {| name := "Error"; message := "model unavailable" |}.

Definition reply (t : string) : OrchestratorResponse :=
  {| text := t;
     finishReason := Some "stop";
     usage := {| inputTokens := Some 12%N; outputTokens := Some 3%N;
                 totalTokens := Some 15%N |} |}.

Definition answering (t : string) : LanguageModel := fun _ => Finish (reply t).

Definition failing : LanguageModel := fun _ => Fail boom.

(** A model that delegates to Gmail once and answers with what it got. *)
Definition delegating : LanguageModel :=
  fun _ =>
    ToolCall "delegate_to_gmail" "Search emails from today"
             (fun output =>
                match output with
                | ResultOutput r => Finish (reply r)
                | ErrorOutput e => Finish (reply e)
                end).

Definition streamingChunks (cs : list string) : StreamingModel :=
  fun _ => Normal {| chunks := cs; failure := None |}.

Definition brokenStream : StreamingModel := fun _ => Throw boom.

(** No integration is stored; Composio serves one tool per toolkit asked
    for; sub-agents answer. *)
Definition world : World :=
  {| getIntegration := fun _ _ => Normal None;
     composio_tools_get := fun _ _ toolkits =>
       Normal (map (fun tk => {| slug := tk +:+ "_TOOL"; toolkit := tk |}) toolkits);
     subagent_generateText := fun _ _ _ => Normal "3 emails today" |}.

End Sample.

(* ================================================================== *)
(** ** services/web-chat: the SSE encoder *)
(* ================================================================== *)

Module WebChat.

Inductive ServerSentEvent := EvMessage | EvError | EvComplete | EvConnection.

Definition eventName (e : ServerSentEvent) : string :=
  match e with
  | EvMessage => "message"
  | EvError => "error"
  | EvComplete => "complete"
  | EvConnection => "connection"
  end.

Record SSEMessage := {
  data : string;
  event : ServerSentEvent;
  id : option string;
  retry : option N
}.

Definition formatSSE (message : SSEMessage) : string :=
  let output := EmptyString in
  let output :=
    if Js.truthy (eventName (event message))
    then output +:+ "event: " +:+ eventName (event message) +:+ Js.nl
    else output in
  let output :=
    match id message with
    | Some i => if Js.truthy i then output +:+ "id: " +:+ i +:+ Js.nl else output
    | None => output
    end in
  let output :=
    match retry message with
    | Some r => if N.eqb r 0 then output else output +:+ "retry: " +:+ pretty r +:+ Js.nl
    | None => output
    end in
  let lines := Js.split "010"%char (data message) in
  let output :=
    fold_left (fun output line => output +:+ "data: " +:+ line +:+ Js.nl) lines output in
  output +:+ Js.nl.

(** The loop of [streamOrchestratorResponse] over [stream.textStream]:
    one [message] event per chunk, numbered from [chunkId]. *)
Fixpoint chunkMessages (chunkId : nat) (chunks : list string) : list SSEMessage :=
  match chunks with
  | [] => []
  | chunk :: rest =>
      {| data := chunk; id := Some (pretty chunkId); event := EvMessage; retry := None |}
      :: chunkMessages (S chunkId) rest
  end.

(** What [streamOrchestratorResponse] yields when the orchestrator's
    stream yields [chunks] and ends: the chunks, then the completion
    message. *)
Definition streamOrchestratorResponse (chunks : list string) : list SSEMessage :=
  chunkMessages 1 chunks
  ++ [{| data := "[DONE]"; event := EvComplete; id := None; retry := None |}].

(** What [lambdaHandler] writes for these messages: one
    [responseStream.write(formatSSE(message))] each. *)
Definition writes (messages : list SSEMessage) : list string := map formatSSE messages.

End WebChat.

(* ================================================================== *)
(** ** frontend: the useChatStream hook *)
(* ================================================================== *)

Module ChatStream.

Inductive StreamStatus :=
| StatusIdle | StatusConnecting | StatusStreaming | StatusError | StatusCompleted.

Inductive ConnectionStatus :=
| Disconnected | Connecting | Connected | Streaming | ConnectionError.

Record StreamError := { message : string; code : string }.

(** A thrown value: an [Error] with its [name] and [message], or
    anything else. *)
Inductive Thrown :=
| ErrorObject (name : string) (message : string)
| OtherValue.

(** The callbacks of [UseChatStreamOptions], as invoked. *)
Inductive Callback :=
| OnMessageChunk (chunk fullMessage : string)
| OnComplete (fullMessage : string)
| OnError (error : StreamError)
| OnConnection.

(** The hook's state and refs, and the callbacks invoked so far. *)
Record Hook := {
  status : StreamStatus;
  connectionStatus : ConnectionStatus;
  streamedMessage : string;
  error : option StreamError;
  abortControllerRef : bool;
  accumulatedMessageRef : string;
  completedRef : bool;
  calls : list Callback
}.

(** The values of [useState] and [useRef] on first render. *)
Definition initial : Hook :=
  {| status := StatusIdle;
     connectionStatus := Disconnected;
     streamedMessage := EmptyString;
     error := None;
     abortControllerRef := false;
     accumulatedMessageRef := EmptyString;
     completedRef := false;
     calls := [] |}.

Definition setStatus (v : StreamStatus) (h : Hook) : Hook :=
  {| status := v; connectionStatus := connectionStatus h;
     streamedMessage := streamedMessage h; error := error h;
     abortControllerRef := abortControllerRef h;
     accumulatedMessageRef := accumulatedMessageRef h;
     completedRef := completedRef h; calls := calls h |}.

Definition setConnectionStatus (v : ConnectionStatus) (h : Hook) : Hook :=
  {| status := status h; connectionStatus := v;
     streamedMessage := streamedMessage h; error := error h;
     abortControllerRef := abortControllerRef h;
     accumulatedMessageRef := accumulatedMessageRef h;
     completedRef := completedRef h; calls := calls h |}.

Definition setStreamedMessage (v : string) (h : Hook) : Hook :=
  {| status := status h; connectionStatus := connectionStatus h;
     streamedMessage := v; error := error h;
     abortControllerRef := abortControllerRef h;
     accumulatedMessageRef := accumulatedMessageRef h;
     completedRef := completedRef h; calls := calls h |}.

Definition setError (v : option StreamError) (h : Hook) : Hook :=
  {| status := status h; connectionStatus := connectionStatus h;
     streamedMessage := streamedMessage h; error := v;
     abortControllerRef := abortControllerRef h;
     accumulatedMessageRef := accumulatedMessageRef h;
     completedRef := completedRef h; calls := calls h |}.

Definition setAbortController (v : bool) (h : Hook) : Hook :=
  {| status := status h; connectionStatus := connectionStatus h;
     streamedMessage := streamedMessage h; error := error h;
     abortControllerRef := v;
     accumulatedMessageRef := accumulatedMessageRef h;
     completedRef := completedRef h; calls := calls h |}.

Definition setAccumulated (v : string) (h : Hook) : Hook :=
  {| status := status h; connectionStatus := connectionStatus h;
     streamedMessage := streamedMessage h; error := error h;
     abortControllerRef := abortControllerRef h;
     accumulatedMessageRef := v;
     completedRef := completedRef h; calls := calls h |}.

Definition setCompleted (v : bool) (h : Hook) : Hook :=
  {| status := status h; connectionStatus := connectionStatus h;
     streamedMessage := streamedMessage h; error := error h;
     abortControllerRef := abortControllerRef h;
     accumulatedMessageRef := accumulatedMessageRef h;
     completedRef := v; calls := calls h |}.

Definition invoke (c : Callback) (h : Hook) : Hook :=
  {| status := status h; connectionStatus := connectionStatus h;
     streamedMessage := streamedMessage h; error := error h;
     abortControllerRef := abortControllerRef h;
     accumulatedMessageRef := accumulatedMessageRef h;
     completedRef := completedRef h; calls := calls h ++ [c] |}.

Definition parseSSEChunk (chunk : string) : option (string * string) :=
  let lines := Js.split "010"%char chunk in
  let '(event, data) :=
    fold_left
      (fun '(event, data) line =>
         if Js.startsWith "event: " line then (Js.trim (Js.slice 7 line), data)
         else if Js.startsWith "data: " line then (event, Js.slice 6 line)
         else (event, data))
      lines ("message", EmptyString) in
  if Js.truthy data then Some (event, data) else None.

(** [if (!completedRef.current) { completedRef.current = true;
    onComplete?.(finalMessage); }] *)
Definition completeOnce (finalMessage : string) (h : Hook) : Hook :=
  if completedRef h then h
  else invoke (OnComplete finalMessage) (setCompleted true h).

Definition stopStream (h : Hook) : Hook :=
  if abortControllerRef h then
    let h := setAbortController false h in
    let finalMessage := accumulatedMessageRef h in
    let h := setStatus StatusCompleted h in
    completeOnce finalMessage h
  else h.

(** The outer [catch (err)] of [startStream]. *)
Definition catchBlock (err : Thrown) (h : Hook) : Hook :=
  let report (m : string) :=
    let streamError := {| message := m; code := "STREAM_ERROR" |} in
    let h := setError (Some streamError) h in
    let h := setStatus StatusError h in
    let h := setConnectionStatus ConnectionError h in
    let h := invoke (OnError streamError) h in
    setAbortController false h in
  match err with
  | ErrorObject name m => if String.eqb name "AbortError" then h else report m
  | OtherValue => report "Failed to start stream"
  end.

(** The [finally] of the read loop. *)
Definition finallyBlock (h : Hook) : Hook := setAbortController false h.

Section WithJSON.

(** [JSON.parse(data)] followed by reading [.error] off the value: it
    throws, or gives the field when it is a string. *)
Variable JSON_parse_error : string -> Thrown + option string.

(** One turn of the read loop on a chunk that was read: [inl] when the
    turn throws. *)
Definition onChunk (chunkText : string) (h : Hook) : Thrown * Hook + Hook :=
  match parseSSEChunk chunkText with
  | Some (event, data) =>
      if String.eqb event "connection" then
        let h := setConnectionStatus Connected h in
        let h := setStatus StatusStreaming h in
        inr (invoke OnConnection h)
      else if String.eqb event "message" then
        let h := setConnectionStatus Streaming h in
        let h := setAccumulated (accumulatedMessageRef h +:+ data) h in
        let h := setStreamedMessage (accumulatedMessageRef h) h in
        inr (invoke (OnMessageChunk data (accumulatedMessageRef h)) h)
      else if String.eqb event "complete" then
        let finalMessage := accumulatedMessageRef h in
        let h := setStatus StatusCompleted h in
        let h := setConnectionStatus Connected h in
        inr (completeOnce finalMessage h)
      else if String.eqb event "error" then
        match JSON_parse_error data with
        | inl thrown => inl (thrown, h)
        | inr field =>
            let m := match field with
                     | Some m => if Js.truthy m then m else "Server error"
                     | None => "Server error"
                     end in
            let streamError := {| message := m; code := "SERVER_ERROR" |} in
            let h := setError (Some streamError) h in
            let h := setStatus StatusError h in
            let h := setConnectionStatus ConnectionError h in
            inr (invoke (OnError streamError) h)
        end
      else inr h
  | None => inr h
  end.

(** Where one invocation of [startStream] is suspended. *)
Inductive Phase := AwaitingToken | AwaitingFetch | Reading | Returned.

Inductive ReadResult :=
| ReadValue (chunkText : string)
| ReadDone
| ReadRejected (e : Thrown).

(** What happens while [startStream] is suspended: the promise it awaits
    settles, or the caller calls [stopStream]. *)
Inductive Input :=
| TokenResolved
| TokenRejected (e : Thrown)
| FetchResolved (ok : bool) (statusLine : string) (hasBody : bool)
| FetchRejected (e : Thrown)
| ReadSettled (r : ReadResult)
| StopStream.

Definition step (i : Input) (s : Hook * Phase) : Hook * Phase :=
  let '(h, phase) := s in
  match i, phase with
  | StopStream, _ => (stopStream h, phase)
  | TokenResolved, AwaitingToken => (setAbortController true h, AwaitingFetch)
  | TokenRejected e, AwaitingToken => (catchBlock e h, Returned)
  | FetchResolved ok statusLine hasBody, AwaitingFetch =>
      if negb ok then (catchBlock (ErrorObject "Error" ("HTTP " +:+ statusLine)) h, Returned)
      else if negb hasBody then
        (catchBlock (ErrorObject "Error" "Response body is null") h, Returned)
      else (h, Reading)
  | FetchRejected e, AwaitingFetch => (catchBlock e h, Returned)
  | ReadSettled ReadDone, Reading =>
      let finalMessage := accumulatedMessageRef h in
      let h := setStatus StatusCompleted h in
      let h := setConnectionStatus Connected h in
      let h := completeOnce finalMessage h in
      (finallyBlock h, Returned)
  | ReadSettled (ReadValue chunkText), Reading =>
      match onChunk chunkText h with
      | inr h => (h, Reading)
      | inl (thrown, h) => (catchBlock thrown (finallyBlock h), Returned)
      end
  | ReadSettled (ReadRejected e), Reading => (catchBlock e (finallyBlock h), Returned)
  | _, _ => (h, phase)
  end.

Definition run (inputs : list Input) (s : Hook * Phase) : Hook * Phase :=
  fold_left (fun s i => step i s) inputs s.

(** One invocation of [startStream], with what happens while it is
    suspended. *)
Definition startStream (h : Hook) (inputs : list Input) : Hook * Phase :=
  if abortControllerRef h then (h, Returned)
  else
    let h := setStatus StatusConnecting h in
    let h := setConnectionStatus Connecting h in
    let h := setError None h in
    let h := setStreamedMessage EmptyString h in
    let h := setAccumulated EmptyString h in
    let h := setCompleted false h in
    run inputs (h, AwaitingToken).

End WithJSON.

(** How often the completion callback was invoked. *)
Fixpoint completions (cs : list Callback) : nat :=
  match cs with
  | [] => 0
  | OnComplete _ :: rest => S (completions rest)
  | _ :: rest => completions rest
  end.

(** The rejection an aborted signal causes on the promise [startStream]
    is suspended on. *)
Definition abortRejection (phase : Phase) (m : string) : list Input :=
  match phase with
  | AwaitingFetch => [FetchRejected (ErrorObject "AbortError" m)]
  | Reading => [ReadSettled (ReadRejected (ErrorObject "AbortError" m))]
  | _ => []
  end.

(** The token and the response arrive, then each of [texts] is read. *)
Definition delivered (texts : list string) : list Input :=
  [TokenResolved; FetchResolved true "200: OK" true]
  ++ map (fun t => ReadSettled (ReadValue t)) texts.

(** Since [base], the completion callback was invoked once if
    [completedRef] is set and not at all otherwise. *)
Definition Signalled (base : list Callback) (h : Hook) : Prop :=
  exists new,
    calls h = base ++ new
    /\ completions new = (if completedRef h then 1 else 0).

(** The hook after a [message] event carrying [data]. *)
Definition received (data : string) (h : Hook) : Hook :=
  {| status := status h;
     connectionStatus := Streaming;
     streamedMessage := accumulatedMessageRef h +:+ data;
     error := error h;
     abortControllerRef := abortControllerRef h;
     accumulatedMessageRef := accumulatedMessageRef h +:+ data;
     completedRef := completedRef h;
     calls := calls h ++ [OnMessageChunk data (accumulatedMessageRef h +:+ data)] |}.

(** A chunk the decoder can take: not empty, and without line feed. *)
Definition deliverable (c : string) : Prop :=
  Js.singleLine c = true /\ Js.truthy c = true.

(** The chunk callbacks expected for [chunks] arriving after [acc]. *)
Fixpoint chunkCalls (acc : string) (chunks : list string) : list Callback :=
  match chunks with
  | [] => []
  | c :: rest => OnMessageChunk c (acc +:+ c) :: chunkCalls (acc +:+ c) rest
  end.

End ChatStream.

Module SampleClient.

(** A [JSON.parse] for which no payload carries an [error] field. *)
Definition noErrorField (data : string) : ChatStream.Thrown + option string := inr None.

(** The frames of two chunks, not yet followed by a terminal event. *)
Definition twoChunks : list string :=
  WebChat.writes (WebChat.chunkMessages 1 ["Hel"; "lo"]).

End SampleClient.

(* ================================================================== *)
(** ** tools.ts: createComposioTools *)
(* ================================================================== *)

Module ComposioTools.
Import Assistant.

(** models.ts *)
Inductive AllowedThirdPartyConnectors := google_calendar | gmail | splitwise.

(** The fields of [ThirdPartyIntegration] the function reads. *)
Record Integration := {
  connectorName : AllowedThirdPartyConnectors;
  connectionStatus : string
}.

(** The calls made to collaborators, in program order. *)
Inductive Call :=
| ListIntegrations (userId : string)
| ToolsGet (apiKey userId : string) (toolkits : list string).

(** [appMap[connectorName]]: [None] is [undefined]. *)
Definition appMap (c : AllowedThirdPartyConnectors) : option string :=
  match c with
  | gmail => Some "gmail"
  | google_calendar => Some "googlecalendar"
  | splitwise => None
  end.

Definition isActive (i : Integration) : bool :=
  String.eqb (connectionStatus i) "active".

(** [xs.map(i => appMap[i.connectorName]).filter(Boolean)] *)
Fixpoint mappedToolkits (xs : list Integration) : list string :=
  match xs with
  | [] => []
  | i :: rest =>
      match appMap (connectorName i) with
      | Some tk => if Js.truthy tk then tk :: mappedToolkits rest else mappedToolkits rest
      | None => mappedToolkits rest
      end
  end.

(** [createComposioTools(userId, composioApiKey)]; the tools object is
    the list of its tools, [{}] the empty list.  [listIntegrations] is
    [IntegrationsClient.listIntegrations], [None] when it resolves to
    [null]; Composio is the one of the [World]. *)
Definition createComposioTools
    (listIntegrations : string -> Completion (option (list Integration)))
    (w : World) (userId composioApiKey : string)
  : list Call * Completion (list ComposioTool) :=
  match listIntegrations userId with
  | Throw e => ([ListIntegrations userId], Throw e)
  | Normal integrations =>
      let activeIntegrations :=
        match integrations with
        | Some l => List.filter isActive l
        | None => []
        end in
      if Nat.eqb (length activeIntegrations) 0 then ([ListIntegrations userId], Normal [])
      else
        let toolkits := mappedToolkits activeIntegrations in
        if Nat.eqb (length toolkits) 0 then ([ListIntegrations userId], Normal [])
        else
          match composio_tools_get w composioApiKey userId toolkits with
          | Normal tools =>
              ([ListIntegrations userId; ToolsGet composioApiKey userId toolkits], Normal tools)
          | Throw _ =>
              ([ListIntegrations userId; ToolsGet composioApiKey userId toolkits], Normal [])
          end
  end.

End ComposioTools.

(* ================================================================== *)
(** ** The lines of a frame *)
(* ================================================================== *)

Module Wire.
Import WebChat.

(** The lines [formatSSE] writes before the [data:] lines. *)
Definition headerLines (m : SSEMessage) : list string :=
  (if Js.truthy (eventName (event m)) then ["event: " +:+ eventName (event m)] else [])
  ++ match id m with
     | Some i => if Js.truthy i then ["id: " +:+ i] else []
     | None => []
     end
  ++ match retry m with
     | Some r => if N.eqb r 0 then [] else ["retry: " +:+ pretty r]
     | None => []
     end.

(** Its [data:] lines: one per line of the payload. *)
Definition dataLines (m : SSEMessage) : list string :=
  map (fun line => "data: " +:+ line) (Js.split "010"%char (data m)).

(** Each line followed by a line feed. *)
Definition unlines (lines : list string) : string :=
  Js.concat (map (fun line => line +:+ Js.nl) lines).

(** The [id], when there is one, holds no line feed. *)
Definition singleLineId (m : SSEMessage) : Prop :=
  match id m with
  | Some i => Js.singleLine i = true
  | None => True
  end.

End Wire.

(* ================================================================== *)
(** ** services/web-chat: the handler *)
(* ================================================================== *)

(** The handler with its collaborators as parameters; what it logs is
    left out. *)

Module Lambda.
Import Assistant WebChat.

(** [process.env], the variables read. *)
Record Env := {
  USER_POOL_ID : option string;
  USER_POOL_CLIENT_ID : option string;
  SUPERMEMORY_API_KEY_SECRET_NAME : option string;
  COMPOSIO_API_KEY : option string;
  AWS_REGION : option string;
  VERBOSE : option string
}.

Record CognitoTokenPayload := {
  sub : string;
  email : option string;
  cognito_username : option string
}.

(** What [secretsManager.getSecret(name, true)] resolves to: nothing, a
    string, or an object with or without a string [api_key]. *)
Inductive Secret :=
| SecretNull
| SecretString (s : string)
| SecretObject (api_key : option string).

Record ChatMessage := { role : string; content : string }.

(** [requestBody.messages]: an array, or a value that fails
    [!m || !Array.isArray(m)]. *)
Inductive MessagesField :=
| NoArray
| Messages (ms : list ChatMessage).

Record ChatRequest := { sessionId : string; messages : MessagesField }.

Record Headers := { authorization : option string; Authorization : option string }.

(** The fields of the event the handler reads. *)
Record Event := { headers : Headers; body : option string }.

(** Collaborators of the handler. *)
Record Services := {
  (** [jwtVerifier.verify(token, { clientId, tokenUse: 'id' })] *)
  jwtVerify : string -> string -> Completion CognitoTokenPayload;
  (** [secretsManager.getSecret(name, true)] *)
  getSecret : string -> Completion Secret;
  (** [JSON.parse(event.body)], read as a [ChatRequest]; a [Throw] when
      parsing fails or reading the request off the value does *)
  JSON_parse_body : string -> Completion ChatRequest;
  (** [JSON.stringify({ type: "connection", status: "connected", userId })] *)
  JSON_stringify_connection : string -> string;
  (** [JSON.stringify({ error })] *)
  JSON_stringify_error : string -> string;
  (** the streaming model behind the orchestrator *)
  model : StreamingModel
}.

(** The calls made to collaborators, in program order. *)
Inductive Effect :=
| JwtVerify (token clientId : string)
| GetSecret (name : string)
| Parse (body : string)
| Orchestrator (e : Assistant.Event).

(** [new Error(message)] *)
Definition Error (message : string) : JsError := {| name := "Error"; message := message |}.

(** [a || b] on optional strings. *)
Definition orElse (a b : option string) : option string :=
  match a with
  | Some s => if Js.truthy s then a else b
  | None => b
  end.

(** [!a] on an optional string. *)
Definition missing (a : option string) : bool :=
  match a with
  | Some s => negb (Js.truthy s)
  | None => true
  end.

Definition valueOf (a : option string) : string :=
  match a with Some s => s | None => EmptyString end.

Definition verifyAuthToken (env : Env) (sv : Services) (authHeader : option string)
  : list Effect * Completion CognitoTokenPayload :=
  if missing authHeader then ([], Throw (Error "Missing Authorization header"))
  else
    let parts := Js.split " "%char (valueOf authHeader) in
    match parts with
    | [scheme; token] =>
        if negb (String.eqb (Js.toLowerCase scheme) "bearer") then
          ([], Throw (Error "Invalid Authorization header format. Expected: Bearer <token>"))
        else if negb (Js.truthy token) then
          ([], Throw (Error "Missing token in Authorization header"))
        else if missing (USER_POOL_ID env) || missing (USER_POOL_CLIENT_ID env) then
          ([], Throw (Error "Cognito User Pool configuration is missing"))
        else
          match jwtVerify sv token (valueOf (USER_POOL_CLIENT_ID env)) with
          | Normal payload =>
              ([JwtVerify token (valueOf (USER_POOL_CLIENT_ID env))], Normal payload)
          | Throw _ =>
              ([JwtVerify token (valueOf (USER_POOL_CLIENT_ID env))],
               Throw (Error "Invalid or expired token"))
          end
    | _ => ([], Throw (Error "Invalid Authorization header format. Expected: Bearer <token>"))
    end.

Definition getSupermemoryApiKey (env : Env) (sv : Services) : list Effect * Completion string :=
  let failed := Throw (Error "Failed to retrieve Supermemory API key from Secrets Manager") in
  if missing (SUPERMEMORY_API_KEY_SECRET_NAME env) then ([], failed)
  else
    let secretName := valueOf (SUPERMEMORY_API_KEY_SECRET_NAME env) in
    match getSecret sv secretName with
    | Normal (SecretObject (Some api_key)) =>
        if Js.truthy api_key then ([GetSecret secretName], Normal api_key)
        else ([GetSecret secretName], failed)
    | _ => ([GetSecret secretName], failed)
    end.

(** [messages.filter(m => m.role === 'user').map(m => m.content).join('\n\n')] *)
Definition combinedMessage (ms : list ChatMessage) : string :=
  Js.join (Js.nl +:+ Js.nl)
          (map content (List.filter (fun m => String.eqb (role m) "user") ms)).

Definition errorMessage (sv : Services) (message : string) : SSEMessage :=
  {| data := JSON_stringify_error sv message; event := EvError; id := None; retry := None |}.

Definition completeMessage : SSEMessage :=
  {| data := "[DONE]"; event := EvComplete; id := None; retry := None |}.

Section WithPrompt.

(** prompts.ts *)
Variable ORCHESTRATOR_SYSTEM_PROMPT : string.

(** The configuration [streamOrchestratorResponse] constructs the
    orchestrator with. *)
Definition orchestratorConfig (env : Env) (userId sessionId supermemoryApiKey : string)
  : OrchestratorConfig :=
  {| Assistant.userId := userId;
     Assistant.sessionId := sessionId;
     Assistant.supermemoryApiKey := supermemoryApiKey;
     composioApiKey := Some (valueOf (orElse (COMPOSIO_API_KEY env) (Some EmptyString)));
     streaming := Present (Some true);
     region := Present (Some (valueOf (orElse (AWS_REGION env) (Some "us-east-1"))));
     verbose :=
       Present (Some (match VERBOSE env with Some v => String.eqb v "true" | None => false end));
     modelId := Absent;
     connectionIds := None;
     toneOfResponse := Absent |}.

(** The generator [streamOrchestratorResponse], run to its end: the
    effects of the orchestrator and the messages yielded. *)
Definition streamOrchestratorResponse (env : Env) (sv : Services)
    (userId sessionId : string) (ms : list ChatMessage) (supermemoryApiKey : string)
  : list Assistant.Event * list SSEMessage :=
  let orchestrator :=
    constructor ORCHESTRATOR_SYSTEM_PROMPT (AWS_REGION env)
                (orchestratorConfig env userId sessionId supermemoryApiKey) in
  let combined := combinedMessage ms in
  if negb (Js.truthy (Js.trim combined)) then
    ([], [errorMessage sv "No user messages found in request"])
  else
    let s := processMessageStream (model sv) orchestrator combined None in
    match completion s with
    | Throw error => (effects s, [errorMessage sv (message error)])
    | Normal stream =>
        match forAwait (S (length (chunks (originalTextStream stream)))) stream (after s) with
        | Some (got, Done, _) => (effects s, chunkMessages 1 got ++ [completeMessage])
        | Some (got, Rejected error, _) =>
            (effects s, chunkMessages 1 got ++ [errorMessage sv (message error)])
        | _ => (effects s, [])
        end
    end.

(** What the handler leaves on the response stream. *)
Record Response := {
  statusCode : N;
  written : list string;
  ended : bool
}.

(** The [catch] of the handler. *)
Definition statusFor (message : string) : N :=
  if Js.includes "Authorization" message || Js.includes "token" message then 401%N
  else if Js.includes "Invalid request" message then 400%N
  else 500%N.

Definition failure (sv : Services) (error : JsError) : Response :=
  {| statusCode := statusFor (message error);
     written := [formatSSE (errorMessage sv (message error))];
     ended := true |}.

Definition lambdaHandler (env : Env) (sv : Services) (event : Event)
  : list Effect * Response :=
  let authHeader := orElse (authorization (headers event)) (Authorization (headers event)) in
  match verifyAuthToken env sv authHeader with
  | (ev1, Throw error) => (ev1, failure sv error)
  | (ev1, Normal claims) =>
      let userId := sub claims in
      if missing (body event) then (ev1, failure sv (Error "Missing request body"))
      else
        match JSON_parse_body sv (valueOf (body event)) with
        | Throw error => (ev1 ++ [Parse (valueOf (body event))], failure sv error)
        | Normal requestBody =>
            let ev2 := ev1 ++ [Parse (valueOf (body event))] in
            match messages requestBody with
            | NoArray =>
                (ev2, failure sv (Error "Invalid request: messages array is required"))
            | Messages [] =>
                (ev2, failure sv (Error "Invalid request: at least one message is required"))
            | Messages ms =>
                match getSupermemoryApiKey env sv with
                | (ev3, Throw error) => (ev2 ++ ev3, failure sv error)
                | (ev3, Normal supermemoryApiKey) =>
                    let '(ev4, yielded) :=
                      streamOrchestratorResponse env sv userId (sessionId requestBody) ms
                                                 supermemoryApiKey in
                    (ev2 ++ ev3 ++ map Orchestrator ev4,
                     {| statusCode := 200%N;
                        written :=
                          formatSSE {| data := JSON_stringify_connection sv userId;
                                       event := EvConnection; id := None; retry := None |}
                          :: map formatSSE yielded;
                        ended := true |})
                end
            end
        end
  end.

End WithPrompt.

(** A message that ends a response: [complete] or [error]. *)
Definition terminal (m : SSEMessage) : bool :=
  match event m with
  | EvComplete | EvError => true
  | EvMessage | EvConnection => false
  end.

(** The messages of an array that [streamOrchestratorResponse] keeps. *)
Definition userContents (ms : list ChatMessage) : list string :=
  map content (List.filter (fun m => String.eqb (role m) "user") ms).

(** What the orchestrator did among the calls of the handler. *)
Fixpoint orchestratorEffects (effs : list Effect) : list Assistant.Event :=
  match effs with
  | [] => []
  | Orchestrator e :: rest => e :: orchestratorEffects rest
  | _ :: rest => orchestratorEffects rest
  end.

(** The request passes every check of the handler: the token is
    verified, the body is there and parses to a request with a non-empty
    array of messages, and the API key is retrieved. *)
Definition accepted (env : Env) (sv : Services) (event : Event)
    (claims : CognitoTokenPayload) (requestBody : ChatRequest) (ms : list ChatMessage)
    (supermemoryApiKey : string) : Prop :=
  (exists ev,
     verifyAuthToken env sv
       (orElse (authorization (headers event)) (Authorization (headers event)))
     = (ev, Normal claims))
  /\ missing (body event) = false
  /\ JSON_parse_body sv (valueOf (body event)) = Normal requestBody
  /\ messages requestBody = Messages ms
  /\ ms <> []
  /\ (exists ev, getSupermemoryApiKey env sv = (ev, Normal supermemoryApiKey)).

(** The [connection] message the handler writes first. *)
Definition connectionMessage (sv : Services) (userId : string) : SSEMessage :=
  {| data := JSON_stringify_connection sv userId;
     event := EvConnection; id := None; retry := None |}.

End Lambda.

Module SampleLambda.
Import Assistant WebChat Lambda.

Definition env : Env :=
  {| USER_POOL_ID := Some "pool-1";
     USER_POOL_CLIENT_ID := Some "client-1";
     SUPERMEMORY_API_KEY_SECRET_NAME := Some "supermemory";
     COMPOSIO_API_KEY := None;
     AWS_REGION := None;
     VERBOSE := None |}.

(** An environment without the pool variables. *)
Definition unconfigured : Env :=
  {| USER_POOL_ID := None;
     USER_POOL_CLIENT_ID := None;
     SUPERMEMORY_API_KEY_SECRET_NAME := Some "supermemory";
     COMPOSIO_API_KEY := None;
     AWS_REGION := None;
     VERBOSE := None |}.

Definition ada : CognitoTokenPayload :=
  {| sub := "u1"; email := Some "ada@example.org"; cognito_username := None |}.

Definition request : ChatRequest :=
  {| sessionId := "s1";
     messages := Messages [{| role := "system"; content := "Be brief." |};
                           {| role := "user"; content := "Hi" |};
                           {| role := "assistant"; content := "Hello Ada" |};
                           {| role := "user"; content := "What is on today?" |}] |}.

(** The verifier accepts the token [good]; the body [request] parses to
    the request above, [empty] to a request without messages, and
    anything else is a syntax error; the secret holds a key; the model
    streams the given stream. *)
Definition services (textStream : Completion TextStream) : Services :=
  {| jwtVerify := fun token clientId =>
       if String.eqb token "good" then Normal ada
       else Throw {| name := "JwtInvalidSignatureError"; message := "Invalid signature" |};
     getSecret := fun _ => Normal (SecretObject (Some "sm-key"));
     JSON_parse_body := fun body =>
       if String.eqb body "request" then Normal request
       else if String.eqb body "empty" then
         Normal {| sessionId := "s1"; messages := Messages [] |}
       else Throw {| name := "SyntaxError";
                     message := "Unexpected token h in JSON at position 0" |};
     JSON_stringify_connection := fun userId => "{connected:" +:+ userId +:+ "}";
     JSON_stringify_error := fun error => "{error:" +:+ error +:+ "}";
     model := fun _ => textStream |}.

Definition streaming (cs : list string) : Services :=
  services (Normal {| chunks := cs; Assistant.failure := None |}).

Definition interrupted (cs : list string) : Services :=
  services (Normal {| chunks := cs; Assistant.failure := Some Sample.boom |}).

Definition post (authHeader : option string) (body : option string) : Event :=
  {| headers := {| authorization := authHeader; Authorization := None |};
     body := body |}.

(** A [JSON.parse] that reads the payloads of [services] back. *)
Definition parseError (data : string) : ChatStream.Thrown + option string :=
  if Js.startsWith "{error:" data
  then inr (Some (Js.slice 7 (String.substring 0 (String.length data - 1) data)))
  else inl (ChatStream.ErrorObject "SyntaxError" "Unexpected token").

End SampleLambda.

(* ================================================================== *)
(** * Properties *)
(* ================================================================== *)

(** ** Strings *)

Lemma append_cons (c : ascii) (s t : string) : String c s +:+ t = String c (s +:+ t).
Proof. reflexivity. Qed.

Lemma append_empty_l (s : string) : EmptyString +:+ s = s.
Proof. reflexivity. Qed.

Lemma append_empty_r (s : string) : s +:+ EmptyString = s.
Proof.
  induction s as [|c s IH]; [reflexivity|]. now rewrite append_cons, IH.
Qed.

Lemma append_assoc (a b c : string) : (a +:+ b) +:+ c = a +:+ (b +:+ c).
Proof.
  induction a as [|x a IH]; [reflexivity|]. now rewrite !append_cons, IH.
Qed.

Lemma length_append (a b : string) :
  String.length (a +:+ b) = String.length a + String.length b.
Proof.
  induction a as [|x a IH]; [reflexivity|]. rewrite append_cons. simpl. now rewrite IH.
Qed.

(** Appending a non-empty suffix, and anything in front, never gives the
    string back. *)
Lemma wrapped_differs (pre s suf : string) :
  0 < String.length suf -> pre +:+ s +:+ suf <> s.
Proof.
  intros Hsuf Heq. apply (f_equal String.length) in Heq.
  rewrite !length_append in Heq. lia.
Qed.

(** *** Lines *)

Lemma singleLine_app (a b : string) :
  Js.singleLine (a +:+ b) = Js.singleLine a && Js.singleLine b.
Proof.
  induction a as [|c a IH]; [reflexivity|].
  rewrite append_cons. simpl. rewrite IH. now rewrite andb_assoc.
Qed.

Lemma split_cons_other (c : ascii) (s : string) :
  Ascii.eqb c "010"%char = false ->
  Js.split "010"%char (String c s)
  = match Js.split "010"%char s with
    | h :: t => String c h :: t
    | [] => [String c EmptyString]
    end.
Proof. intros H. simpl. now rewrite H. Qed.

(** Splitting after a first line without line feed. *)
Lemma split_first_line (a rest : string) :
  Js.singleLine a = true ->
  Js.split "010"%char (a +:+ Js.nl +:+ rest) = a :: Js.split "010"%char rest.
Proof.
  induction a as [|c a IH]; intros Ha.
  - reflexivity.
  - simpl in Ha. apply andb_true_iff in Ha as [Hc Ha].
    apply negb_true_iff in Hc.
    rewrite append_cons, split_cons_other by exact Hc.
    now rewrite IH.
Qed.

Lemma split_single_line (a : string) :
  Js.singleLine a = true -> Js.split "010"%char a = [a].
Proof.
  induction a as [|c a IH]; intros Ha; [reflexivity|].
  simpl in Ha. apply andb_true_iff in Ha as [Hc Ha]. apply negb_true_iff in Hc.
  rewrite split_cons_other by exact Hc. now rewrite IH.
Qed.

Lemma pretty_N_char_not_nl (x : N) : Ascii.eqb (pretty_N_char x) "010"%char = false.
Proof. unfold pretty_N_char. repeat case_match; reflexivity. Qed.

Lemma pretty_N_go_singleLine (x : N) :
  forall s, Js.singleLine s = true -> Js.singleLine (pretty_N_go x s) = true.
Proof.
  induction (N.lt_wf_0 x) as [x _ IH]; intros s Hs.
  destruct (decide (x = 0)%N) as [-> | Hx]; [now rewrite pretty_N_go_0|].
  rewrite pretty_N_go_step by lia. apply IH.
  - apply N.div_lt; lia.
  - simpl. now rewrite pretty_N_char_not_nl.
Qed.

Lemma pretty_nat_singleLine (n : nat) : Js.singleLine (pretty n) = true.
Proof.
  unfold pretty, pretty_nat, pretty, pretty_N.
  case_decide; [reflexivity|]. now apply pretty_N_go_singleLine.
Qed.


(** ** The orchestrator's history *)

Section History.
Import Assistant.

Lemma history_push (this : Orchestrator) (m : ModelMessage) :
  conversationHistory (push this m) = conversationHistory this ++ [m].
Proof. reflexivity. Qed.

Lemma pop_push (this : Orchestrator) (m : ModelMessage) :
  conversationHistory (pop (push this m)) = conversationHistory this.
Proof. unfold pop, push; simpl. apply removelast_last. Qed.

(** [processMessage], spelled out on how the model invocation settles. *)
Lemma processMessage_unfold (w : World) (llm : LanguageModel) (this : Orchestrator)
    (message : string) (additionalContext : option string) :
  let tone := toneDirective (cfg_toneOfResponse (config this))
                            (withContext message additionalContext) in
  let turn := {| role := user; content := fst tone |} in
  let call := generateText w llm (conversationHistory this ++ [turn]) (delegationTools this) in
  let s := processMessage w llm this message additionalContext in
  match snd call with
  | Normal result =>
      effects s = snd tone ++ fst call
      /\ (exists r, completion s = Normal r /\ text r = text result)
      /\ conversationHistory (after s)
         = conversationHistory this ++ [turn; {| role := assistant; content := text result |}]
  | Throw error =>
      effects s
      = snd tone ++ fst call
        ++ [ConsoleError "[Orchestrator.processMessage] Error during message processing"]
      /\ completion s = Throw error
      /\ conversationHistory (after s) = conversationHistory this
  end.
Proof.
  intros tone turn call s. subst s. unfold processMessage.
  fold tone. destruct tone as [content log] eqn:Htone. simpl in turn.
  change (conversationHistory (push this {| role := user; content := content |}))
    with (conversationHistory this ++ [turn]).
  change (delegationTools (push this {| role := user; content := content |}))
    with (delegationTools this).
  fold call. destruct call as [ev [result|error]]; simpl.
  - split; [reflexivity|]. split; [eexists; split; reflexivity|].
    rewrite <- app_assoc. reflexivity.
  - split; [reflexivity|]. split; [reflexivity|]. apply removelast_last.
Qed.

(** [processMessageStream], spelled out on how [streamText] settles. *)
Lemma processMessageStream_unfold (sllm : StreamingModel) (this : Orchestrator)
    (message : string) (additionalContext : option string) :
  let turn := {| role := user; content := withContext message additionalContext |} in
  let s := processMessageStream sllm this message additionalContext in
  match sllm (conversationHistory this ++ [turn]) with
  | Normal result =>
      effects s = [StreamText (conversationHistory this ++ [turn])]
      /\ completion s = Normal (enhancedTextStream result)
      /\ conversationHistory (after s) = conversationHistory this ++ [turn]
  | Throw error =>
      effects s
      = [StreamText (conversationHistory this ++ [turn]);
         ConsoleError "[Orchestrator.processMessageStream] Error during streaming"]
      /\ completion s = Throw error
      /\ conversationHistory (after s) = conversationHistory this
  end.
Proof.
  intros turn s. subst s. unfold processMessageStream, streamText, external.
  change (conversationHistory
            (push this {| role := user; content := withContext message additionalContext |}))
    with (conversationHistory this ++ [turn]).
  destruct (sllm (conversationHistory this ++ [turn])) as [result|error]; simpl.
  - repeat split.
  - split; [reflexivity|]. split; [reflexivity|]. apply removelast_last.
Qed.

(** C1. When the model-invocation step of [processMessage]
    ([generateText]) or of [processMessageStream] ([streamText]) throws,
    the call re-raises that same error and leaves the conversation
    history as it was before the call, so of the same length: the user
    turn it had appended is removed. *)
Theorem failed_invocation_rolls_back
    (w : World) (llm : LanguageModel) (sllm : StreamingModel) (this : Orchestrator)
    (message : string) (additionalContext : option string) (error : JsError) :
  (snd (generateText w llm
          (conversationHistory this
           ++ [{| role := user;
                  content := fst (toneDirective (cfg_toneOfResponse (config this))
                                                (withContext message additionalContext)) |}])
          (delegationTools this)) = Throw error ->
   let s := processMessage w llm this message additionalContext in
   completion s = Throw error
   /\ conversationHistory (after s) = conversationHistory this
   /\ length (conversationHistory (after s)) = length (conversationHistory this))
  /\
  (sllm (conversationHistory this
         ++ [{| role := user; content := withContext message additionalContext |}])
   = Throw error ->
   let s := processMessageStream sllm this message additionalContext in
   completion s = Throw error
   /\ conversationHistory (after s) = conversationHistory this
   /\ length (conversationHistory (after s)) = length (conversationHistory this)).
Proof.
  split.
  - intros Hthrow s.
    pose proof (processMessage_unfold w llm this message additionalContext) as H.
    cbv zeta in H. rewrite Hthrow in H. destruct H as (_ & Hc & Hh).
    subst s. rewrite Hc, Hh. auto.
  - intros Hthrow s.
    pose proof (processMessageStream_unfold sllm this message additionalContext) as H.
    cbv zeta in H. rewrite Hthrow in H. destruct H as (_ & Hc & Hh).
    subst s. rewrite Hc, Hh. auto.
Qed.

(** *** Reading the stream *)

Lemma concat_cons (c : string) (cs : list string) : Js.concat (c :: cs) = c +:+ Js.concat cs.
Proof. reflexivity. Qed.

Lemma forAwait_step (fuel : nat) (g : EnhancedTextStream) (this : Orchestrator) :
  forAwait (S fuel) g this
  = match next g this with
    | (Yielded chunk, g', this') =>
        match forAwait fuel g' this' with
        | Some (got, r, this'') => Some (chunk :: got, r, this'')
        | None => None
        end
    | (r, _, this') => Some ([], r, this')
    end.
Proof. reflexivity. Qed.

(** A [for await] over a generator that has not finished receives every
    remaining chunk; if the underlying stream ends, the assistant turn
    is pushed, and if it rejects, nothing is. *)
Lemma forAwait_drains (cs : list string) :
  forall (f : option JsError) (ft : string) (n : nat) (this : Orchestrator),
    forAwait (S (length cs))
             {| originalTextStream := {| chunks := cs; failure := f |};
                fullText := ft; chunkCount := n; finished := false |} this
    = Some (cs,
            match f with None => Done | Some e => Rejected e end,
            match f with
            | None => push this {| role := assistant; content := ft +:+ Js.concat cs |}
            | Some _ => this
            end).
Proof.
  induction cs as [|c cs IH]; intros f ft n this.
  - simpl. destruct f; simpl; [reflexivity|].
    unfold Js.concat; simpl. now rewrite append_empty_r.
  - change (length (c :: cs)) with (S (length cs)).
    rewrite forAwait_step. unfold next.
    cbn [finished originalTextStream chunks failure fullText chunkCount].
    rewrite IH. rewrite concat_cons, append_assoc. reflexivity.
Qed.

Lemma consume_finished (script : list ConsumerAction) :
  forall (g : EnhancedTextStream) (this : Orchestrator),
    finished g = true ->
    exists g', consume script g this = ([], g', this) /\ finished g' = true.
Proof.
  induction script as [|a script IH]; intros g this Hfin.
  - exists g. split; [reflexivity | assumption].
  - destruct a; simpl.
    + unfold next. rewrite Hfin. apply IH. assumption.
    + apply IH. reflexivity.
Qed.

(** Whatever the consumer does, the history is either untouched or has
    gained one assistant turn holding every chunk of the stream, and then
    the consumer has received every chunk. *)
Lemma consume_commits_all_or_nothing (script : list ConsumerAction) :
  forall (g : EnhancedTextStream) (this : Orchestrator),
    let '(got, _, this') := consume script g this in
    conversationHistory this' = conversationHistory this
    \/ (failure (originalTextStream g) = None
        /\ got = chunks (originalTextStream g)
        /\ conversationHistory this'
           = conversationHistory this
             ++ [{| role := assistant;
                    content := fullText g +:+ Js.concat (chunks (originalTextStream g)) |}]).
Proof.
  induction script as [|a script IH]; intros g this.
  - simpl. left. reflexivity.
  - destruct a; simpl.
    + destruct g as [[cs f] ft n fin]. unfold next. simpl.
      destruct fin.
      * destruct (consume_finished script
                    {| originalTextStream := {| chunks := cs; failure := f |};
                       fullText := ft; chunkCount := n; finished := true |} this eq_refl)
          as (g' & -> & _).
        left. reflexivity.
      * destruct cs as [|c cs].
        -- destruct f as [e|].
           ++ destruct (consume_finished script
                    {| originalTextStream := {| chunks := []; failure := Some e |};
                       fullText := ft; chunkCount := n; finished := true |} this eq_refl)
                as (g' & -> & _).
              left. reflexivity.
           ++ destruct (consume_finished script
                    {| originalTextStream := {| chunks := []; failure := None |};
                       fullText := ft; chunkCount := n; finished := true |}
                    (push this {| role := assistant; content := ft |}) eq_refl)
                as (g' & -> & _).
              right. simpl. unfold Js.concat; simpl. rewrite append_empty_r. auto.
        -- specialize (IH {| originalTextStream := {| chunks := cs; failure := f |};
                            fullText := ft +:+ c; chunkCount := S n; finished := false |} this).
           destruct (consume script _ this) as [[got g'] this'].
           destruct IH as [IH | (Hf & Hgot & Hh)]; [left; assumption|].
           right. cbn [originalTextStream chunks failure fullText] in *. subst got.
           rewrite Hh. unfold Js.concat. simpl. rewrite append_assoc. auto.
    + destruct (consume_finished script (abandon g) this eq_refl) as (g' & -> & _).
      left. reflexivity.
Qed.

(** Pulling [k] chunks: the first [k] chunks are received and the
    history is untouched. *)
Lemma consume_pulls (k : nat) :
  forall (cs : list string) (f : option JsError) (ft : string) (n : nat)
         (this : Orchestrator),
    k <= length cs ->
    exists g',
      consume (replicate k Pull)
              {| originalTextStream := {| chunks := cs; failure := f |};
                 fullText := ft; chunkCount := n; finished := false |} this
      = (take k cs, g', this).
Proof.
  induction k as [|k IH]; intros cs f ft n this Hk.
  - simpl. eauto.
  - destruct cs as [|c cs]; [simpl in Hk; lia|].
    simpl in Hk.
    destruct (IH cs f (ft +:+ c) (S n) this ltac:(lia)) as (g' & Hg').
    exists g'. simpl. unfold next; simpl. rewrite Hg'. reflexivity.
Qed.

(** Pulling [k] chunks and leaving: the same, whatever is tried on the
    generator after. *)
Lemma consume_then_leave (k : nat) :
  forall (cs : list string) (f : option JsError) (ft : string) (n : nat)
         (rest : list ConsumerAction) (this : Orchestrator),
    k <= length cs ->
    exists g',
      consume (replicate k Pull ++ Leave :: rest)
              {| originalTextStream := {| chunks := cs; failure := f |};
                 fullText := ft; chunkCount := n; finished := false |} this
      = (take k cs, g', this).
Proof.
  induction k as [|k IH]; intros cs f ft n rest this Hk.
  - simpl.
    destruct (consume_finished rest
                (abandon {| originalTextStream := {| chunks := cs; failure := f |};
                            fullText := ft; chunkCount := n; finished := false |})
                this eq_refl) as (g' & -> & _).
    exists g'. reflexivity.
  - destruct cs as [|c cs]; [simpl in Hk; lia|].
    simpl in Hk.
    destruct (IH cs f (ft +:+ c) (S n) rest this ltac:(lia)) as (g' & Hg').
    exists g'. simpl. unfold next; simpl. rewrite Hg'. reflexivity.
Qed.

(** C3. A consumer that stops reading the stream of
    [processMessageStream] after [k] of its chunks - by no longer
    pulling, or by leaving the loop, which returns the generator -
    commits nothing: the history is as it was, whatever is done with the
    generator afterwards.  The assistant turn is appended only by reading
    the stream to its end, and its content is then the concatenation of
    all the chunks yielded; no other way of consuming the stream changes
    the history. *)
Theorem partial_stream_never_committed
    (result : TextStream) (this : Orchestrator) (k : nat) (rest : list ConsumerAction) :
  k <= length (chunks result) ->
  (let '(got, _, this') :=
     consume (replicate k Pull) (enhancedTextStream result) this in
   got = take k (chunks result)
   /\ conversationHistory this' = conversationHistory this)
  /\ (let '(got, _, this') :=
        consume (replicate k Pull ++ Leave :: rest) (enhancedTextStream result) this in
      got = take k (chunks result)
      /\ conversationHistory this' = conversationHistory this)
  /\ (failure result = None ->
      forAwait (S (length (chunks result))) (enhancedTextStream result) this
      = Some (chunks result, Done,
              push this {| role := assistant; content := Js.concat (chunks result) |}))
  /\ (forall script : list ConsumerAction,
        let '(got, _, this') := consume script (enhancedTextStream result) this in
        conversationHistory this' = conversationHistory this
        \/ (got = chunks result
            /\ conversationHistory this'
               = conversationHistory this
                 ++ [{| role := assistant; content := Js.concat (chunks result) |}])).
Proof.
  intros Hk. destruct result as [cs f]. simpl in Hk. unfold enhancedTextStream.
  cbn [chunks failure]. split; [|split; [|split]].
  - destruct (consume_pulls k cs f EmptyString 0 this Hk) as (g' & ->).
    split; reflexivity.
  - destruct (consume_then_leave k cs f EmptyString 0 rest this Hk) as (g' & ->).
    split; reflexivity.
  - intros ->. rewrite forAwait_drains. reflexivity.
  - intros script.
    pose proof (consume_commits_all_or_nothing script
                  {| originalTextStream := {| chunks := cs; failure := f |};
                     fullText := EmptyString; chunkCount := 0; finished := false |} this) as H.
    destruct (consume script _ this) as [[got g'] this'].
    destruct H as [H | (_ & Hgot & Hh)]; [left; assumption|].
    right. simpl in *. split; assumption.
Qed.

(** When the stream rejects while it is read, nothing is appended - and
    the user turn [processMessageStream] had pushed stays, the call
    having returned. *)
Lemma rejected_stream_commits_nothing
    (cs : list string) (e : JsError) (this : Orchestrator) :
  forAwait (S (length cs)) (enhancedTextStream {| chunks := cs; failure := Some e |}) this
  = Some (cs, Rejected e, this).
Proof. unfold enhancedTextStream. now rewrite forAwait_drains. Qed.

(** *** Sequences of successful calls *)

Lemma succeed_appends_exchange (w : World) (c : Call) (this this' : Orchestrator) :
  succeed w c this = Some this' ->
  exists u a,
    conversationHistory this'
    = conversationHistory this
      ++ [{| role := user; content := u |}; {| role := assistant; content := a |}].
Proof.
  destruct c as [llm message ctx | sllm message ctx]; unfold succeed.
  - pose proof (processMessage_unfold w llm this message ctx) as H. cbv zeta in H.
    destruct (snd (generateText w llm _ (delegationTools this))) as [result|error].
    + destruct H as (_ & (r & Hc & _) & Hh). rewrite Hc. intros [= <-].
      rewrite Hh. eauto.
    + destruct H as (_ & Hc & _). rewrite Hc. discriminate.
  - pose proof (processMessageStream_unfold sllm this message ctx) as H. cbv zeta in H.
    destruct (sllm _) as [[cs f]|error].
    + destruct H as (_ & Hc & Hh). rewrite Hc. unfold enhancedTextStream.
      cbn [originalTextStream chunks]. rewrite forAwait_drains.
      destruct f as [e|]; [discriminate|]. intros [= <-].
      rewrite history_push, Hh, <- app_assoc. simpl. eauto.
    + destruct H as (_ & Hc & _). rewrite Hc. discriminate.
Qed.

Lemma session_appends_exchanges (w : World) (calls : list Call) :
  forall this this' : Orchestrator,
    session w calls this = Some this' ->
    exists turns,
      conversationHistory this' = conversationHistory this ++ turns
      /\ map role turns = exchanges (length calls).
Proof.
  induction calls as [|c calls IH]; intros this this'; simpl.
  - intros [= <-]. exists []. split; [now rewrite app_nil_r | reflexivity].
  - destruct (succeed w c this) as [this1|] eqn:Hc; [|discriminate].
    intros Hs. destruct (succeed_appends_exchange _ _ _ _ Hc) as (u & a & H1).
    destruct (IH _ _ Hs) as (turns & H2 & Hr).
    exists ({| role := user; content := u |} :: {| role := assistant; content := a |} :: turns).
    split.
    + rewrite H2, H1, <- app_assoc. reflexivity.
    + simpl. now rewrite Hr.
Qed.

Lemma length_exchanges (n : nat) : length (exchanges n) = 2 * n.
Proof. induction n as [|n IH]; simpl; lia. Qed.

End History.

(** C1, at a failing model and a failing stream. *)
Lemma failed_invocation_rolls_back_witness :
  let this := Assistant.constructor Sample.prompt None Sample.cfg in
  (let s := Assistant.processMessage Sample.world Sample.failing this "hello" None in
   Assistant.completion s = Assistant.Throw Sample.boom
   /\ Assistant.conversationHistory (Assistant.after s) = Assistant.conversationHistory this
   /\ length (Assistant.conversationHistory (Assistant.after s))
      = length (Assistant.conversationHistory this))
  /\
  (let s := Assistant.processMessageStream Sample.brokenStream this "hello" None in
   Assistant.completion s = Assistant.Throw Sample.boom
   /\ Assistant.conversationHistory (Assistant.after s) = Assistant.conversationHistory this
   /\ length (Assistant.conversationHistory (Assistant.after s))
      = length (Assistant.conversationHistory this)).
Proof.
  intros this.
  destruct (failed_invocation_rolls_back Sample.world Sample.failing Sample.brokenStream
              this "hello" None Sample.boom) as [Hbuffered Hstreamed].
  split; [apply Hbuffered; reflexivity | apply Hstreamed; reflexivity].
Defined.

(** C3, at a stream of three chunks abandoned after two. *)
Lemma partial_stream_never_committed_witness :
  let this := Assistant.constructor Sample.prompt None Sample.cfg in
  let result := {| Assistant.chunks := ["Hel"; "lo "; "Ada"]; Assistant.failure := None |} in
  2 <= length (Assistant.chunks result)
  /\ (let '(got, _, this') :=
        Assistant.consume (replicate 2 Assistant.Pull ++ Assistant.Leave :: [Assistant.Pull])
                          (Assistant.enhancedTextStream result) this in
      got = ["Hel"; "lo "]
      /\ Assistant.conversationHistory this' = Assistant.conversationHistory this)
  /\ Assistant.forAwait 4 (Assistant.enhancedTextStream result) this
     = Some (["Hel"; "lo "; "Ada"], Assistant.Done,
             Assistant.push this {| Assistant.role := Assistant.assistant;
                                    Assistant.content := "Hello Ada" |}).
Proof.
  intros this result. split; [simpl; lia|].
  destruct (partial_stream_never_committed result this 2 [Assistant.Pull])
    as (_ & Hleave & Hdrain & _); [simpl; lia|].
  split; [exact Hleave | exact (Hdrain eq_refl)].
Defined.

(** ** Sequences of calls *)

Section Calls.
Import Assistant.

Variable ORCHESTRATOR_SYSTEM_PROMPT : string.
Variable AWS_REGION : option string.

Local Abbreviation new := (constructor ORCHESTRATOR_SYSTEM_PROMPT AWS_REGION).

Lemma constructor_history (cfg : OrchestratorConfig) :
  conversationHistory (new cfg) = [{| role := system; content := ORCHESTRATOR_SYSTEM_PROMPT |}].
Proof. reflexivity. Qed.

(** C2. Every successful call - buffered, or streamed and read to the
    end - appends exactly one user turn followed by one assistant turn;
    so after [n] successful calls on a new instance the history has
    [1 + 2 * n] turns, the first of which is the system turn, followed by
    [n] user/assistant pairs. *)
Theorem history_grows_by_two_per_call (w : World) :
  (forall (c : Call) (this this' : Orchestrator),
      succeed w c this = Some this' ->
      length (conversationHistory this') = length (conversationHistory this) + 2
      /\ exists u a,
          conversationHistory this'
          = conversationHistory this
            ++ [{| role := user; content := u |}; {| role := assistant; content := a |}])
  /\
  (forall (cfg : OrchestratorConfig) (calls : list Call) (this' : Orchestrator),
      session w calls (new cfg) = Some this' ->
      length (conversationHistory this') = 1 + 2 * length calls
      /\ head (conversationHistory this')
         = Some {| role := system; content := ORCHESTRATOR_SYSTEM_PROMPT |}
      /\ map role (conversationHistory this') = system :: exchanges (length calls)).
Proof.
  split.
  - intros c this this' Hc.
    destruct (succeed_appends_exchange _ _ _ _ Hc) as (u & a & H).
    split; [|eauto]. rewrite H, length_app. simpl. lia.
  - intros cfg calls this' Hs.
    destruct (session_appends_exchanges _ _ _ _ Hs) as (turns & H & Hr).
    rewrite constructor_history in H. rewrite H. simpl.
    split; [|split].
    + f_equal. rewrite <- (length_map role), Hr, length_exchanges. lia.
    + reflexivity.
    + now rewrite Hr.
Qed.

End Calls.

(** C2, at a buffered call followed by a streamed one. *)
Lemma history_grows_by_two_per_call_witness :
  exists this',
    Assistant.session Sample.world
      [Assistant.Buffered (Sample.answering "Hi Ada") "My name is Ada" None;
       Assistant.Streamed (Sample.streamingChunks ["Ad"; "a"]) "What is my name?" None]
      (Assistant.constructor Sample.prompt None Sample.cfg) = Some this'
    /\ length (Assistant.conversationHistory this') = 5
    /\ head (Assistant.conversationHistory this')
       = Some {| Assistant.role := Assistant.system; Assistant.content := Sample.prompt |}.
Proof.
  eexists. split; [reflexivity|].
  destruct (history_grows_by_two_per_call Sample.prompt None Sample.world) as [_ H].
  destruct (H Sample.cfg
              [Assistant.Buffered (Sample.answering "Hi Ada") "My name is Ada" None;
               Assistant.Streamed (Sample.streamingChunks ["Ad"; "a"]) "What is my name?" None]
              _ eq_refl) as (Hlen & Hhead & _).
  split; assumption.
Defined.

(** ** The tone directive *)

Section Tone.
Import Assistant.

Lemma generateText_events (w : World) (llm : LanguageModel)
    (messages : list ModelMessage) (tools : option DelegationTools) :
  exists rest, fst (generateText w llm messages tools) = GenerateText messages :: rest.
Proof.
  unfold generateText, bind, emit.
  destruct (runModel w tools (llm messages)) as [ev r]. simpl. eauto.
Qed.

(** [processMessage] first logs what the tone block logs, then invokes
    the model on the history extended with the user turn. *)
Lemma processMessage_effects (w : World) (llm : LanguageModel) (this : Orchestrator)
    (message : string) (additionalContext : option string) :
  let tone := toneDirective (cfg_toneOfResponse (config this))
                            (withContext message additionalContext) in
  exists rest,
    effects (processMessage w llm this message additionalContext)
    = snd tone
      ++ GenerateText (conversationHistory this ++ [{| role := user; content := fst tone |}])
      :: rest.
Proof.
  intros tone.
  pose proof (processMessage_unfold w llm this message additionalContext) as H.
  cbv zeta in H. fold tone in H.
  destruct (generateText_events w llm
              (conversationHistory this ++ [{| role := user; content := fst tone |}])
              (delegationTools this)) as (rest & Hev).
  destruct (snd (generateText w llm _ (delegationTools this))).
  - destruct H as (-> & _). rewrite Hev. eauto.
  - destruct H as (-> & _). rewrite Hev. simpl. eauto.
Qed.

Lemma turnSent_after_warnings (log : list Event) (messages : list ModelMessage)
    (turn : ModelMessage) (rest : list Event) :
  (log = [] \/ exists t, log = [ConsoleWarn t]) ->
  turnSent (log ++ GenerateText (messages ++ [turn]) :: rest) = Some turn.
Proof.
  intros [-> | (t & ->)]; unfold turnSent; simpl; apply last_snoc.
Qed.


(** What [processMessage] records and logs, by the tone it is configured
    with; it throws only what the model invocation throws. *)
Lemma processMessage_records (w : World) (llm : LanguageModel) (this : Orchestrator)
    (X : string) (additionalContext : option string) :
  let base := withContext X additionalContext in
  let s := processMessage w llm this X additionalContext in
  match cfg_toneOfResponse (config this) with
  | Some tone =>
      match recognizedSuffix tone with
      | Some suffix =>
          turnSent (effects s) = Some {| role := user; content := base +:+ suffix |}
          /\ warnedBeforeInvocation (effects s) = []
          /\ forall e, completion s = Throw e ->
               snd (generateText w llm
                      (conversationHistory this
                       ++ [{| role := user; content := base +:+ suffix |}])
                      (delegationTools this)) = Throw e
      | None =>
          turnSent (effects s) = Some {| role := user; content := base |}
          /\ warnedBeforeInvocation (effects s)
             = (if Js.truthy tone
                then ["[Orchestrator.processMessage] Invalid toneOfResponse: " +:+ tone]
                else [])
          /\ forall e, completion s = Throw e ->
               snd (generateText w llm
                      (conversationHistory this ++ [{| role := user; content := base |}])
                      (delegationTools this)) = Throw e
      end
  | None =>
      turnSent (effects s) = Some {| role := user; content := base |}
      /\ warnedBeforeInvocation (effects s) = []
      /\ forall e, completion s = Throw e ->
           snd (generateText w llm
                  (conversationHistory this ++ [{| role := user; content := base |}])
                  (delegationTools this)) = Throw e
  end.
Proof.
  intros base s.
  destruct (processMessage_effects w llm this X additionalContext) as (rest & Hev).
  pose proof (processMessage_unfold w llm this X additionalContext) as Hun.
  cbv zeta in Hev, Hun. fold base s in Hev, Hun.
  assert (Hthrow : forall e, completion s = Throw e ->
            snd (generateText w llm
                   (conversationHistory this
                    ++ [{| role := user;
                           content := fst (toneDirective (cfg_toneOfResponse (config this))
                                                         base) |}])
                   (delegationTools this)) = Throw e).
  { intros e He.
    destruct (snd (generateText w llm _ (delegationTools this))) as [r|e'].
    - destruct Hun as (_ & (r' & Hr' & _) & _). congruence.
    - destruct Hun as (_ & He' & _). congruence. }
  clear Hun. revert Hev Hthrow. unfold toneDirective, recognizedSuffix.
  destruct (cfg_toneOfResponse (config this)) as [tone|].
  2:{ cbn [fst snd]. intros -> Hthrow. split; [|split; [|exact Hthrow]].
      - apply (turnSent_after_warnings []); auto.
      - reflexivity. }
  destruct (Js.truthy tone).
  - destruct (String.eqb "concise and direct" (Js.toLowerCase (Js.trim tone)));
      [|destruct (String.eqb "professional and friendly" (Js.toLowerCase (Js.trim tone)));
        [|destruct (String.eqb "detailed and conversational"
                               (Js.toLowerCase (Js.trim tone)))]];
      cbn [fst snd]; intros -> Hthrow; (split; [|split; [|exact Hthrow]]);
      try (apply (turnSent_after_warnings []); auto);
      try reflexivity.
    apply turnSent_after_warnings. eauto.
  - cbn [fst snd]. intros -> Hthrow. split; [|split; [|exact Hthrow]].
    + apply (turnSent_after_warnings []); auto.
    + reflexivity.
Qed.



(** C10.  The constructor spreads the caller's config over the
    defaults.  A config without the key [toneOfResponse] gets the tone
    'concise and direct', and every [processMessage] call then records,
    and sends to the model, the message followed by the concise-tone
    suffix, never the message itself.  A config whose key is present with
    the value [undefined] overrides the default with [undefined]: the
    tone block is skipped, and every call records, and sends to the
    model, the message as it came, with no warning; on success that turn
    and the reply are what the history gains. *)
Theorem undefined_tone_defeats_default
    (ORCHESTRATOR_SYSTEM_PROMPT : string) (AWS_REGION : option string)
    (cfg : OrchestratorConfig) (w : World) (llm : LanguageModel) (this : Orchestrator)
    (X : string) (additionalContext : option string) :
  config this = config (constructor ORCHESTRATOR_SYSTEM_PROMPT AWS_REGION cfg) ->
  let s := processMessage w llm this X additionalContext in
  let base := withContext X additionalContext in
  (toneOfResponse cfg = Absent ->
   cfg_toneOfResponse (config this) = Some "concise and direct"
   /\ turnSent (effects s) = Some {| role := user; content := base +:+ conciseSuffix |}
   /\ base +:+ conciseSuffix <> X
   /\ forall r, completion s = Normal r ->
        conversationHistory (after s)
        = conversationHistory this
          ++ [{| role := user; content := base +:+ conciseSuffix |};
              {| role := assistant; content := text r |}])
  /\ (toneOfResponse cfg = Present None ->
      cfg_toneOfResponse (config this) = None
      /\ turnSent (effects s) = Some {| role := user; content := base |}
      /\ warnedBeforeInvocation (effects s) = []
      /\ (additionalContext = None -> base = X)
      /\ forall r, completion s = Normal r ->
           conversationHistory (after s)
           = conversationHistory this
             ++ [{| role := user; content := base |};
                 {| role := assistant; content := text r |}]).
Proof.
  intros Hcfg s base.
  pose proof (processMessage_records w llm this X additionalContext) as Hc.
  pose proof (processMessage_unfold w llm this X additionalContext) as Hun.
  cbv zeta in Hc, Hun. fold s base in Hc, Hun.
  split; intros Hkey.
  - assert (Htone : cfg_toneOfResponse (config this) = Some "concise and direct").
    { rewrite Hcfg. simpl. rewrite Hkey. reflexivity. }
    split; [exact Htone|].
    rewrite Htone in Hc, Hun.
    change (recognizedSuffix "concise and direct") with (Some conciseSuffix) in Hc.
    change (toneDirective (Some "concise and direct") base)
      with (base +:+ conciseSuffix, @nil Event) in Hun.
    cbn [fst snd] in Hun.
    destruct Hc as (Hsent & _ & _).
    split; [exact Hsent|]. split.
    + subst base. unfold withContext.
      destruct additionalContext as [ctx|].
      * destruct (Js.truthy ctx).
        -- rewrite !append_assoc.
           change (ctx +:+ Js.nl +:+ Js.nl +:+ "User message: " +:+ X +:+ conciseSuffix)
             with (ctx +:+ (Js.nl +:+ Js.nl +:+ "User message: ") +:+ X +:+ conciseSuffix).
           rewrite <- (append_assoc ctx). apply wrapped_differs. vm_compute. lia.
        -- apply (wrapped_differs EmptyString). vm_compute. lia.
      * apply (wrapped_differs EmptyString). vm_compute. lia.
    + intros r Hr.
      destruct (snd (generateText w llm _ (delegationTools this))) as [result|e].
      * destruct Hun as (_ & (r' & Hr' & Ht) & Hh). rewrite Hh.
        assert (r = r') by congruence. subst r'. rewrite Ht. reflexivity.
      * destruct Hun as (_ & He & _). congruence.
  - assert (Htone : cfg_toneOfResponse (config this) = None).
    { rewrite Hcfg. simpl. rewrite Hkey. reflexivity. }
    split; [exact Htone|].
    rewrite Htone in Hc, Hun.
    change (toneDirective None base) with (base, @nil Event) in Hun.
    cbn [fst snd] in Hun.
    destruct Hc as (Hsent & Hwarn & _).
    split; [exact Hsent|]. split; [exact Hwarn|]. split.
    + intros ->. reflexivity.
    + intros r Hr.
      destruct (snd (generateText w llm _ (delegationTools this))) as [result|e].
      * destruct Hun as (_ & (r' & Hr' & Ht) & Hh). rewrite Hh.
        assert (r = r') by congruence. subst r'. rewrite Ht. reflexivity.
      * destruct Hun as (_ & He & _). congruence.
Qed.

(** C5.  [processMessageStream] records, and sends to the model, the
    message as [withContext] builds it, whatever the configured tone;
    with the default configuration [processMessage] records ["X"] with
    the concise-tone suffix where [processMessageStream] records ["X"]
    alone. *)
Theorem stream_turn_lacks_tone_suffix
    (ORCHESTRATOR_SYSTEM_PROMPT : string) (AWS_REGION : option string)
    (w : World) (llm : LanguageModel) (sllm : StreamingModel) :
  (forall (this : Orchestrator) (message : string) (additionalContext : option string),
      turnSent (effects (processMessageStream sllm this message additionalContext))
      = Some {| role := user; content := withContext message additionalContext |})
  /\
  (let this := constructor ORCHESTRATOR_SYSTEM_PROMPT AWS_REGION Sample.cfg in
   turnSent (effects (processMessage w llm this "X" None))
   = Some {| role := user; content := "X" +:+ conciseSuffix |}
   /\ turnSent (effects (processMessageStream sllm this "X" None))
      = Some {| role := user; content := "X" |}
   /\ "X" +:+ conciseSuffix <> "X").
Proof.
  assert (Hstream : forall this message additionalContext,
             turnSent (effects (processMessageStream sllm this message additionalContext))
             = Some {| role := user; content := withContext message additionalContext |}).
  { intros this message additionalContext.
    pose proof (processMessageStream_unfold sllm this message additionalContext) as H.
    cbv zeta in H.
    destruct (sllm _); destruct H as (-> & _); unfold turnSent; simpl; apply last_snoc. }
  split; [exact Hstream|].
  intros this. split; [|split].
  - pose proof (processMessage_records w llm this "X" None) as H. cbv zeta in H.
    change (cfg_toneOfResponse (config this)) with (Some "concise and direct") in H.
    change (recognizedSuffix "concise and direct") with (Some conciseSuffix) in H.
    destruct H as (H & _). exact H.
  - apply Hstream.
  - vm_compute. discriminate.
Qed.

End Tone.


(** C10, at the sample configuration with the key [toneOfResponse]
    present and [undefined], and without the key. *)
Lemma undefined_tone_defeats_default_witness :
  let undefinedTone := Assistant.constructor Sample.prompt None Sample.withUndefinedTone in
  let noKey := Assistant.constructor Sample.prompt None Sample.cfg in
  Assistant.turnSent
    (Assistant.effects
       (Assistant.processMessage Sample.world (Sample.answering "Hi Ada") undefinedTone
          "My name is Ada" None))
  = Some {| Assistant.role := Assistant.user; Assistant.content := "My name is Ada" |}
  /\ Assistant.turnSent
       (Assistant.effects
          (Assistant.processMessage Sample.world (Sample.answering "Hi Ada") noKey
             "My name is Ada" None))
     = Some {| Assistant.role := Assistant.user;
               Assistant.content := "My name is Ada" +:+ Assistant.conciseSuffix |}.
Proof.
  intros undefinedTone noKey. split.
  - destruct (undefined_tone_defeats_default Sample.prompt None Sample.withUndefinedTone
                Sample.world (Sample.answering "Hi Ada") undefinedTone "My name is Ada" None
                eq_refl) as (_ & H).
    destruct (H eq_refl) as (_ & Hsent & _). exact Hsent.
  - destruct (undefined_tone_defeats_default Sample.prompt None Sample.cfg
                Sample.world (Sample.answering "Hi Ada") noKey "My name is Ada" None
                eq_refl) as (H & _).
    destruct (H eq_refl) as (_ & Hsent & _). exact Hsent.
Defined.

(** ** Delegation *)

Section Delegation.
Import Assistant.

Lemma bind_normal {A B} (ev : list Event) (a : A) (k : A -> Eff B) :
  bind (ev, Normal a) k = (let '(ev', r) := k a in (ev ++ ev', r)).
Proof. reflexivity. Qed.

Lemma bind_throw {A B} (ev : list Event) (e : JsError) (k : A -> Eff B) :
  bind (ev, Throw e) k = (ev, Throw e).
Proof. reflexivity. Qed.

(** [getConnectionId] never throws: it settles on [resolvedConnection],
    and only looks the integration up. *)
Lemma getConnectionId_resolves (this_config : Config) (w : World) (connector : string) :
  exists ev,
    getConnectionId this_config w connector
    = (ev, Normal (resolvedConnection this_config w connector))
    /\ collaborations ev = [GetIntegration (cfg_userId this_config) connector]
    /\ Forall (fun e => forall tk, toolsetWithin tk e) ev.
Proof.
  unfold getConnectionId, resolvedConnection, tryCatch, bind, external, emit, ret.
  destruct (getIntegration w (cfg_userId this_config) connector) as [[i|]|e]; simpl.
  - destruct (String.eqb (connectionStatus i) "active"); simpl;
      eexists; (split; [reflexivity|]); (split; [reflexivity|]);
      repeat constructor.
  - eexists; (split; [reflexivity|]); (split; [reflexivity|]); repeat constructor.
  - eexists; (split; [reflexivity|]); (split; [reflexivity|]); repeat constructor.
Qed.

(** What the Gmail tool does, case by case. *)
Lemma delegate_to_gmail_cases (userId key : string) (this_config : Config)
    (w : World) (task : string) :
  let tool := delegate_to_gmail (createDelegationTools userId key (getConnectionId this_config)) in
  exists ev0,
    collaborations ev0 = [GetIntegration (cfg_userId this_config) "gmail"]
    /\ Forall (fun e => forall tk, toolsetWithin tk e) ev0
    /\ if noConnection (resolvedConnection this_config w "gmail")
       then execute tool w task = (ev0, Normal (ErrorOutput gmailNotConnected))
       else exists out ev1,
           execute tool w task
           = (ev0 ++ ComposioToolsGet key userId ["gmail"] :: ev1, Normal out)
           /\ (ev1 = []
               \/ exists ts,
                   composio_tools_get w key userId ["gmail"] = Normal ts
                   /\ ev1 = [SubAgentGenerateText haiku ts
                               ("You are a Gmail assistant. " +:+ task)]).
Proof.
  intros tool. subst tool.
  destruct (getConnectionId_resolves this_config w "gmail") as (ev0 & Hget & Hcol & Hin).
  exists ev0. split; [exact Hcol|]. split; [exact Hin|].
  cbn [createDelegationTools delegate_to_gmail execute]. rewrite Hget.
  rewrite bind_normal. cbv beta.
  destruct (noConnection (resolvedConnection this_config w "gmail")).
  - unfold ret. rewrite app_nil_r. reflexivity.
  - unfold createGmailAgent, executeGmailTask, tryCatch, bind, external, ret.
    destruct (composio_tools_get w key userId ["gmail"]) as [ts|e]; simpl.
    + destruct (subagent_generateText w haiku ts ("You are a Gmail assistant. " +:+ task));
        simpl; do 2 eexists; (split; [reflexivity|]); right; eauto.
    + do 2 eexists. split; [reflexivity|]. left. reflexivity.
Qed.

(** What the Calendar tool does, case by case. *)
Lemma delegate_to_calendar_cases (userId key : string) (this_config : Config)
    (w : World) (task : string) :
  let tool :=
    delegate_to_calendar (createDelegationTools userId key (getConnectionId this_config)) in
  exists ev0,
    collaborations ev0 = [GetIntegration (cfg_userId this_config) "google_calendar"]
    /\ Forall (fun e => forall tk, toolsetWithin tk e) ev0
    /\ if noConnection (resolvedConnection this_config w "google_calendar")
       then execute tool w task = (ev0, Normal (ErrorOutput calendarNotConnected))
       else exists out ev1,
           execute tool w task
           = (ev0 ++ ComposioToolsGet key userId ["googlecalendar"] :: ev1, Normal out)
           /\ (ev1 = []
               \/ exists ts,
                   composio_tools_get w key userId ["googlecalendar"] = Normal ts
                   /\ ev1 = [SubAgentGenerateText haiku ts
                               ("You are a Google Calendar assistant. " +:+ task)]).
Proof.
  intros tool. subst tool.
  destruct (getConnectionId_resolves this_config w "google_calendar")
    as (ev0 & Hget & Hcol & Hin).
  exists ev0. split; [exact Hcol|]. split; [exact Hin|].
  cbn [createDelegationTools delegate_to_calendar execute]. rewrite Hget.
  rewrite bind_normal. cbv beta.
  destruct (noConnection (resolvedConnection this_config w "google_calendar")).
  - unfold ret. rewrite app_nil_r. reflexivity.
  - unfold createCalendarAgent, executeCalendarTask, tryCatch, bind, external, ret.
    destruct (composio_tools_get w key userId ["googlecalendar"]) as [ts|e]; simpl.
    + destruct (subagent_generateText w haiku ts
                  ("You are a Google Calendar assistant. " +:+ task));
        simpl; do 2 eexists; (split; [reflexivity|]); right; eauto.
    + do 2 eexists. split; [reflexivity|]. left. reflexivity.
Qed.

(** Both tools always settle normally. *)
Lemma delegation_tools_never_throw (userId key : string) (this_config : Config)
    (w : World) (task : string) :
  let tools := createDelegationTools userId key (getConnectionId this_config) in
  (exists ev out, execute (delegate_to_gmail tools) w task = (ev, Normal out))
  /\ (exists ev out, execute (delegate_to_calendar tools) w task = (ev, Normal out)).
Proof.
  intros tools. subst tools. split.
  - destruct (delegate_to_gmail_cases userId key this_config w task) as (ev0 & _ & _ & H).
    destruct (noConnection _); [eauto|]. destruct H as (out & ev1 & -> & _). eauto.
  - destruct (delegate_to_calendar_cases userId key this_config w task) as (ev0 & _ & _ & H).
    destruct (noConnection _); [eauto|]. destruct H as (out & ev1 & -> & _). eauto.
Qed.

Lemma runModel_call (w : World) (tools : option DelegationTools)
    (toolName task : string) (k : ToolOutput -> ModelRun) :
  runModel w tools (ToolCall toolName task k)
  = match lookupTool tools toolName with
    | Some t => bind (execute t w task) (fun output => runModel w tools (k output))
    | None => throw {| name := "AI_NoSuchToolError"; message := toolName |}
    end.
Proof. reflexivity. Qed.

(** With these tools a cooperative run always ends in a result. *)
Lemma runModel_cooperative (userId key : string) (this_config : Config) (w : World)
    (run : ModelRun) :
  Cooperative run ->
  exists ev r,
    runModel w (Some (createDelegationTools userId key (getConnectionId this_config))) run
    = (ev, Normal r).
Proof.
  induction 1 as [result | task k _ IH | task k _ IH].
  - simpl. unfold ret. eauto.
  - destruct (delegation_tools_never_throw userId key this_config w task)
      as [(ev & out & He) _].
    destruct (IH out) as (ev' & r & Hr).
    rewrite runModel_call.
    change (lookupTool (Some ?t) "delegate_to_gmail") with (Some (delegate_to_gmail t)).
    cbv iota. rewrite He, bind_normal, Hr. eauto.
  - destruct (delegation_tools_never_throw userId key this_config w task)
      as [_ (ev & out & He)].
    destruct (IH out) as (ev' & r & Hr).
    rewrite runModel_call.
    change (lookupTool (Some ?t) "delegate_to_calendar") with (Some (delegate_to_calendar t)).
    cbv iota. rewrite He, bind_normal, Hr. eauto.
Qed.

Lemma unresolved_without_fallback (this_config : Config) (w : World) (connector : string) :
  noActiveIntegration w (cfg_userId this_config) connector ->
  fallbackConnectionId this_config connector = None ->
  noConnection (resolvedConnection this_config w connector) = true.
Proof.
  unfold noActiveIntegration, resolvedConnection.
  destruct (getIntegration w (cfg_userId this_config) connector) as [[i|]|e].
  - destruct (String.eqb_spec (connectionStatus i) "active") as [-> | _].
    + intros H. now contradiction H.
    + intros _ ->. reflexivity.
  - intros _ ->. reflexivity.
  - intros _ ->. reflexivity.
Qed.

(** C8, as amended.  An orchestrator constructed with a Composio key
    registers the two delegation tools.  Each of them returns
    [{ result }] or [{ error }] and never throws.  When [getConnectionId]
    settles on no connection id the tool returns its fixed [{ error }]
    and has done nothing but look the integration up; that is the case
    whenever the store shows no active integration and the configuration
    holds no non-empty fallback id for the connector.  When an id is
    resolved - the fallback id included - the tool goes on and asks
    Composio for the toolkit.  With these tools, [processMessage]
    completes whenever the model does not fail by itself. *)
Theorem delegation_fails_closed_when_unresolved
    (ORCHESTRATOR_SYSTEM_PROMPT : string) (AWS_REGION : option string)
    (cfg : OrchestratorConfig) (key : string) (w : World) :
  composioApiKey cfg = Some key ->
  Js.truthy key = true ->
  let this := constructor ORCHESTRATOR_SYSTEM_PROMPT AWS_REGION cfg in
  exists tools,
    delegationTools this = Some tools
    /\ (forall task,
          (exists ev out, execute (delegate_to_gmail tools) w task = (ev, Normal out))
          /\ (noConnection (resolvedConnection (config this) w "gmail") = true ->
              exists ev,
                execute (delegate_to_gmail tools) w task
                = (ev, Normal (ErrorOutput gmailNotConnected))
                /\ collaborations ev = [GetIntegration (userId cfg) "gmail"])
          /\ (noConnection (resolvedConnection (config this) w "gmail") = false ->
              exists ev out,
                execute (delegate_to_gmail tools) w task = (ev, Normal out)
                /\ In (ComposioToolsGet key (userId cfg) ["gmail"]) ev))
    /\ (forall task,
          (exists ev out, execute (delegate_to_calendar tools) w task = (ev, Normal out))
          /\ (noConnection (resolvedConnection (config this) w "google_calendar") = true ->
              exists ev,
                execute (delegate_to_calendar tools) w task
                = (ev, Normal (ErrorOutput calendarNotConnected))
                /\ collaborations ev = [GetIntegration (userId cfg) "google_calendar"])
          /\ (noConnection (resolvedConnection (config this) w "google_calendar") = false ->
              exists ev out,
                execute (delegate_to_calendar tools) w task = (ev, Normal out)
                /\ In (ComposioToolsGet key (userId cfg) ["googlecalendar"]) ev))
    /\ (forall connector,
          noActiveIntegration w (userId cfg) connector ->
          fallbackConnectionId (config this) connector = None ->
          noConnection (resolvedConnection (config this) w connector) = true)
    /\ (forall (llm : LanguageModel) (o : Orchestrator)
               (message : string) (additionalContext : option string),
          delegationTools o = Some tools ->
          (forall messages, Cooperative (llm messages)) ->
          exists r, completion (processMessage w llm o message additionalContext) = Normal r).
Proof.
  intros Hkey Htruthy this.
  set (this_config := config this).
  exists (createDelegationTools (userId cfg) key (getConnectionId this_config)).
  split; [|split; [|split; [|split]]].
  - subst this this_config. unfold constructor. cbn [delegationTools cfg_composioApiKey].
    rewrite Hkey, Htruthy. reflexivity.
  - intros task.
    destruct (delegate_to_gmail_cases (userId cfg) key this_config w task)
      as (ev0 & Hcol & _ & H).
    destruct (noConnection (resolvedConnection this_config w "gmail")).
    + split; [eauto|]. split; [|discriminate]. intros _. eauto.
    + destruct H as (out & ev1 & He & _).
      split; [eauto|]. split; [discriminate|]. intros _.
      exists (ev0 ++ ComposioToolsGet key (userId cfg) ["gmail"] :: ev1), out.
      split; [exact He|]. apply in_or_app. right. left. reflexivity.
  - intros task.
    destruct (delegate_to_calendar_cases (userId cfg) key this_config w task)
      as (ev0 & Hcol & _ & H).
    destruct (noConnection (resolvedConnection this_config w "google_calendar")).
    + split; [eauto|]. split; [|discriminate]. intros _. eauto.
    + destruct H as (out & ev1 & He & _).
      split; [eauto|]. split; [discriminate|]. intros _.
      exists (ev0 ++ ComposioToolsGet key (userId cfg) ["googlecalendar"] :: ev1), out.
      split; [exact He|]. apply in_or_app. right. left. reflexivity.
  - intros connector. exact (unresolved_without_fallback this_config w connector).
  - intros llm o message ctx Htools Hcoop.
    pose proof (processMessage_unfold w llm o message ctx) as H. cbv zeta in H.
    rewrite Htools in H.
    set (messages := conversationHistory o ++ _) in H.
    destruct (runModel_cooperative (userId cfg) key this_config w (llm messages)
                (Hcoop messages)) as (ev & r & Hr).
    unfold generateText in H. rewrite Hr in H. cbn [bind emit snd] in H.
    destruct H as (_ & (r' & Hr' & _) & _). eauto.
Qed.

(** C8, as stated, fails with a fallback id in the configuration: the
    store holds no integration for the user, yet the Gmail tool goes on
    with the task and returns [{ result }]. *)
Lemma delegation_fallback_counterexample :
  ~ failsClosedAsSpecified Sample.world
      (constructor Sample.prompt None Sample.withFallback) "Search emails from today".
Proof.
  unfold failsClosedAsSpecified. intros H.
  destruct (H I) as (ev & e & Hex & _).
  vm_compute in Hex. discriminate Hex.
Qed.

(** C9.  Provided Composio serves, for a list of toolkits, tools of
    these toolkits only: the Gmail sub-agent asks for the toolkit
    ['gmail'] alone and holds Gmail tools only, the Calendar sub-agent
    asks for ['googlecalendar'] alone and holds Calendar tools only, and
    whatever a delegation tool does, every toolset it fetches or hands to
    its sub-agent is of its own toolkit. *)
Theorem delegate_toolsets_are_isolated (w : World) :
  (forall key userId toolkits ts,
      composio_tools_get w key userId toolkits = Normal ts ->
      Forall (fun t => In (toolkit t) toolkits) ts) ->
  (forall userId connectedAccountId key ev agent,
      createGmailAgent w userId connectedAccountId key = (ev, Normal agent) ->
      ev = [ComposioToolsGet key userId ["gmail"]]
      /\ Forall (fun t => toolkit t = "gmail") (agent_tools agent))
  /\ (forall userId connectedAccountId key ev agent,
         createCalendarAgent w userId connectedAccountId key = (ev, Normal agent) ->
         ev = [ComposioToolsGet key userId ["googlecalendar"]]
         /\ Forall (fun t => toolkit t = "googlecalendar") (agent_tools agent))
  /\ (forall userId key this_config task,
         let tools := createDelegationTools userId key (getConnectionId this_config) in
         Forall (toolsetWithin "gmail") (fst (execute (delegate_to_gmail tools) w task))
         /\ Forall (toolsetWithin "googlecalendar")
                   (fst (execute (delegate_to_calendar tools) w task))).
Proof.
  intros Hserve.
  assert (Honly : forall key userId tk ts,
             composio_tools_get w key userId [tk] = Normal ts ->
             Forall (fun t => toolkit t = tk) ts).
  { intros key userId tk ts Hts. eapply Forall_impl; [exact (Hserve _ _ _ _ Hts)|].
    intros t [Ht | []]. symmetry. exact Ht. }
  split; [|split].
  - intros userId conn key ev agent. unfold createGmailAgent, bind, external, ret.
    destruct (composio_tools_get w key userId ["gmail"]) as [ts|e] eqn:Hts;
      [|discriminate].
    intros [= <- <-]. split; [reflexivity|]. simpl. eauto.
  - intros userId conn key ev agent. unfold createCalendarAgent, bind, external, ret.
    destruct (composio_tools_get w key userId ["googlecalendar"]) as [ts|e] eqn:Hts;
      [|discriminate].
    intros [= <- <-]. split; [reflexivity|]. simpl. eauto.
  - intros userId key this_config task tools. subst tools. split.
    + destruct (delegate_to_gmail_cases userId key this_config w task)
        as (ev0 & _ & Hev0 & H).
      assert (H0 : Forall (toolsetWithin "gmail") ev0).
      { eapply Forall_impl; [exact Hev0|]. intros e He. apply He. }
      destruct (noConnection _).
      * rewrite H. exact H0.
      * destruct H as (out & ev1 & -> & Hev1). cbn [fst].
        apply Forall_app. split; [exact H0|].
        constructor; [reflexivity|].
        destruct Hev1 as [-> | (ts & Hts & ->)]; [constructor|].
        constructor; [|constructor]. simpl. eauto.
    + destruct (delegate_to_calendar_cases userId key this_config w task)
        as (ev0 & _ & Hev0 & H).
      assert (H0 : Forall (toolsetWithin "googlecalendar") ev0).
      { eapply Forall_impl; [exact Hev0|]. intros e He. apply He. }
      destruct (noConnection _).
      * rewrite H. exact H0.
      * destruct H as (out & ev1 & -> & Hev1). cbn [fst].
        apply Forall_app. split; [exact H0|].
        constructor; [reflexivity|].
        destruct Hev1 as [-> | (ts & Hts & ->)]; [constructor|].
        constructor; [|constructor]. simpl. eauto.
Qed.

End Delegation.

(** C8, at the sample configuration: nothing stored, no fallback. *)
Lemma delegation_fails_closed_when_unresolved_witness :
  let this := Assistant.constructor Sample.prompt None Sample.cfg in
  exists tools,
    Assistant.delegationTools this = Some tools
    /\ (exists ev,
          Assistant.execute (Assistant.delegate_to_gmail tools) Sample.world
                            "Search emails from today"
          = (ev, Assistant.Normal (Assistant.ErrorOutput Assistant.gmailNotConnected))
          /\ Assistant.collaborations ev = [Assistant.GetIntegration "u1" "gmail"])
    /\ (exists r,
          Assistant.completion
            (Assistant.processMessage Sample.world Sample.delegating this
                                      "Check my emails from today" None)
          = Assistant.Normal r).
Proof.
  intros this.
  destruct (delegation_fails_closed_when_unresolved Sample.prompt None Sample.cfg
              "composio-key" Sample.world eq_refl eq_refl)
    as (tools & Htools & Hgmail & _ & _ & Hrespond).
  exists tools. split; [exact Htools|]. split.
  - destruct (Hgmail "Search emails from today") as (_ & Hclosed & _).
    apply Hclosed. reflexivity.
  - apply Hrespond; [exact Htools|].
    intros messages. unfold Sample.delegating.
    apply Assistant.CooperativeGmail. intros [r|e]; apply Assistant.CooperativeFinish.
Defined.

(** C9, at the sample world, whose Composio serves one tool per toolkit
    asked for. *)
Lemma delegate_toolsets_are_isolated_witness :
  let tools :=
    Assistant.createDelegationTools "u1" "composio-key"
      (Assistant.getConnectionId
         (Assistant.config (Assistant.constructor Sample.prompt None Sample.withFallback))) in
  Forall (Assistant.toolsetWithin "gmail")
         (fst (Assistant.execute (Assistant.delegate_to_gmail tools) Sample.world "task"))
  /\ Forall (Assistant.toolsetWithin "googlecalendar")
            (fst (Assistant.execute (Assistant.delegate_to_calendar tools) Sample.world "task")).
Proof.
  intros tools.
  assert (Hserve : forall key userId toolkits ts,
             Assistant.composio_tools_get Sample.world key userId toolkits
             = Assistant.Normal ts ->
             Forall (fun t => In (Assistant.toolkit t) toolkits) ts).
  { intros key userId toolkits ts [= <-].
    apply List.Forall_forall. intros t Ht. apply in_map_iff in Ht.
    destruct Ht as (tk & <- & Htk). exact Htk. }
  destruct (delegate_toolsets_are_isolated Sample.world Hserve) as (_ & _ & H).
  apply H.
Defined.

(** ** The client's completion callback *)

Section Completion.
Import ChatStream.

Variable JSON_parse_error : string -> Thrown + option string.

Lemma completions_app (a b : list Callback) :
  completions (a ++ b) = completions a + completions b.
Proof.
  induction a as [|c a IH]; [reflexivity|]. destruct c; simpl; now rewrite IH.
Qed.

Lemma Signalled_same (base : list Callback) (h h' : Hook) :
  calls h' = calls h -> completedRef h' = completedRef h ->
  Signalled base h -> Signalled base h'.
Proof. intros Hc Hr (new & H1 & H2). exists new. now rewrite Hc, Hr. Qed.

Lemma Signalled_invoke (base : list Callback) (c : Callback) (h : Hook) :
  completions [c] = 0 -> Signalled base h -> Signalled base (invoke c h).
Proof.
  intros Hc (new & H1 & H2). exists (new ++ [c]). simpl. split.
  - now rewrite H1, app_assoc.
  - rewrite completions_app, Hc, H2. lia.
Qed.

Lemma Signalled_completeOnce (base : list Callback) (m : string) (h : Hook) :
  Signalled base h -> Signalled base (completeOnce m h) /\ completedRef (completeOnce m h) = true.
Proof.
  intros (new & H1 & H2). unfold completeOnce.
  destruct (completedRef h) eqn:Hdone.
  - split; [|exact Hdone]. exists new. now rewrite Hdone.
  - split; [|reflexivity]. exists (new ++ [OnComplete m]). simpl. split.
    + now rewrite H1, app_assoc.
    + rewrite completions_app, H2. reflexivity.
Qed.

Lemma Signalled_stopStream (base : list Callback) (h : Hook) :
  Signalled base h -> Signalled base (stopStream h).
Proof.
  intros H. unfold stopStream. destruct (abortControllerRef h); [|exact H].
  apply Signalled_completeOnce.
  eapply Signalled_same; [| |exact H]; reflexivity.
Qed.

Lemma Signalled_catchBlock (base : list Callback) (e : Thrown) (h : Hook) :
  Signalled base h -> Signalled base (catchBlock e h).
Proof.
  intros H. unfold catchBlock.
  assert (Hreport : forall m,
            Signalled base
              (setAbortController false
                 (invoke (OnError {| message := m; code := "STREAM_ERROR" |})
                    (setConnectionStatus ConnectionError
                       (setStatus StatusError
                          (setError (Some {| message := m; code := "STREAM_ERROR" |}) h)))))).
  { intros m.
    eapply Signalled_same; [reflexivity | reflexivity |].
    apply Signalled_invoke; [reflexivity|].
    eapply Signalled_same; [| |exact H]; reflexivity. }
  destruct e as [name m|]; [destruct (String.eqb name "AbortError")|]; auto.
Qed.

Lemma Signalled_finallyBlock (base : list Callback) (h : Hook) :
  Signalled base h -> Signalled base (finallyBlock h).
Proof. apply Signalled_same; reflexivity. Qed.

Lemma Signalled_onChunk (base : list Callback) (chunkText : string) (h : Hook) :
  Signalled base h ->
  match onChunk JSON_parse_error chunkText h with
  | inr h' => Signalled base h'
  | inl (_, h') => Signalled base h'
  end.
Proof.
  intros H. unfold onChunk.
  destruct (parseSSEChunk chunkText) as [[event data]|]; [|exact H].
  destruct (String.eqb event "connection").
  { apply Signalled_invoke; [reflexivity|].
    eapply Signalled_same; [| |exact H]; reflexivity. }
  destruct (String.eqb event "message").
  { apply Signalled_invoke; [reflexivity|].
    eapply Signalled_same; [| |exact H]; reflexivity. }
  destruct (String.eqb event "complete").
  { apply Signalled_completeOnce.
    eapply Signalled_same; [| |exact H]; reflexivity. }
  destruct (String.eqb event "error"); [|exact H].
  destruct (JSON_parse_error data) as [thrown|field]; [exact H|].
  apply Signalled_invoke; [reflexivity|].
  eapply Signalled_same; [| |exact H]; reflexivity.
Qed.

Lemma Signalled_step (base : list Callback) (i : Input) (h : Hook) (phase : Phase) :
  Signalled base h -> Signalled base (fst (step JSON_parse_error i (h, phase))).
Proof.
  intros H. unfold step.
  destruct i as [| e | ok statusLine hasBody | e | [chunkText | | e] |].
  - destruct phase; cbn [fst negb]; exact H.
  - destruct phase; cbn [fst negb]; try exact H. now apply Signalled_catchBlock.
  - destruct phase; cbn [fst negb]; try exact H.
    destruct ok; cbn [fst negb]; [destruct hasBody; cbn [fst negb]; [exact H|]|];
      now apply Signalled_catchBlock.
  - destruct phase; cbn [fst negb]; try exact H. now apply Signalled_catchBlock.
  - destruct phase; cbn [fst negb]; try exact H.
    pose proof (Signalled_onChunk base chunkText h H) as Hc.
    destruct (onChunk JSON_parse_error chunkText h) as [[thrown h']|h']; cbn [fst negb].
    + now apply Signalled_catchBlock, Signalled_finallyBlock.
    + exact Hc.
  - destruct phase; cbn [fst negb]; try exact H.
    apply Signalled_finallyBlock, Signalled_completeOnce.
    eapply Signalled_same; [| |exact H]; reflexivity.
  - destruct phase; cbn [fst negb]; try exact H.
    now apply Signalled_catchBlock, Signalled_finallyBlock.
  - destruct phase; cbn [fst negb]; now apply Signalled_stopStream.
Qed.

Lemma run_cons (i : Input) (inputs : list Input) (s : Hook * Phase) :
  run JSON_parse_error (i :: inputs) s
  = run JSON_parse_error inputs (step JSON_parse_error i s).
Proof. reflexivity. Qed.

Lemma run_app (inputs inputs' : list Input) (s : Hook * Phase) :
  run JSON_parse_error (inputs ++ inputs') s
  = run JSON_parse_error inputs' (run JSON_parse_error inputs s).
Proof. apply fold_left_app. Qed.

Lemma Signalled_run (base : list Callback) (inputs : list Input) :
  forall s : Hook * Phase,
    Signalled base (fst s) -> Signalled base (fst (run JSON_parse_error inputs s)).
Proof.
  induction inputs as [|i inputs IH]; intros [h phase] H; [exact H|].
  rewrite run_cons. apply IH. apply Signalled_step. exact H.
Qed.

(** Whatever happens during one invocation of [startStream], the calls
    it adds hold the completion callback at most once, and exactly once
    if [completedRef] ends up set. *)
Lemma Signalled_startStream (h0 : Hook) (inputs : list Input) :
  abortControllerRef h0 = false ->
  Signalled (calls h0) (fst (startStream JSON_parse_error h0 inputs)).
Proof.
  intros Hidle. unfold startStream. rewrite Hidle.
  apply Signalled_run. exists []. simpl. split; [now rewrite app_nil_r | reflexivity].
Qed.

(** C7.  During one invocation of [startStream] the completion callback
    is invoked at most once, whatever happens.  When the stream being
    read ends, it has been invoked exactly once: by the end of the stream
    if no [complete] event had fired it, with the text accumulated, and
    not again if one had; the status is [completed].  When the caller
    stops a stream that is active, it has likewise been invoked exactly
    once, with the text accumulated so far unless already fired; the
    abort is not reported as an error: no error callback is invoked, the
    error state is untouched and the status is [completed]. *)
Theorem completion_fires_exactly_once (h0 : Hook) (inputs : list Input) (m : string) :
  abortControllerRef h0 = false ->
  let '(h, phase) := startStream JSON_parse_error h0 inputs in
  (exists new, calls h = calls h0 ++ new /\ completions new <= 1)
  /\ (phase = Reading ->
      let '(h1, p1) := step JSON_parse_error (ReadSettled ReadDone) (h, phase) in
      p1 = Returned
      /\ status h1 = StatusCompleted
      /\ error h1 = error h
      /\ calls h1
         = calls h ++ (if completedRef h then []
                       else [OnComplete (accumulatedMessageRef h)])
      /\ exists new, calls h1 = calls h0 ++ new /\ completions new = 1)
  /\ (abortControllerRef h = true ->
      let '(h2, p2) := run JSON_parse_error (StopStream :: abortRejection phase m) (h, phase) in
      status h2 = StatusCompleted
      /\ error h2 = error h
      /\ calls h2
         = calls h ++ (if completedRef h then []
                       else [OnComplete (accumulatedMessageRef h)])
      /\ exists new, calls h2 = calls h0 ++ new /\ completions new = 1).
Proof.
  intros Hidle.
  pose proof (Signalled_startStream h0 inputs Hidle) as (new & Hcalls & Hcount).
  destruct (startStream JSON_parse_error h0 inputs) as [h phase]. cbn [fst] in Hcalls, Hcount.
  split; [|split].
  - exists new. split; [exact Hcalls|]. destruct (completedRef h); lia.
  - intros ->. unfold step, finallyBlock, completeOnce. cbn.
    destruct (completedRef h) eqn:Hdone; cbn.
    + repeat split; try (now rewrite app_nil_r).
      exists new. split; assumption.
    + repeat split.
      exists (new ++ [OnComplete (accumulatedMessageRef h)]). split.
      * now rewrite Hcalls, app_assoc.
      * rewrite completions_app, Hcount. reflexivity.
  - intros Hactive.
    assert (Hstop :
              stopStream h
              = completeOnce (accumulatedMessageRef h)
                  (setStatus StatusCompleted (setAbortController false h))).
    { unfold stopStream. rewrite Hactive. reflexivity. }
    assert (Hend : exists h2,
               run JSON_parse_error (StopStream :: abortRejection phase m) (h, phase)
               = (h2, match phase with
                      | AwaitingFetch | Reading => Returned
                      | p => p
                      end)
               /\ status h2 = status (stopStream h)
               /\ error h2 = error (stopStream h)
               /\ calls h2 = calls (stopStream h)).
    { rewrite run_cons.
      replace (step JSON_parse_error StopStream (h, phase)) with (stopStream h, phase)
        by (destruct phase; reflexivity).
      destruct phase; cbn; eauto. }
    destruct Hend as (h2 & -> & Hs & He & Hc). rewrite Hs, He, Hc, Hstop.
    unfold completeOnce. cbn.
    destruct (completedRef h) eqn:Hdone; cbn.
    + repeat split; try (now rewrite app_nil_r).
      exists new. split; assumption.
    + repeat split.
      exists (new ++ [OnComplete (accumulatedMessageRef h)]). split.
      * now rewrite Hcalls, app_assoc.
      * rewrite completions_app, Hcount. reflexivity.
Qed.

End Completion.

(** C7, at a stream of two chunks that ends, or is stopped, without a
    terminal event. *)
Lemma completion_fires_exactly_once_witness :
  let opened :=
    ChatStream.startStream SampleClient.noErrorField ChatStream.initial
      (ChatStream.delivered SampleClient.twoChunks) in
  ChatStream.abortControllerRef ChatStream.initial = false
  /\ snd opened = ChatStream.Reading
  /\ ChatStream.abortControllerRef (fst opened) = true
  /\ ChatStream.calls
       (fst (ChatStream.step SampleClient.noErrorField
               (ChatStream.ReadSettled ChatStream.ReadDone) opened))
     = [ChatStream.OnMessageChunk "Hel" "Hel"; ChatStream.OnMessageChunk "lo" "Hello";
        ChatStream.OnComplete "Hello"]
  /\ ChatStream.calls
       (fst (ChatStream.run SampleClient.noErrorField
               [ChatStream.StopStream;
                ChatStream.ReadSettled
                  (ChatStream.ReadRejected (ChatStream.ErrorObject "AbortError" "aborted"))]
               opened))
     = [ChatStream.OnMessageChunk "Hel" "Hel"; ChatStream.OnMessageChunk "lo" "Hello";
        ChatStream.OnComplete "Hello"].
Proof.
  pose proof (completion_fires_exactly_once SampleClient.noErrorField ChatStream.initial
                (ChatStream.delivered SampleClient.twoChunks) "aborted" eq_refl) as H.
  vm_compute in H. destruct H as (_ & Hend & Habort).
  destruct (Hend eq_refl) as (_ & _ & _ & Hcalls1 & _).
  destruct (Habort eq_refl) as (_ & _ & Hcalls2 & _).
  vm_compute. repeat split; assumption.
Defined.

(** ** The wire format, end to end *)

Section Wire.
Import WebChat ChatStream.

Variable JSON_parse_error : string -> Thrown + option string.

(** *** Frames of one line *)

Lemma formatSSE_message (c i : string) :
  Js.singleLine c = true ->
  formatSSE {| data := c; event := EvMessage; id := Some i; retry := None |}
  = "event: message" +:+ Js.nl
    +:+ (if Js.truthy i then ("id: " +:+ i) +:+ Js.nl +:+ (("data: " +:+ c) +:+ Js.nl +:+ Js.nl)
         else ("data: " +:+ c) +:+ Js.nl +:+ Js.nl).
Proof.
  intros Hc. unfold formatSSE. cbn [data event id retry eventName].
  rewrite (split_single_line c Hc). cbn [fold_left].
  change (Js.truthy "message") with true. cbv iota.
  destruct (Js.truthy i); rewrite !append_assoc; reflexivity.
Qed.

Lemma parse_message_frame (c i : string) :
  Js.singleLine c = true -> Js.singleLine i = true -> Js.truthy c = true ->
  parseSSEChunk (formatSSE {| data := c; event := EvMessage; id := Some i; retry := None |})
  = Some ("message", c).
Proof.
  intros Hc Hi Hne. rewrite formatSSE_message by exact Hc.
  unfold parseSSEChunk.
  rewrite (split_first_line "event: message") by reflexivity.
  destruct (Js.truthy i).
  - rewrite (split_first_line ("id: " +:+ i))
      by (rewrite singleLine_app, Hi; reflexivity).
    rewrite (split_first_line ("data: " +:+ c))
      by (rewrite singleLine_app, Hc; reflexivity).
    change (Js.split "010"%char Js.nl) with [EmptyString; EmptyString].
    cbn [fold_left].
    lazy - [Js.truthy]. rewrite Hne. reflexivity.
  - rewrite (split_first_line ("data: " +:+ c))
      by (rewrite singleLine_app, Hc; reflexivity).
    change (Js.split "010"%char Js.nl) with [EmptyString; EmptyString].
    cbn [fold_left].
    lazy - [Js.truthy]. rewrite Hne. reflexivity.
Qed.

Lemma onChunk_message (c i : string) (h : Hook) :
  Js.singleLine c = true -> Js.singleLine i = true -> Js.truthy c = true ->
  onChunk JSON_parse_error
    (formatSSE {| data := c; event := EvMessage; id := Some i; retry := None |}) h
  = inr (received c h).
Proof.
  intros Hc Hi Hne. unfold onChunk. rewrite parse_message_frame by assumption.
  reflexivity.
Qed.

Lemma onChunk_complete (h : Hook) :
  onChunk JSON_parse_error
    (formatSSE {| data := "[DONE]"; event := EvComplete; id := None; retry := None |}) h
  = inr (completeOnce (accumulatedMessageRef h)
           (setConnectionStatus Connected (setStatus StatusCompleted h))).
Proof. reflexivity. Qed.

Lemma step_read_value (t : string) (h : Hook) :
  step JSON_parse_error (ReadSettled (ReadValue t)) (h, Reading)
  = match onChunk JSON_parse_error t h with
    | inr h' => (h', Reading)
    | inl (thrown, h') => (catchBlock thrown (finallyBlock h'), Returned)
    end.
Proof. reflexivity. Qed.

Lemma run_chunk_frames (chunks : list string) :
  forall (n : nat) (h : Hook),
    Forall deliverable chunks ->
    run JSON_parse_error
        (map (fun t => ReadSettled (ReadValue t)) (writes (chunkMessages n chunks)))
        (h, Reading)
    = (fold_left (fun h c => received c h) chunks h, Reading).
Proof.
  induction chunks as [|c chunks IH]; intros n h Hok; [reflexivity|].
  apply Forall_cons in Hok as [[Hc Hne] Hok].
  cbn [chunkMessages writes map fold_left]. rewrite run_cons.
  rewrite step_read_value, onChunk_message by auto using pretty_nat_singleLine.
  apply IH. exact Hok.
Qed.

Lemma received_all (chunks : list string) :
  forall h : Hook,
    let h' := fold_left (fun h c => received c h) chunks h in
    accumulatedMessageRef h' = accumulatedMessageRef h +:+ Js.concat chunks
    /\ calls h' = calls h ++ chunkCalls (accumulatedMessageRef h) chunks
    /\ completedRef h' = completedRef h
    /\ error h' = error h.
Proof.
  induction chunks as [|c chunks IH]; intros h.
  - cbn. now rewrite append_empty_r, app_nil_r.
  - cbn [fold_left]. destruct (IH (received c h)) as (Hacc & Hcalls & Hdone & Herr).
    cbv zeta. rewrite Hacc, Hcalls, Hdone, Herr. cbn [received accumulatedMessageRef calls completedRef error chunkCalls].
    rewrite concat_cons, append_assoc, <- app_assoc. auto.
Qed.

(** Chunks that are not empty and hold no line feed, each frame
    delivered in a read of its own, do come through: the client receives
    them in order, accumulates their concatenation and completes once
    with it. *)
Theorem single_line_chunks_roundtrip (h0 : Hook) (chunks : list string) :
  abortControllerRef h0 = false ->
  Forall deliverable chunks ->
  let '(h, phase) :=
    startStream JSON_parse_error h0
      (delivered (writes (streamOrchestratorResponse chunks)) ++ [ReadSettled ReadDone]) in
  phase = Returned
  /\ status h = StatusCompleted
  /\ error h = None
  /\ accumulatedMessageRef h = Js.concat chunks
  /\ calls h = calls h0 ++ chunkCalls EmptyString chunks ++ [OnComplete (Js.concat chunks)].
Proof.
  intros Hidle Hok. unfold startStream. rewrite Hidle.
  unfold delivered, streamOrchestratorResponse, writes.
  rewrite map_app, map_app, <- !app_assoc.
  cbn [app]. rewrite !run_cons. cbn [step negb].
  rewrite run_app.
  match goal with |- context [run _ _ (?h, Reading)] => set (h1 := h) end.
  pose proof (run_chunk_frames chunks 1 h1 Hok) as Hrun. unfold writes in Hrun.
  rewrite Hrun. clear Hrun.
  destruct (received_all chunks h1) as (Hacc & Hcalls & Hdone & Herr).
  set (h2 := fold_left _ chunks h1) in *.
  cbn [map app]. rewrite !run_cons, step_read_value, onChunk_complete.
  cbn [run fold_left step].
  unfold completeOnce, finallyBlock. cbn.
  rewrite Hdone. cbn. rewrite Hacc, Hcalls, Herr. cbn.
  repeat split. now rewrite <- !app_assoc.
Qed.

(** *** Frames of several lines *)

(** C4.  One chunk holding two lines, encoded by [formatSSE] and
    delivered one frame per read: the frame carries one [data:] line per
    line of the chunk, [parseSSEChunk] keeps the last of them only, and
    the client accumulates and completes with ["World"], not with the
    chunk that was emitted. *)
Theorem multiline_chunk_loses_lines :
  let chunk := "Hello" +:+ Js.nl +:+ "World" in
  let frames := WebChat.writes (WebChat.streamOrchestratorResponse [chunk]) in
  frames
  = ["event: message" +:+ Js.nl +:+ "id: 1" +:+ Js.nl
     +:+ "data: Hello" +:+ Js.nl +:+ "data: World" +:+ Js.nl +:+ Js.nl;
     "event: complete" +:+ Js.nl +:+ "data: [DONE]" +:+ Js.nl +:+ Js.nl]
  /\ map parseSSEChunk frames = [Some ("message", "World"); Some ("complete", "[DONE]")]
  /\ (let '(h, phase) :=
        startStream JSON_parse_error initial
          (delivered frames ++ [ReadSettled ReadDone]) in
      accumulatedMessageRef h = "World"
      /\ calls h = [OnMessageChunk "World" "World"; OnComplete "World"]
      /\ accumulatedMessageRef h <> chunk).
Proof.
  cbv zeta. split; [reflexivity|]. split; [reflexivity|].
  vm_compute. repeat split. discriminate.
Qed.

(** A chunk that ends with a newline is dropped altogether: its last
    [data:] line is empty, and [parseSSEChunk] returns [null]. *)
Lemma trailing_newline_chunk_is_dropped :
  let chunk := "Hello" +:+ Js.nl in
  map parseSSEChunk (WebChat.writes (WebChat.chunkMessages 1 [chunk])) = [None].
Proof. reflexivity. Qed.

(** Chunks without newlines, one frame per read, do come through. *)
Lemma single_line_chunks_come_through :
  let '(h, phase) :=
    startStream JSON_parse_error initial
      (delivered (WebChat.writes (WebChat.streamOrchestratorResponse ["Hel"; "lo"; " Ada"]))
       ++ [ReadSettled ReadDone]) in
  accumulatedMessageRef h = "Hello Ada"
  /\ calls h = [OnMessageChunk "Hel" "Hel"; OnMessageChunk "lo" "Hello";
                OnMessageChunk " Ada" "Hello Ada"; OnComplete "Hello Ada"].
Proof. vm_compute. split; reflexivity. Qed.

End Wire.

(* ================================================================== *)
(** * Further properties of the orchestrator *)
(* ================================================================== *)

Section Unfinished.
Import Assistant.

(** When [processMessageStream] has returned its stream and the stream is
    not read to a normal end - the consumer stops after [k] chunks, leaves
    the loop, or the stream rejects while it is read - the history keeps
    the user turn the call had pushed, with no assistant turn after it:
    the rollback of the [catch] block is out of reach once the call has
    returned. *)
Theorem unfinished_stream_keeps_user_turn
    (sllm : StreamingModel) (this : Orchestrator) (message : string)
    (additionalContext : option string) (cs : list string) (f : option JsError)
    (k : nat) (rest : list ConsumerAction) :
  let turn := {| role := user; content := withContext message additionalContext |} in
  sllm (conversationHistory this ++ [turn]) = Normal {| chunks := cs; failure := f |} ->
  k <= length cs ->
  let s := processMessageStream sllm this message additionalContext in
  exists g,
    completion s = Normal g
    /\ (let '(_, _, this') := consume (replicate k Pull) g (after s) in
        conversationHistory this' = conversationHistory this ++ [turn])
    /\ (let '(_, _, this') := consume (replicate k Pull ++ Leave :: rest) g (after s) in
        conversationHistory this' = conversationHistory this ++ [turn])
    /\ (forall e, f = Some e ->
        exists this',
          forAwait (S (length cs)) g (after s) = Some (cs, Rejected e, this')
          /\ conversationHistory this' = conversationHistory this ++ [turn]).
Proof.
  intros turn Hs Hk s.
  pose proof (processMessageStream_unfold sllm this message additionalContext) as H.
  cbv zeta in H. fold turn in H. rewrite Hs in H. fold s in H.
  destruct H as (_ & Hc & Hh).
  exists (enhancedTextStream {| chunks := cs; failure := f |}).
  split; [exact Hc|].
  unfold enhancedTextStream. split; [|split].
  - destruct (consume_pulls k cs f EmptyString 0 (after s) Hk) as (g' & ->). exact Hh.
  - destruct (consume_then_leave k cs f EmptyString 0 rest (after s) Hk) as (g' & ->).
    exact Hh.
  - intros e ->. exists (after s). split; [|exact Hh].
    now rewrite forAwait_drains.
Qed.

End Unfinished.

Section Composition.
Import Assistant.

(** Neither method touches the configuration, the model handle or the
    registered tools. *)
Lemma processMessage_keeps (w : World) (llm : LanguageModel) (this : Orchestrator)
    (message : string) (additionalContext : option string) :
  let s := processMessage w llm this message additionalContext in
  config (after s) = config this
  /\ delegationTools (after s) = delegationTools this
  /\ model (after s) = model this.
Proof.
  unfold processMessage.
  destruct (toneDirective _ _) as [content log].
  destruct (generateText w llm _ _) as [ev [r|e]]; simpl; auto.
Qed.

Lemma processMessageStream_keeps (sllm : StreamingModel) (this : Orchestrator)
    (message : string) (additionalContext : option string) :
  let s := processMessageStream sllm this message additionalContext in
  config (after s) = config this
  /\ delegationTools (after s) = delegationTools this
  /\ model (after s) = model this.
Proof.
  unfold processMessageStream, streamText, external.
  destruct (sllm _) as [r|e]; simpl; auto.
Qed.

(** The assistant turn of a stream lands at the end of the history as it
    is when the stream ends, not where its user turn is: when a second
    call is made and completes before the stream of the first has been
    read to its end, the history holds the two user turns, then the
    second reply, then the first. *)
Theorem late_stream_commits_after_later_turns
    (w : World) (llm : LanguageModel) (sllm : StreamingModel) (this : Orchestrator)
    (message1 message2 : string) (context1 context2 : option string)
    (cs : list string) (ev : list Event) (r : OrchestratorResponse) :
  let turn1 := {| role := user; content := withContext message1 context1 |} in
  let turn2 :=
    {| role := user;
       content := fst (toneDirective (cfg_toneOfResponse (config this))
                                     (withContext message2 context2)) |} in
  sllm (conversationHistory this ++ [turn1]) = Normal {| chunks := cs; failure := None |} ->
  generateText w llm (conversationHistory this ++ [turn1; turn2]) (delegationTools this)
  = (ev, Normal r) ->
  let s1 := processMessageStream sllm this message1 context1 in
  let s2 := processMessage w llm (after s1) message2 context2 in
  exists g r' this',
    completion s1 = Normal g
    /\ completion s2 = Normal r' /\ text r' = text r
    /\ forAwait (S (length cs)) g (after s2) = Some (cs, Done, this')
    /\ conversationHistory this'
       = conversationHistory this
         ++ [turn1; turn2;
             {| role := assistant; content := text r |};
             {| role := assistant; content := Js.concat cs |}].
Proof.
  intros turn1 turn2 Hstream Hgen s1 s2.
  pose proof (processMessageStream_unfold sllm this message1 context1) as H1.
  cbv zeta in H1. fold turn1 in H1. rewrite Hstream in H1. fold s1 in H1.
  destruct H1 as (_ & Hc1 & Hh1).
  destruct (processMessageStream_keeps sllm this message1 context1) as (Hcfg & Htools & _).
  fold s1 in Hcfg, Htools.
  pose proof (processMessage_unfold w llm (after s1) message2 context2) as H2.
  cbv zeta in H2. rewrite Hcfg, Htools, Hh1 in H2. fold turn2 in H2.
  rewrite <- app_assoc in H2. cbn [app] in H2. rewrite Hgen in H2. cbn [snd] in H2.
  fold s2 in H2. destruct H2 as (_ & (r' & Hc2 & Ht) & Hh2).
  exists (enhancedTextStream {| chunks := cs; failure := None |}), r',
    (push (after s2) {| role := assistant; content := Js.concat cs |}).
  split; [exact Hc1|]. split; [exact Hc2|]. split; [exact Ht|]. split.
  - unfold enhancedTextStream. now rewrite forAwait_drains.
  - rewrite history_push, Hh2, <- !app_assoc. reflexivity.
Qed.

(** After a stream that was not read to its end, the next successful
    call leaves two user turns in a row. *)
Theorem call_after_unfinished_stream
    (w : World) (llm : LanguageModel) (sllm : StreamingModel) (this : Orchestrator)
    (message1 message2 : string) (context1 context2 : option string)
    (result : TextStream) (ev : list Event) (r : OrchestratorResponse) :
  let turn1 := {| role := user; content := withContext message1 context1 |} in
  let turn2 :=
    {| role := user;
       content := fst (toneDirective (cfg_toneOfResponse (config this))
                                     (withContext message2 context2)) |} in
  sllm (conversationHistory this ++ [turn1]) = Normal result ->
  generateText w llm (conversationHistory this ++ [turn1; turn2]) (delegationTools this)
  = (ev, Normal r) ->
  let s1 := processMessageStream sllm this message1 context1 in
  let s2 := processMessage w llm (after s1) message2 context2 in
  conversationHistory (after s2)
  = conversationHistory this
    ++ [turn1; turn2; {| role := assistant; content := text r |}].
Proof.
  intros turn1 turn2 Hstream Hgen s1 s2.
  pose proof (processMessageStream_unfold sllm this message1 context1) as H1.
  cbv zeta in H1. fold turn1 in H1. rewrite Hstream in H1. fold s1 in H1.
  destruct H1 as (_ & _ & Hh1).
  destruct (processMessageStream_keeps sllm this message1 context1) as (Hcfg & Htools & _).
  fold s1 in Hcfg, Htools.
  pose proof (processMessage_unfold w llm (after s1) message2 context2) as H2.
  cbv zeta in H2. rewrite Hcfg, Htools, Hh1 in H2. fold turn2 in H2.
  rewrite <- app_assoc in H2. cbn [app] in H2. rewrite Hgen in H2. cbn [snd] in H2.
  fold s2 in H2. destruct H2 as (_ & _ & Hh2). rewrite Hh2, <- app_assoc. reflexivity.
Qed.

(** [clearHistory] keeps the configuration and the tools and makes the
    history that of a new instance, so any successful calls after it
    give the system turn followed by their pairs; [setHistory] installs
    the given messages without any check, so the calls after it append
    their pairs to them, whatever the first of them is. *)
Theorem history_replaced_then_calls
    (ORCHESTRATOR_SYSTEM_PROMPT : string) (w : World) (this : Orchestrator)
    (messages : list ModelMessage) (calls : list Call) :
  (config (clearHistory ORCHESTRATOR_SYSTEM_PROMPT this) = config this
   /\ delegationTools (clearHistory ORCHESTRATOR_SYSTEM_PROMPT this) = delegationTools this
   /\ forall this',
       session w calls (clearHistory ORCHESTRATOR_SYSTEM_PROMPT this) = Some this' ->
       map role (conversationHistory this') = system :: exchanges (length calls)
       /\ head (conversationHistory this')
          = Some {| role := system; content := ORCHESTRATOR_SYSTEM_PROMPT |})
  /\ (forall this',
        session w calls (setHistory this messages) = Some this' ->
        exists turns,
          conversationHistory this' = messages ++ turns
          /\ map role turns = exchanges (length calls)
          /\ head (conversationHistory this')
             = match messages with
               | m :: _ => Some m
               | [] => head turns
               end).
Proof.
  split; [split; [reflexivity | split; [reflexivity|]]|].
  - intros this' Hs.
    destruct (session_appends_exchanges _ _ _ _ Hs) as (turns & H & Hr).
    cbn [clearHistory conversationHistory] in H. rewrite H. simpl.
    split; [now rewrite Hr | reflexivity].
  - intros this' Hs.
    destruct (session_appends_exchanges _ _ _ _ Hs) as (turns & H & Hr).
    cbn [setHistory conversationHistory] in H.
    exists turns. split; [exact H|]. split; [exact Hr|].
    rewrite H. destruct messages; reflexivity.
Qed.

End Composition.

(** At a stream of three chunks and [k = 1]. *)
Lemma unfinished_stream_keeps_user_turn_witness :
  let this := Assistant.constructor Sample.prompt None Sample.cfg in
  let s := Assistant.processMessageStream (Sample.streamingChunks ["Hel"; "lo "; "Ada"])
             this "hello" None in
  exists g,
    Assistant.completion s = Assistant.Normal g
    /\ (let '(_, _, this') :=
          Assistant.consume (replicate 1 Assistant.Pull ++ Assistant.Leave :: []) g
                            (Assistant.after s) in
        Assistant.conversationHistory this'
        = Assistant.conversationHistory this
          ++ [{| Assistant.role := Assistant.user; Assistant.content := "hello" |}]).
Proof.
  intros this s.
  destruct (unfinished_stream_keeps_user_turn
              (Sample.streamingChunks ["Hel"; "lo "; "Ada"]) this "hello" None
              ["Hel"; "lo "; "Ada"] None 1 [] eq_refl ltac:(simpl; lia))
    as (g & Hc & _ & Hleave & _).
  exists g. split; [exact Hc | exact Hleave].
Defined.

(** At a stream of two chunks overtaken by a buffered call. *)
Lemma late_stream_commits_after_later_turns_witness :
  let this := Assistant.constructor Sample.prompt None Sample.cfg in
  let s1 := Assistant.processMessageStream (Sample.streamingChunks ["Ad"; "a"])
              this "What is my name?" None in
  let s2 := Assistant.processMessage Sample.world (Sample.answering "Noted")
              (Assistant.after s1) "My name is Ada" None in
  exists g this',
    Assistant.completion s1 = Assistant.Normal g
    /\ Assistant.forAwait 3 g (Assistant.after s2) = Some (["Ad"; "a"], Assistant.Done, this')
    /\ map Assistant.role (Assistant.conversationHistory this')
       = [Assistant.system; Assistant.user; Assistant.user;
          Assistant.assistant; Assistant.assistant].
Proof.
  intros this s1 s2.
  destruct (late_stream_commits_after_later_turns Sample.world (Sample.answering "Noted")
              (Sample.streamingChunks ["Ad"; "a"]) this "What is my name?" "My name is Ada"
              None None ["Ad"; "a"] _ (Sample.reply "Noted") eq_refl eq_refl)
    as (g & r' & this' & Hc & _ & _ & Hdrain & Hh).
  exists g, this'. split; [exact Hc|]. split; [exact Hdrain|].
  rewrite Hh. reflexivity.
Defined.

(** At a stream that is never read, followed by a buffered call. *)
Lemma call_after_unfinished_stream_witness :
  let this := Assistant.constructor Sample.prompt None Sample.cfg in
  let s1 := Assistant.processMessageStream (Sample.streamingChunks ["Ad"; "a"])
              this "What is my name?" None in
  let s2 := Assistant.processMessage Sample.world (Sample.answering "Noted")
              (Assistant.after s1) "My name is Ada" None in
  map Assistant.role (Assistant.conversationHistory (Assistant.after s2))
  = [Assistant.system; Assistant.user; Assistant.user; Assistant.assistant].
Proof.
  intros this s1 s2. subst s1 s2.
  rewrite (call_after_unfinished_stream Sample.world (Sample.answering "Noted")
             (Sample.streamingChunks ["Ad"; "a"]) this "What is my name?" "My name is Ada"
             None None _ _ (Sample.reply "Noted") eq_refl eq_refl).
  reflexivity.
Defined.

(** At an instance whose history is emptied before one buffered call. *)
Lemma history_replaced_then_calls_witness :
  let this := Assistant.constructor Sample.prompt None Sample.cfg in
  exists this',
    Assistant.session Sample.world
      [Assistant.Buffered (Sample.answering "Hi") "hello" None]
      (Assistant.setHistory this []) = Some this'
    /\ map Assistant.role (Assistant.conversationHistory this')
       = [Assistant.user; Assistant.assistant].
Proof.
  intros this. eexists. split; [reflexivity|].
  destruct (history_replaced_then_calls Sample.prompt Sample.world this []
              [Assistant.Buffered (Sample.answering "Hi") "hello" None]) as [_ H].
  destruct (H _ eq_refl) as (turns & Hh & Hr & _).
  rewrite Hh. simpl. exact Hr.
Defined.

(* ================================================================== *)
(** * Further properties of the delegation tools *)
(* ================================================================== *)

Section ToolOutcomes.
Import Assistant.

Variable userId key : string.

(** Whatever function resolves connections. *)
Variable getConnectionId : World -> string -> Eff (option string).

(** The Gmail tool, outcome by outcome.  Without a connection id it
    answers the fixed [{ error }].  With one it asks Composio for the
    'gmail' toolkit and runs the sub-agent on the prompt
    "You are a Gmail assistant. <task>": the sub-agent's text comes back
    as [{ result }]; a failure of Composio comes back as [{ error }]
    with the prefix "Gmail task failed: " and the sub-agent is not run;
    a failure of the sub-agent comes back the same way.  The value of
    the connection id plays no part. *)
Theorem delegate_to_gmail_outcomes (w : World) (task : string) (ev0 : list Event)
    (connection : option string) :
  getConnectionId w "gmail" = (ev0, Normal connection) ->
  let tool := delegate_to_gmail (createDelegationTools userId key getConnectionId) in
  let fetch := ComposioToolsGet key userId ["gmail"] in
  let prompt := "You are a Gmail assistant. " +:+ task in
  if noConnection connection then
    execute tool w task = (ev0, Normal (ErrorOutput gmailNotConnected))
  else
    match composio_tools_get w key userId ["gmail"] with
    | Throw e =>
        execute tool w task
        = (ev0 ++ [fetch], Normal (ErrorOutput ("Gmail task failed: " +:+ message e)))
    | Normal ts =>
        match subagent_generateText w haiku ts prompt with
        | Normal t =>
            execute tool w task
            = (ev0 ++ [fetch; SubAgentGenerateText haiku ts prompt], Normal (ResultOutput t))
        | Throw e =>
            execute tool w task
            = (ev0 ++ [fetch; SubAgentGenerateText haiku ts prompt],
               Normal (ErrorOutput ("Gmail task failed: " +:+ message e)))
        end
    end.
Proof.
  intros Hget tool fetch prompt. subst tool fetch prompt.
  cbn [createDelegationTools delegate_to_gmail execute]. rewrite Hget, bind_normal.
  cbv beta. destruct (noConnection connection).
  - unfold ret. now rewrite app_nil_r.
  - unfold createGmailAgent, executeGmailTask, tryCatch, bind, external, ret.
    destruct (composio_tools_get w key userId ["gmail"]) as [ts|e]; simpl.
    + destruct (subagent_generateText w haiku ts ("You are a Gmail assistant. " +:+ task));
        reflexivity.
    + reflexivity.
Qed.

(** The Calendar tool, outcome by outcome: as the Gmail tool, with the
    connector 'google_calendar', the toolkit 'googlecalendar', the
    prompt "You are a Google Calendar assistant. <task>" and the prefix
    "Calendar task failed: ". *)
Theorem delegate_to_calendar_outcomes (w : World) (task : string) (ev0 : list Event)
    (connection : option string) :
  getConnectionId w "google_calendar" = (ev0, Normal connection) ->
  let tool := delegate_to_calendar (createDelegationTools userId key getConnectionId) in
  let fetch := ComposioToolsGet key userId ["googlecalendar"] in
  let prompt := "You are a Google Calendar assistant. " +:+ task in
  if noConnection connection then
    execute tool w task = (ev0, Normal (ErrorOutput calendarNotConnected))
  else
    match composio_tools_get w key userId ["googlecalendar"] with
    | Throw e =>
        execute tool w task
        = (ev0 ++ [fetch], Normal (ErrorOutput ("Calendar task failed: " +:+ message e)))
    | Normal ts =>
        match subagent_generateText w haiku ts prompt with
        | Normal t =>
            execute tool w task
            = (ev0 ++ [fetch; SubAgentGenerateText haiku ts prompt], Normal (ResultOutput t))
        | Throw e =>
            execute tool w task
            = (ev0 ++ [fetch; SubAgentGenerateText haiku ts prompt],
               Normal (ErrorOutput ("Calendar task failed: " +:+ message e)))
        end
    end.
Proof.
  intros Hget tool fetch prompt. subst tool fetch prompt.
  cbn [createDelegationTools delegate_to_calendar execute]. rewrite Hget, bind_normal.
  cbv beta. destruct (noConnection connection).
  - unfold ret. now rewrite app_nil_r.
  - unfold createCalendarAgent, executeCalendarTask, tryCatch, bind, external, ret.
    destruct (composio_tools_get w key userId ["googlecalendar"]) as [ts|e]; simpl.
    + destruct (subagent_generateText w haiku ts
                  ("You are a Google Calendar assistant. " +:+ task)); reflexivity.
    + reflexivity.
Qed.

(** [createDelegationTools] awaits [getConnectionId] outside its [try]:
    when the function it is given rejects, the tool rejects with the
    same error instead of answering [{ error }], and nothing else is
    done. *)
Theorem rejecting_getConnectionId_escapes (w : World) (task : string) (ev0 : list Event)
    (e : JsError) :
  let tools := createDelegationTools userId key getConnectionId in
  (getConnectionId w "gmail" = (ev0, Throw e) ->
   execute (delegate_to_gmail tools) w task = (ev0, Throw e))
  /\ (getConnectionId w "google_calendar" = (ev0, Throw e) ->
      execute (delegate_to_calendar tools) w task = (ev0, Throw e)).
Proof.
  split; intros Hget; cbn [createDelegationTools delegate_to_gmail delegate_to_calendar execute];
    now rewrite Hget.
Qed.

End ToolOutcomes.

(** At the sample world, with the fallback id resolved: the sub-agent's
    text comes back. *)
Lemma delegate_to_gmail_outcomes_witness :
  let this_config :=
    Assistant.config (Assistant.constructor Sample.prompt None Sample.withFallback) in
  Assistant.execute
    (Assistant.delegate_to_gmail
       (Assistant.createDelegationTools "u1" "composio-key"
          (Assistant.getConnectionId this_config)))
    Sample.world "Search emails from today"
  = ([Assistant.GetIntegration "u1" "gmail";
      Assistant.ComposioToolsGet "composio-key" "u1" ["gmail"];
      Assistant.SubAgentGenerateText Assistant.haiku
        [{| Assistant.slug := "gmail_TOOL"; Assistant.toolkit := "gmail" |}]
        "You are a Gmail assistant. Search emails from today"],
     Assistant.Normal (Assistant.ResultOutput "3 emails today")).
Proof.
  intros this_config.
  exact (delegate_to_gmail_outcomes "u1" "composio-key"
           (Assistant.getConnectionId this_config) Sample.world "Search emails from today"
           [Assistant.GetIntegration "u1" "gmail"] (Some "conn_dev") eq_refl).
Defined.

(** At the sample world, without a fallback: the fixed error. *)
Lemma delegate_to_calendar_outcomes_witness :
  let this_config :=
    Assistant.config (Assistant.constructor Sample.prompt None Sample.withFallback) in
  Assistant.execute
    (Assistant.delegate_to_calendar
       (Assistant.createDelegationTools "u1" "composio-key"
          (Assistant.getConnectionId this_config)))
    Sample.world "Show my schedule"
  = ([Assistant.GetIntegration "u1" "google_calendar"],
     Assistant.Normal (Assistant.ErrorOutput Assistant.calendarNotConnected)).
Proof.
  intros this_config.
  exact (delegate_to_calendar_outcomes "u1" "composio-key"
           (Assistant.getConnectionId this_config) Sample.world "Show my schedule"
           [Assistant.GetIntegration "u1" "google_calendar"] None eq_refl).
Defined.

(** At a resolver that always rejects. *)
Lemma rejecting_getConnectionId_escapes_witness :
  let rejecting : Assistant.World -> string -> Assistant.Eff (option string) :=
    fun _ _ => ([], Assistant.Throw Sample.boom) in
  Assistant.execute
    (Assistant.delegate_to_gmail (Assistant.createDelegationTools "u1" "composio-key" rejecting))
    Sample.world "task"
  = ([], Assistant.Throw Sample.boom).
Proof.
  intros rejecting.
  destruct (rejecting_getConnectionId_escapes "u1" "composio-key" rejecting Sample.world
              "task" [] Sample.boom) as [H _].
  apply H. reflexivity.
Defined.

Section ComposioToolsProperties.
Import Assistant ComposioTools.

Variable listIntegrations : string -> Completion (option (list Integration)).

Lemma mappedToolkits_spec (xs : list Integration) (tk : string) :
  In tk (mappedToolkits xs)
  <-> exists i, In i xs /\ appMap (connectorName i) = Some tk.
Proof.
  induction xs as [|i xs IH]; simpl.
  - split; [intros [] | intros (i & [] & _)].
  - destruct (appMap (connectorName i)) as [tk'|] eqn:Hi.
    + assert (Htruthy : Js.truthy tk' = true)
        by (destruct (connectorName i); inversion Hi; reflexivity).
      rewrite Htruthy. simpl. rewrite IH. split.
      * intros [-> | (j & Hj & Hm)]; [exists i; auto | exists j; auto].
      * intros (j & [-> | Hj] & Hm); [left; congruence | right; eauto].
    + rewrite IH. split.
      * intros (j & Hj & Hm). exists j; auto.
      * intros (j & [-> | Hj] & Hm); [congruence | eauto].
Qed.

(** When the listing succeeds, [createComposioTools] never throws: a
    failure of Composio gives the empty tool set.  Composio is asked at
    most once, for the toolkits of the integrations that are active and
    mapped - 'gmail' for gmail, 'googlecalendar' for google_calendar,
    none for splitwise - and never with an empty list: when no such
    integration exists the empty tool set is returned without asking. *)
Theorem createComposioTools_asks_for_active_toolkits
    (w : World) (userId composioApiKey : string) (listed : option (list Integration)) :
  listIntegrations userId = Normal listed ->
  let integrations := match listed with Some l => l | None => [] end in
  let '(trace, r) := createComposioTools listIntegrations w userId composioApiKey in
  (exists tools, r = Normal tools)
  /\ (trace = [ListIntegrations userId]
      \/ exists toolkits,
          trace = [ListIntegrations userId; ToolsGet composioApiKey userId toolkits]
          /\ toolkits <> []
          /\ forall tk,
              In tk toolkits
              <-> exists i, In i integrations
                            /\ connectionStatus i = "active"
                            /\ appMap (connectorName i) = Some tk)
  /\ ((forall i, In i integrations ->
         connectionStatus i = "active" -> appMap (connectorName i) = None) ->
      trace = [ListIntegrations userId] /\ r = Normal []).
Proof.
  intros Hlist integrations. unfold createComposioTools. rewrite Hlist.
  set (active := match listed with Some l => List.filter isActive l | None => [] end).
  assert (Hactive : forall i, In i active
                              <-> In i integrations /\ connectionStatus i = "active").
  { intros i. subst active integrations. destruct listed as [l|]; simpl.
    - rewrite List.filter_In. unfold isActive.
      split; intros [H1 H2]; (split; [exact H1|]); now apply String.eqb_eq.
    - tauto. }
  assert (Hmapped : forall tk,
             In tk (mappedToolkits active)
             <-> exists i, In i integrations /\ connectionStatus i = "active"
                           /\ appMap (connectorName i) = Some tk).
  { intros tk. rewrite mappedToolkits_spec. split.
    - intros (i & Hi & Hm). apply Hactive in Hi as [H1 H2]. eauto.
    - intros (i & H1 & H2 & Hm). exists i. split; [apply Hactive; auto | exact Hm]. }
  destruct (Nat.eqb (length active) 0) eqn:Hlen.
  - split; [eauto|]. split; [left; reflexivity|]. auto.
  - destruct (mappedToolkits active) as [|tk tks] eqn:Htks; simpl.
    + split; [eauto|]. split; [left; reflexivity|]. auto.
    + assert (Hnone : ~ (forall i, In i integrations ->
                           connectionStatus i = "active" ->
                           appMap (connectorName i) = None)).
      { intros Hno. destruct (proj1 (Hmapped tk) (or_introl eq_refl))
          as (i & H1 & H2 & Hm).
        rewrite (Hno i H1 H2) in Hm. discriminate. }
      destruct (composio_tools_get w composioApiKey userId (tk :: tks)) as [tools|e];
        (split; [eauto|]); (split; [|intros Hno; now destruct Hnone]);
        right; exists (tk :: tks); (split; [reflexivity|]);
        (split; [discriminate | exact Hmapped]).
Qed.

(** A failure of the listing is not caught: it is what the caller gets,
    and Composio is not asked. *)
Theorem createComposioTools_listing_failure
    (w : World) (userId composioApiKey : string) (e : JsError) :
  listIntegrations userId = Throw e ->
  createComposioTools listIntegrations w userId composioApiKey
  = ([ListIntegrations userId], Throw e).
Proof. intros H. unfold createComposioTools. now rewrite H. Qed.

End ComposioToolsProperties.

(** At a user with an active Gmail, an inactive Calendar and an active
    Splitwise integration: Composio is asked for 'gmail' alone. *)
Lemma createComposioTools_asks_for_active_toolkits_witness :
  let listing : string -> Assistant.Completion (option (list ComposioTools.Integration)) :=
    fun _ =>
      Assistant.Normal
        (Some [{| ComposioTools.connectorName := ComposioTools.gmail;
                  ComposioTools.connectionStatus := "active" |};
               {| ComposioTools.connectorName := ComposioTools.google_calendar;
                  ComposioTools.connectionStatus := "inactive" |};
               {| ComposioTools.connectorName := ComposioTools.splitwise;
                  ComposioTools.connectionStatus := "active" |}]) in
  fst (ComposioTools.createComposioTools listing Sample.world "u1" "composio-key")
  = [ComposioTools.ListIntegrations "u1";
     ComposioTools.ToolsGet "composio-key" "u1" ["gmail"]].
Proof.
  intros listing.
  pose proof (createComposioTools_asks_for_active_toolkits listing Sample.world "u1"
                "composio-key" _ eq_refl) as H.
  vm_compute in H. vm_compute. destruct H as (_ & [H | (tks & H & _)] & _).
  - discriminate H.
  - reflexivity.
Defined.

(** At a listing that fails. *)
Lemma createComposioTools_listing_failure_witness :
  ComposioTools.createComposioTools (fun _ => Assistant.Throw Sample.boom)
    Sample.world "u1" "composio-key"
  = ([ComposioTools.ListIntegrations "u1"], Assistant.Throw Sample.boom).
Proof.
  exact (createComposioTools_listing_failure (fun _ => Assistant.Throw Sample.boom)
           Sample.world "u1" "composio-key" Sample.boom eq_refl).
Defined.

(* ================================================================== *)
(** * Further properties of the wire format *)
(* ================================================================== *)

Section SplitJoin.

Variable sep : ascii.

Lemma split_cons_sep (s : string) :
  Js.split sep (String sep s) = EmptyString :: Js.split sep s.
Proof. simpl. now rewrite Ascii.eqb_refl. Qed.

Lemma split_cons_no_sep (c : ascii) (s : string) :
  Ascii.eqb c sep = false ->
  Js.split sep (String c s)
  = match Js.split sep s with
    | h :: t => String c h :: t
    | [] => [String c EmptyString]
    end.
Proof. intros H. simpl. now rewrite H. Qed.

Lemma split_not_nil (s : string) : Js.split sep s <> [].
Proof.
  induction s as [|c s IH]; [discriminate|]. simpl.
  destruct (Ascii.eqb c sep); [discriminate|].
  destruct (Js.split sep s); [contradiction | discriminate].
Qed.

Lemma split_before_sep (a rest : string) :
  Js.lacks sep a = true ->
  Js.split sep (a +:+ String sep rest) = a :: Js.split sep rest.
Proof.
  induction a as [|c a IH]; intros Ha.
  - apply split_cons_sep.
  - simpl in Ha. apply andb_true_iff in Ha as [Hc Ha]. apply negb_true_iff in Hc.
    rewrite append_cons, split_cons_no_sep by exact Hc. now rewrite IH.
Qed.

Lemma split_lacking (a : string) :
  Js.lacks sep a = true -> Js.split sep a = [a].
Proof.
  induction a as [|c a IH]; intros Ha; [reflexivity|].
  simpl in Ha. apply andb_true_iff in Ha as [Hc Ha]. apply negb_true_iff in Hc.
  rewrite split_cons_no_sep by exact Hc. now rewrite IH.
Qed.

(** No part of a split holds the separator. *)
Lemma split_parts_lack (s : string) :
  Forall (fun p => Js.lacks sep p = true) (Js.split sep s).
Proof.
  induction s as [|c s IH]; [repeat constructor|].
  simpl. destruct (Ascii.eqb c sep) eqn:Hc.
  - constructor; [reflexivity | exact IH].
  - destruct (Js.split sep s) as [|h t]; [repeat constructor; simpl; now rewrite Hc|].
    apply Forall_cons in IH as [Hh Ht].
    constructor; [simpl; now rewrite Hc, Hh | exact Ht].
Qed.

(** Joining what was split gives the string back. *)
Lemma join_split (s : string) :
  Js.join (String sep EmptyString) (Js.split sep s) = s.
Proof.
  induction s as [|c s IH]; [reflexivity|].
  simpl Js.split. destruct (Ascii.eqb_spec c sep) as [-> | Hc].
  - pose proof (split_not_nil s) as Hne.
    destruct (Js.split sep s) as [|h t]; [contradiction|].
    cbn [Js.join]. cbn [Js.join] in IH. now rewrite IH.
  - pose proof (split_not_nil s) as Hne.
    destruct (Js.split sep s) as [|h t]; [contradiction|].
    destruct t as [|h' t]; cbn [Js.join] in *; now rewrite <- IH.
Qed.

(** A string splits in two exactly when it holds the separator once. *)
Lemma split_in_two (s a b : string) :
  Js.split sep s = [a; b]
  <-> s = a +:+ String sep b /\ Js.lacks sep a = true /\ Js.lacks sep b = true.
Proof.
  split.
  - intros H. pose proof (join_split s) as Hj. pose proof (split_parts_lack s) as Hl.
    rewrite H in Hj, Hl. cbn [Js.join] in Hj.
    apply Forall_cons in Hl as [Ha Hl]. apply Forall_cons in Hl as [Hb _].
    split; [symmetry; exact Hj | auto].
  - intros (-> & Ha & Hb). rewrite split_before_sep by exact Ha.
    now rewrite split_lacking.
Qed.

End SplitJoin.

Lemma singleLine_lacks (s : string) : Js.singleLine s = Js.lacks "010"%char s.
Proof. induction s as [|c s IH]; [reflexivity|]. simpl. now rewrite IH. Qed.

Lemma lowerUnit_space (c : ascii) :
  Ascii.eqb (Js.lowerUnit c) " "%char = Ascii.eqb c " "%char.
Proof. destruct c as [[] [] [] [] [] [] [] []]; reflexivity. Qed.

Lemma toLowerCase_lacks_space (s : string) :
  Js.lacks " "%char (Js.toLowerCase s) = Js.lacks " "%char s.
Proof.
  induction s as [|c s IH]; [reflexivity|]. simpl. now rewrite lowerUnit_space, IH.
Qed.

Section FrameLines.
Import WebChat ChatStream Wire.

Lemma unlines_cons (l : string) (lines : list string) :
  unlines (l :: lines) = l +:+ Js.nl +:+ unlines lines.
Proof. unfold unlines. simpl. now rewrite append_assoc. Qed.

Lemma unlines_app (a b : list string) : unlines (a ++ b) = unlines a +:+ unlines b.
Proof.
  induction a as [|l a IH]; [reflexivity|].
  cbn [app]. now rewrite !unlines_cons, IH, !append_assoc.
Qed.

Lemma split_unlines (lines : list string) (rest : string) :
  Forall (fun l => Js.singleLine l = true) lines ->
  Js.split "010"%char (unlines lines +:+ rest) = lines ++ Js.split "010"%char rest.
Proof.
  induction lines as [|l lines IH]; intros H; [reflexivity|].
  apply Forall_cons in H as [Hl H].
  rewrite unlines_cons, !append_assoc, split_first_line by exact Hl.
  now rewrite IH.
Qed.

Lemma fold_data_lines (lines : list string) :
  forall out : string,
    fold_left (fun output line => output +:+ "data: " +:+ line +:+ Js.nl) lines out
    = out +:+ unlines (map (fun line => "data: " +:+ line) lines).
Proof.
  induction lines as [|l lines IH]; intros out.
  - cbn. now rewrite append_empty_r.
  - cbn [fold_left map]. rewrite IH, unlines_cons, !append_assoc. reflexivity.
Qed.

(** A frame is its header lines and its data lines, each followed by a
    line feed, and one more line feed. *)
Lemma formatSSE_unlines (m : SSEMessage) :
  formatSSE m = unlines (headerLines m ++ dataLines m) +:+ Js.nl.
Proof.
  unfold formatSSE. rewrite fold_data_lines. fold (dataLines m).
  rewrite unlines_app. unfold headerLines.
  destruct (Js.truthy (eventName (event m)));
    destruct (id m) as [i|]; try destruct (Js.truthy i);
    destruct (retry m) as [r|]; try destruct (N.eqb r 0);
    cbn [app]; rewrite ?unlines_cons; unfold unlines at 1; cbn [map Js.concat fold_right];
    rewrite ?append_assoc, ?append_empty_r; reflexivity.
Qed.

Lemma eventName_singleLine (e : ServerSentEvent) : Js.singleLine (eventName e) = true.
Proof. destruct e; reflexivity. Qed.

Lemma pretty_N_singleLine (r : N) : Js.singleLine (pretty r) = true.
Proof.
  unfold pretty, pretty_N. case_decide; [reflexivity|]. now apply pretty_N_go_singleLine.
Qed.

Lemma headerLines_singleLine (m : SSEMessage) :
  singleLineId m -> Forall (fun l => Js.singleLine l = true) (headerLines m).
Proof.
  intros Hid. unfold headerLines, singleLineId in *.
  repeat apply Forall_app_2.
  - destruct (Js.truthy _); repeat constructor.
    rewrite singleLine_app, eventName_singleLine. reflexivity.
  - destruct (id m) as [i|]; [|constructor].
    destruct (Js.truthy i); repeat constructor. rewrite singleLine_app, Hid. reflexivity.
  - destruct (retry m) as [r|]; [|constructor].
    destruct (N.eqb r 0); repeat constructor.
    rewrite singleLine_app, pretty_N_singleLine. reflexivity.
Qed.

Lemma split_singleLine (s : string) :
  Forall (fun l => Js.singleLine l = true) (Js.split "010"%char s).
Proof.
  eapply Forall_impl; [apply split_parts_lack|].
  intros l Hl. now rewrite singleLine_lacks.
Qed.

Lemma dataLines_singleLine (m : SSEMessage) :
  Forall (fun l => Js.singleLine l = true) (dataLines m).
Proof.
  unfold dataLines. apply Forall_map.
  eapply Forall_impl; [apply split_singleLine|].
  intros l Hl. cbn. rewrite singleLine_app, Hl. reflexivity.
Qed.

(** The lines of a frame: the header lines, the data lines, and the two
    empty strings the closing line feeds leave. *)
Lemma split_formatSSE (m : SSEMessage) :
  singleLineId m ->
  Js.split "010"%char (formatSSE m)
  = headerLines m ++ dataLines m ++ [EmptyString; EmptyString].
Proof.
  intros Hid. rewrite formatSSE_unlines, split_unlines.
  - now rewrite <- app_assoc.
  - apply Forall_app_2; [now apply headerLines_singleLine | apply dataLines_singleLine].
Qed.

(** [formatSSE] writes a frame whose lines are the header lines, then
    one [data:] line for each line of the payload (at least one), then
    the empty line that closes the frame; no line before the closing one
    is empty, so the frame holds no frame boundary inside. *)
Theorem frame_lines (m : SSEMessage) :
  singleLineId m ->
  Js.split "010"%char (formatSSE m)
  = headerLines m ++ dataLines m ++ [EmptyString; EmptyString]
  /\ Forall (fun l => l <> EmptyString) (headerLines m ++ dataLines m)
  /\ length (dataLines m) = length (Js.split "010"%char (data m))
  /\ 1 <= length (dataLines m).
Proof.
  intros Hid. split; [|split; [|split]].
  - now apply split_formatSSE.
  - apply Forall_app_2.
    + unfold headerLines.
      repeat apply Forall_app_2.
      * destruct (Js.truthy _); repeat constructor. discriminate.
      * destruct (id m) as [i|]; [|constructor].
        destruct (Js.truthy i); repeat constructor. discriminate.
      * destruct (retry m) as [r|]; [|constructor].
        destruct (N.eqb r 0); repeat constructor. discriminate.
    + unfold dataLines. apply Forall_map, Forall_forall. intros l _. discriminate.
  - unfold dataLines. apply length_map.
  - unfold dataLines. rewrite length_map.
    pose proof (split_not_nil "010"%char (data m)).
    destruct (Js.split "010"%char (data m)); [contradiction | simpl; lia].
Qed.

End FrameLines.

Section Decode.
Import WebChat ChatStream Wire.

(** The body of the loop of [parseSSEChunk]. *)
Local Abbreviation scan :=
  (fun '(event, data) line =>
     if Js.startsWith "event: " line then (Js.trim (Js.slice 7 line), data)
     else if Js.startsWith "data: " line then (event, Js.slice 6 line)
     else (event, data)).

Lemma parseSSEChunk_fold (chunk : string) :
  parseSSEChunk chunk
  = let '(event, data) :=
      fold_left scan (Js.split "010"%char chunk) ("message", EmptyString) in
    if Js.truthy data then Some (event, data) else None.
Proof. reflexivity. Qed.

Lemma scan_header (m : SSEMessage) (e0 d0 : string) :
  fold_left scan (headerLines m) (e0, d0) = (eventName (event m), d0).
Proof.
  unfold headerLines.
  assert (He : fold_left scan
                 (if Js.truthy (eventName (event m))
                  then ["event: " +:+ eventName (event m)] else []) (e0, d0)
               = (eventName (event m), d0)) by (destruct (event m); reflexivity).
  rewrite !fold_left_app, He.
  destruct (id m) as [i|]; [destruct (Js.truthy i)|];
    (destruct (retry m) as [r|]; [destruct (N.eqb r 0)|]); reflexivity.
Qed.

Lemma last_default {A} (l : list A) (d d' : A) : l <> [] -> List.last l d = List.last l d'.
Proof.
  induction l as [|a l IH]; [contradiction|]. intros _.
  destruct l as [|b l]; [reflexivity|]. cbn [List.last] in *. apply IH. discriminate.
Qed.

Lemma fold_left_step {A B} (f : A -> B -> A) (x : B) (xs : list B) (a : A) :
  fold_left f (x :: xs) a = fold_left f xs (f a x).
Proof. reflexivity. Qed.

Lemma scan_data (lines : list string) :
  forall e d0 : string,
    fold_left scan (map (fun line => "data: " +:+ line) lines) (e, d0)
    = (e, List.last lines d0).
Proof.
  induction lines as [|l lines IH]; intros e d0; [reflexivity|].
  cbn [map]. rewrite fold_left_step.
  replace (scan (e, d0) ("data: " +:+ l)) with (e, l) by reflexivity.
  rewrite IH. destruct lines as [|l' lines]; [reflexivity|].
  f_equal. change (List.last (l :: l' :: lines) d0) with (List.last (l' :: lines) d0).
  apply last_default. discriminate.
Qed.

(** Scanning the lines of a frame leaves the frame's event and the last
    line of its payload, whatever was scanned before. *)
Lemma scan_frame (m : SSEMessage) (e0 d0 : string) :
  fold_left scan (headerLines m ++ dataLines m ++ [EmptyString; EmptyString]) (e0, d0)
  = (eventName (event m), Js.lastLine (data m)).
Proof.
  rewrite !fold_left_app, scan_header. unfold dataLines. rewrite scan_data.
  cbn [fold_left]. unfold Js.lastLine.
  rewrite (last_default _ d0 EmptyString) by apply split_not_nil. reflexivity.
Qed.

Lemma parse_frame (m : SSEMessage) :
  singleLineId m ->
  parseSSEChunk (formatSSE m)
  = if Js.truthy (Js.lastLine (data m))
    then Some (eventName (event m), Js.lastLine (data m))
    else None.
Proof.
  intros Hid. rewrite parseSSEChunk_fold, split_formatSSE by exact Hid.
  now rewrite scan_frame.
Qed.

Lemma lastLine_singleLine (c : string) : Js.singleLine c = true -> Js.lastLine c = c.
Proof. intros H. unfold Js.lastLine. now rewrite split_single_line. Qed.

Lemma split_app_sep (sep : ascii) (a b : string) :
  Js.split sep (a +:+ String sep b) = Js.split sep a ++ Js.split sep b.
Proof.
  induction a as [|x a IH].
  - rewrite append_empty_l. simpl. now rewrite Ascii.eqb_refl.
  - rewrite append_cons. simpl. rewrite IH.
    destruct (Ascii.eqb x sep); [reflexivity|].
    pose proof (split_not_nil sep a) as Hne.
    destruct (Js.split sep a) as [|h t]; [contradiction | reflexivity].
Qed.

Lemma last_app_nonempty {A} (l1 l2 : list A) (d : A) :
  l2 <> [] -> List.last (l1 ++ l2) d = List.last l2 d.
Proof.
  intros Hne. induction l1 as [|x l1 IH]; [reflexivity|].
  cbn [app]. destruct (l1 ++ l2) eqn:E; [|exact IH].
  apply app_eq_nil in E as [_ E]. contradiction.
Qed.

(** Only what follows the last line feed is the last line. *)
Lemma lastLine_after_newline (a b : string) :
  Js.lastLine (a +:+ Js.nl +:+ b) = Js.lastLine b.
Proof.
  unfold Js.lastLine, Js.nl. rewrite append_cons, append_empty_l, split_app_sep.
  apply last_app_nonempty, split_not_nil.
Qed.

Lemma lastLine_trailing (c : string) : Js.lastLine (c +:+ Js.nl) = EmptyString.
Proof.
  rewrite <- (append_empty_r (c +:+ Js.nl)), append_assoc.
  now rewrite lastLine_after_newline.
Qed.

(** [parseSSEChunk] reads a frame of [formatSSE] back as the frame's
    event and the last line of its payload, and as nothing when that line
    is empty.  So a payload of one non-empty line comes back whole, of a
    payload of several lines only what follows the last line feed comes
    back, and a payload that ends with a line feed is dropped. *)
Theorem decoder_keeps_last_line (m : SSEMessage) :
  singleLineId m ->
  parseSSEChunk (formatSSE m)
  = (if Js.truthy (Js.lastLine (data m))
     then Some (eventName (event m), Js.lastLine (data m))
     else None)
  /\ (deliverable (data m) ->
      parseSSEChunk (formatSSE m) = Some (eventName (event m), data m))
  /\ (forall a b, data m = a +:+ Js.nl +:+ b -> deliverable b ->
      parseSSEChunk (formatSSE m) = Some (eventName (event m), b))
  /\ (forall a, data m = a +:+ Js.nl -> parseSSEChunk (formatSSE m) = None).
Proof.
  intros Hid. rewrite parse_frame by exact Hid. repeat split.
  - intros [Hl Hne]. now rewrite lastLine_singleLine, Hne.
  - intros a b -> [Hl Hne]. now rewrite lastLine_after_newline, lastLine_singleLine, Hne.
  - intros a ->. now rewrite lastLine_trailing.
Qed.

Lemma parse_coalesced (m1 m2 : SSEMessage) :
  singleLineId m1 -> singleLineId m2 ->
  parseSSEChunk (formatSSE m1 +:+ formatSSE m2) = parseSSEChunk (formatSSE m2).
Proof.
  intros H1 H2. rewrite !parseSSEChunk_fold.
  rewrite (split_formatSSE m2 H2).
  rewrite (formatSSE_unlines m1).
  replace (unlines (headerLines m1 ++ dataLines m1) +:+ Js.nl)
    with (unlines ((headerLines m1 ++ dataLines m1) ++ [EmptyString]))
    by (rewrite unlines_app, unlines_cons; reflexivity).
  rewrite split_unlines.
  - rewrite (split_formatSSE m2 H2), fold_left_app.
    destruct (fold_left scan _ ("message", EmptyString)) as [e0 d0].
    now rewrite !scan_frame.
  - apply Forall_app_2;
      [apply Forall_app_2; [now apply headerLines_singleLine | apply dataLines_singleLine]
      | repeat constructor].
Qed.

(** Two frames that arrive in one read are decoded as the second one
    alone: the first frame's event and payload are overwritten, and the
    read loop does with the two what it does with the second. *)
Theorem coalesced_frames_keep_the_last (m1 m2 : SSEMessage) :
  singleLineId m1 -> singleLineId m2 ->
  parseSSEChunk (formatSSE m1 +:+ formatSSE m2) = parseSSEChunk (formatSSE m2)
  /\ forall (JSON_parse_error : string -> Thrown + option string) (h : Hook) (phase : Phase),
       step JSON_parse_error (ReadSettled (ReadValue (formatSSE m1 +:+ formatSSE m2))) (h, phase)
       = step JSON_parse_error (ReadSettled (ReadValue (formatSSE m2))) (h, phase).
Proof.
  intros H1 H2. pose proof (parse_coalesced m1 m2 H1 H2) as H. split; [exact H|].
  intros J h phase. destruct phase; try reflexivity.
  cbn [step]. unfold onChunk. now rewrite H.
Qed.

End Decode.

(** At a frame with every header line and a payload of two lines. *)
Lemma frame_lines_witness :
  let m := {| WebChat.data := "a" +:+ Js.nl +:+ "b"; WebChat.event := WebChat.EvMessage;
              WebChat.id := Some "7"; WebChat.retry := Some 3000%N |} in
  Js.split "010"%char (WebChat.formatSSE m)
  = ["event: message"; "id: 7"; "retry: 3000"; "data: a"; "data: b";
     EmptyString; EmptyString].
Proof.
  intros m. destruct (frame_lines m eq_refl) as (H & _). rewrite H. reflexivity.
Defined.

(** At a chunk of two lines. *)
Lemma decoder_keeps_last_line_witness :
  ChatStream.parseSSEChunk
    (WebChat.formatSSE
       {| WebChat.data := "Hello" +:+ Js.nl +:+ "World"; WebChat.event := WebChat.EvMessage;
          WebChat.id := Some "1"; WebChat.retry := None |})
  = Some ("message", "World").
Proof.
  destruct (decoder_keeps_last_line
              {| WebChat.data := "Hello" +:+ Js.nl +:+ "World";
                 WebChat.event := WebChat.EvMessage;
                 WebChat.id := Some "1"; WebChat.retry := None |} eq_refl)
    as (_ & _ & H & _).
  apply (H "Hello" "World"); [reflexivity | split; reflexivity].
Defined.

(** At the frames of two chunks. *)
Lemma coalesced_frames_keep_the_last_witness :
  ChatStream.parseSSEChunk (Js.concat (WebChat.writes (WebChat.chunkMessages 1 ["Hel"; "lo"])))
  = Some ("message", "lo").
Proof.
  destruct (coalesced_frames_keep_the_last
              {| WebChat.data := "Hel"; WebChat.event := WebChat.EvMessage;
                 WebChat.id := Some "1"; WebChat.retry := None |}
              {| WebChat.data := "lo"; WebChat.event := WebChat.EvMessage;
                 WebChat.id := Some "2"; WebChat.retry := None |} eq_refl eq_refl)
    as (H & _).
  etransitivity; [|etransitivity; [exact H|reflexivity]]. reflexivity.
Defined.

(** At two chunks and a hook that has not been used. *)
Lemma single_line_chunks_roundtrip_witness :
  let '(h, phase) :=
    ChatStream.startStream SampleClient.noErrorField ChatStream.initial
      (ChatStream.delivered (WebChat.writes (WebChat.streamOrchestratorResponse ["Hel"; "lo"]))
       ++ [ChatStream.ReadSettled ChatStream.ReadDone]) in
  ChatStream.accumulatedMessageRef h = "Hello"
  /\ ChatStream.calls h
     = [ChatStream.OnMessageChunk "Hel" "Hel"; ChatStream.OnMessageChunk "lo" "Hello";
        ChatStream.OnComplete "Hello"].
Proof.
  pose proof (single_line_chunks_roundtrip SampleClient.noErrorField ChatStream.initial
                ["Hel"; "lo"] eq_refl) as H.
  assert (Hok : Forall ChatStream.deliverable ["Hel"; "lo"])
    by (repeat constructor).
  specialize (H Hok). vm_compute in H. destruct H as (_ & _ & _ & Hacc & Hcalls).
  vm_compute. split; assumption.
Defined.

(* ================================================================== *)
(** * Properties of the web-chat handler *)
(* ================================================================== *)

Lemma includes_unfold (needle s : string) :
  Js.includes needle s
  = Js.startsWith needle s
    || match s with
       | EmptyString => false
       | String _ r => Js.includes needle r
       end.
Proof. destruct s; reflexivity. Qed.

Lemma startsWith_app (p s : string) : Js.startsWith p (p +:+ s) = true.
Proof.
  induction p as [|c p IH]; [reflexivity|].
  rewrite append_cons. simpl. now rewrite Ascii.eqb_refl, IH.
Qed.

(** A string includes what it holds between a prefix and a suffix. *)
Lemma includes_app (needle a b : string) : Js.includes needle (a +:+ needle +:+ b) = true.
Proof.
  induction a as [|c a IH].
  - rewrite append_empty_l, includes_unfold, startsWith_app. reflexivity.
  - rewrite append_cons, includes_unfold, IH. apply orb_true_r.
Qed.

Lemma missing_false (a : option string) :
  Lambda.missing a = false <-> exists s, a = Some s /\ Js.truthy s = true.
Proof.
  unfold Lambda.missing. destruct a as [s|].
  - rewrite negb_false_iff. split; [eauto | now intros (? & [= <-] & ?)].
  - split; [discriminate | now intros (? & ? & _)].
Qed.

Section Authentication.
Import Assistant WebChat Lambda.

Variable env : Env.
Variable sv : Services.

(** [verifyAuthToken] returns exactly for a header made of a scheme that
    lower-cases to [bearer], one space, and a non-empty token without a
    space, when both pool variables are set and the verifier accepts the
    token for the configured client; the verifier is then the one call
    made. *)
Theorem verifyAuthToken_accepts
    (authHeader : option string) (ev : list Effect) (payload : CognitoTokenPayload) :
  verifyAuthToken env sv authHeader = (ev, Normal payload)
  <-> exists scheme token,
        authHeader = Some (scheme +:+ " " +:+ token)
        /\ Js.toLowerCase scheme = "bearer"
        /\ Js.truthy token = true
        /\ Js.lacks " "%char token = true
        /\ missing (USER_POOL_ID env) = false
        /\ missing (USER_POOL_CLIENT_ID env) = false
        /\ jwtVerify sv token (valueOf (USER_POOL_CLIENT_ID env)) = Normal payload
        /\ ev = [JwtVerify token (valueOf (USER_POOL_CLIENT_ID env))].
Proof.
  unfold verifyAuthToken. split.
  - destruct (missing authHeader) eqn:Hm; [discriminate|].
    apply missing_false in Hm as (h & -> & _). cbn [valueOf].
    destruct (Js.split " "%char h) as [|scheme [|token [|? ?]]] eqn:Hs; try discriminate.
    apply split_in_two in Hs as (-> & Hscheme & Htoken).
    destruct (String.eqb_spec (Js.toLowerCase scheme) "bearer") as [Hb|]; [|discriminate].
    cbn [negb]. destruct (Js.truthy token) eqn:Ht; [|discriminate]. cbn [negb].
    destruct (missing (USER_POOL_ID env)); [discriminate|].
    destruct (missing (USER_POOL_CLIENT_ID env)); [discriminate|]. cbn [orb].
    destruct (jwtVerify sv token _) as [p|] eqn:Hv; [|discriminate].
    intros [= <- <-]. exists scheme, token. repeat split; assumption.
  - intros (scheme & token & -> & Hb & Ht & Htoken & Hp & Hc & Hv & ->).
    assert (Hscheme : Js.lacks " "%char scheme = true)
      by now rewrite <- toLowerCase_lacks_space, Hb.
    assert (Hm : missing (Some (scheme +:+ " " +:+ token)) = false).
    { apply missing_false. eexists. split; [reflexivity|].
      destruct scheme; [discriminate Hb | reflexivity]. }
    rewrite Hm. cbn [valueOf].
    change (scheme +:+ " " +:+ token) with (scheme +:+ String " " token).
    rewrite split_before_sep, split_lacking by assumption.
    rewrite Hb, Ht, Hp, Hc, Hv. reflexivity.
Qed.

(** When [verifyAuthToken] throws, the message is one of five fixed
    ones, never the verifier's own; the verifier was consulted only for
    the last of them; and the handler's status table answers 401 for each
    but the missing configuration, which it answers with 500. *)
Theorem verifyAuthToken_rejections
    (authHeader : option string) (ev : list Effect) (e : JsError) :
  verifyAuthToken env sv authHeader = (ev, Throw e) ->
  (message e = "Missing Authorization header" /\ ev = [] /\ statusFor (message e) = 401%N)
  \/ (message e = "Invalid Authorization header format. Expected: Bearer <token>"
      /\ ev = [] /\ statusFor (message e) = 401%N)
  \/ (message e = "Missing token in Authorization header"
      /\ ev = [] /\ statusFor (message e) = 401%N)
  \/ (message e = "Cognito User Pool configuration is missing"
      /\ ev = [] /\ statusFor (message e) = 500%N)
  \/ (message e = "Invalid or expired token"
      /\ (exists token clientId verifierError,
            ev = [JwtVerify token clientId]
            /\ jwtVerify sv token clientId = Throw verifierError)
      /\ statusFor (message e) = 401%N).
Proof.
  unfold verifyAuthToken.
  destruct (missing authHeader); [intros [= <- <-]; left; repeat split|].
  destruct (Js.split " "%char (valueOf authHeader)) as [|scheme [|token [|? ?]]];
    try (intros [= <- <-]; right; left; repeat split).
  destruct (negb (String.eqb (Js.toLowerCase scheme) "bearer"));
    [intros [= <- <-]; right; left; repeat split|].
  destruct (negb (Js.truthy token)); [intros [= <- <-]; do 2 right; left; repeat split|].
  destruct (missing (USER_POOL_ID env) || missing (USER_POOL_CLIENT_ID env));
    [intros [= <- <-]; do 3 right; left; repeat split|].
  destruct (jwtVerify sv token _) as [p|verifierError] eqn:Hv; [discriminate|].
  intros [= <- <-]. do 4 right. split; [reflexivity|]. split; [eauto | reflexivity].
Qed.

End Authentication.
Section Handler.
Import Assistant WebChat Lambda.

Variable ORCHESTRATOR_SYSTEM_PROMPT : string.
Variable env : Env.
Variable sv : Services.

Local Abbreviation handler := (lambdaHandler ORCHESTRATOR_SYSTEM_PROMPT env sv).
Local Abbreviation respond := (streamOrchestratorResponse ORCHESTRATOR_SYSTEM_PROMPT env sv).

(** What the model is handed for the messages of a request: the system
    prompt and one user turn. *)
Local Abbreviation turns :=
  (fun ms : list ChatMessage =>
     [{| Assistant.role := system; Assistant.content := ORCHESTRATOR_SYSTEM_PROMPT |};
      {| Assistant.role := user;
         Assistant.content := Js.join (Js.nl +:+ Js.nl) (userContents ms) |}]).

Lemma statusFor_values (m : string) :
  statusFor m = 401%N \/ statusFor m = 400%N \/ statusFor m = 500%N.
Proof.
  unfold statusFor. destruct (_ || _); [auto|]. destruct (Js.includes _ _); auto.
Qed.

Lemma statusFor_not_200 (m : string) : statusFor m <> 200%N.
Proof. destruct (statusFor_values m) as [-> | [-> | ->]]; discriminate. Qed.

Lemma orchestratorEffects_app (a b : list Effect) :
  orchestratorEffects (a ++ b) = orchestratorEffects a ++ orchestratorEffects b.
Proof.
  induction a as [|x a IH]; [reflexivity|].
  destruct x; cbn [app orchestratorEffects]; now rewrite IH.
Qed.

Lemma orchestratorEffects_map (evs : list Assistant.Event) :
  orchestratorEffects (map Orchestrator evs) = evs.
Proof. induction evs as [|x evs IH]; [reflexivity|]. simpl. now rewrite IH. Qed.

Lemma verifyAuthToken_effects (authHeader : option string) :
  orchestratorEffects (fst (verifyAuthToken env sv authHeader)) = [].
Proof.
  unfold verifyAuthToken. repeat case_match; reflexivity.
Qed.

Lemma getSupermemoryApiKey_effects :
  orchestratorEffects (fst (getSupermemoryApiKey env sv)) = [].
Proof.
  unfold getSupermemoryApiKey. repeat case_match; reflexivity.
Qed.

(** The handler either fails before anything is written, and answers
    with [failure], or accepts the request and answers 200 with the
    connection message and what [streamOrchestratorResponse] yields. *)
Lemma lambdaHandler_cases (event : Event) :
  (exists e,
     snd (handler event) = failure sv e
     /\ orchestratorEffects (fst (handler event)) = []
     /\ forall claims requestBody ms key, ~ accepted env sv event claims requestBody ms key)
  \/ (exists claims requestBody ms key,
        accepted env sv event claims requestBody ms key
        /\ orchestratorEffects (fst (handler event))
           = fst (respond (sub claims) (sessionId requestBody) ms key)
        /\ snd (handler event)
           = {| statusCode := 200%N;
                written :=
                  formatSSE (connectionMessage sv (sub claims))
                  :: map formatSSE (snd (respond (sub claims) (sessionId requestBody) ms key));
                ended := true |}).
Proof.
  unfold lambdaHandler.
  pose proof (verifyAuthToken_effects
                (orElse (authorization (headers event)) (Authorization (headers event)))) as Hev1.
  destruct (verifyAuthToken env sv _) as [ev1 [claims|e]] eqn:Hauth; cbn [fst] in Hev1.
  2:{ left. exists e. repeat split; [exact Hev1|].
      intros c r ms k ((ev & Ha) & _). congruence. }
  destruct (missing (body event)) eqn:Hbody.
  { left. eexists. repeat split; [exact Hev1|].
    intros c r ms k (_ & Hb & _). congruence. }
  destruct (JSON_parse_body sv (valueOf (body event))) as [requestBody|e] eqn:Hparse.
  2:{ left. exists e. cbn [fst snd]. rewrite orchestratorEffects_app, Hev1.
      repeat split. intros c r ms k (_ & _ & Hp & _). congruence. }
  destruct (messages requestBody) as [|[|m ms]] eqn:Hms.
  { left. eexists. cbn [fst snd]. rewrite orchestratorEffects_app, Hev1.
    repeat split. intros c r ms k (_ & _ & Hp & Hm & _). congruence. }
  { left. eexists. cbn [fst snd]. rewrite orchestratorEffects_app, Hev1.
    repeat split. intros c r ms k (_ & _ & Hp & Hm & Hne & _).
    rewrite Hparse in Hp. injection Hp as <-. congruence. }
  pose proof getSupermemoryApiKey_effects as Hev3.
  destruct (getSupermemoryApiKey env sv) as [ev3 [key|e]] eqn:Hkey; cbn [fst] in Hev3.
  2:{ left. exists e. cbn [fst snd]. rewrite !orchestratorEffects_app, Hev1, Hev3.
      repeat split. intros c r ms' k (_ & _ & _ & _ & _ & (ev & Hk)). congruence. }
  right. exists claims, requestBody, (m :: ms), key.
  destruct (streamOrchestratorResponse _ _ _ _ _ _ _) as [ev4 yielded] eqn:Hs.
  cbn [fst snd]. split; [|split].
  - unfold accepted. rewrite Hparse, Hms. repeat split; eauto.
  - rewrite !orchestratorEffects_app, Hev1, Hev3, orchestratorEffects_map. reflexivity.
  - reflexivity.
Qed.

(** The handler answers 200 exactly when the request passes every check:
    a verified token, a body that parses to a request with a non-empty
    array of messages, and a retrieved API key. *)
Theorem lambdaHandler_answers_200_iff (event : Event) :
  statusCode (snd (handler event)) = 200%N
  <-> exists claims requestBody ms key, accepted env sv event claims requestBody ms key.
Proof.
  destruct (lambdaHandler_cases event) as [(e & Hr & _ & Hno) | (c & r & ms & k & Ha & _ & Hr)];
    rewrite Hr; cbn [statusCode failure].
  - split; [intros H; now apply statusFor_not_200 in H|].
    intros (c & r & ms & k & Ha). now apply Hno in Ha.
  - split; [eauto | reflexivity].
Qed.

(** A response that is not a 200 is one [error] message and nothing
    else: the status is 401, 400 or 500 as the table of the handler maps
    the message, the stream is ended, and the orchestrator was never
    created or called. *)
Theorem lambdaHandler_failure_response (event : Event) :
  statusCode (snd (handler event)) <> 200%N ->
  exists m,
    written (snd (handler event)) = [formatSSE (errorMessage sv m)]
    /\ statusCode (snd (handler event)) = statusFor m
    /\ (statusFor m = 401%N \/ statusFor m = 400%N \/ statusFor m = 500%N)
    /\ ended (snd (handler event)) = true
    /\ orchestratorEffects (fst (handler event)) = [].
Proof.
  destruct (lambdaHandler_cases event) as [(e & Hr & Hev & _) | (c & r & ms & k & _ & _ & Hr)];
    rewrite Hr; cbn [statusCode failure]; [|congruence].
  intros _. exists (message e). repeat split; [apply statusFor_values | exact Hev].
Qed.

(** How an authenticated request is turned down: a missing body is a
    500, a body that does not parse gets the status of the parser's
    message (a 401 when the message mentions a token), a request without
    a non-empty array of messages is a 400, and a failure to retrieve the
    API key is a 500. *)
Theorem rejected_request_statuses (event : Event) (ev : list Effect)
    (claims : CognitoTokenPayload) :
  verifyAuthToken env sv
    (orElse (authorization (headers event)) (Authorization (headers event)))
  = (ev, Normal claims) ->
  let r := snd (handler event) in
  (missing (body event) = true -> statusCode r = 500%N)
  /\ (missing (body event) = false ->
      (forall e, JSON_parse_body sv (valueOf (body event)) = Throw e ->
                 statusCode r = statusFor (message e)
                 /\ (forall a b, message e = a +:+ "token" +:+ b -> statusCode r = 401%N))
      /\ (forall requestBody,
            JSON_parse_body sv (valueOf (body event)) = Normal requestBody ->
            (messages requestBody = NoArray \/ messages requestBody = Messages [] ->
             statusCode r = 400%N)
            /\ (forall ms evk e,
                  messages requestBody = Messages ms -> ms <> [] ->
                  getSupermemoryApiKey env sv = (evk, Throw e) ->
                  statusCode r = 500%N))).
Proof.
  intros Hauth r. subst r. unfold lambdaHandler. rewrite Hauth. split.
  - intros ->. reflexivity.
  - intros ->. split.
    + intros e ->. cbn [snd failure statusCode]. split; [reflexivity|].
      intros a b ->. unfold statusFor. rewrite (includes_app "token"), orb_true_r. reflexivity.
    + intros requestBody ->. split.
      * intros [-> | ->]; reflexivity.
      * intros ms evk e -> Hne Hkey. destruct ms as [|m ms]; [contradiction|].
        rewrite Hkey. cbn [snd failure statusCode].
        unfold getSupermemoryApiKey in Hkey.
        repeat case_match; simplify_eq; reflexivity.
Qed.

(** *** What the generator yields *)

Lemma respond_unfold (userId sessionId : string) (ms : list ChatMessage) (key : string) :
  respond userId sessionId ms key
  = if negb (Js.truthy (Js.trim (Js.join (Js.nl +:+ Js.nl) (userContents ms)))) then
      ([], [errorMessage sv "No user messages found in request"])
    else
      match model sv (turns ms) with
      | Normal textStream =>
          ([StreamText (turns ms)],
           chunkMessages 1 (chunks textStream)
           ++ [match Assistant.failure textStream with
               | None => completeMessage
               | Some e => errorMessage sv (message e)
               end])
      | Throw e =>
          ([StreamText (turns ms);
            ConsoleError "[Orchestrator.processMessageStream] Error during streaming"],
           [errorMessage sv (message e)])
      end.
Proof.
  unfold streamOrchestratorResponse.
  change (combinedMessage ms) with (Js.join (Js.nl +:+ Js.nl) (userContents ms)).
  destruct (negb _); [reflexivity|].
  match goal with
  | |- context [processMessageStream ?sllm ?this ?message ?ctx] =>
      pose proof (processMessageStream_unfold sllm this message ctx) as H;
      set (s := processMessageStream sllm this message ctx) in *
  end.
  cbv zeta in H. cbn [conversationHistory constructor app withContext] in H.
  destruct (model sv _) as [[cs f]|e].
  - destruct H as (Hev & Hc & _). rewrite Hev, Hc.
    unfold enhancedTextStream. cbn [originalTextStream chunks].
    rewrite forAwait_drains. cbn [chunks Assistant.failure]. destruct f; reflexivity.
  - destruct H as (Hev & Hc & _). rewrite Hev, Hc. reflexivity.
Qed.

Lemma chunkMessages_not_terminal (chunks : list string) :
  forall n, Forall (fun m => terminal m = false /\ event m = EvMessage) (chunkMessages n chunks).
Proof.
  induction chunks as [|c chunks IH]; intros n; constructor; [split; reflexivity | apply IH].
Qed.

Lemma chunkMessages_payloads (chunks : list string) :
  forall n, map data (chunkMessages n chunks) = chunks
            /\ map id (chunkMessages n chunks)
               = map (fun k => Some (pretty k)) (seq n (length chunks)).
Proof.
  induction chunks as [|c chunks IH]; intros n; [split; reflexivity|].
  destruct (IH (S n)) as [Hd Hi]. cbn [chunkMessages map length seq data id].
  now rewrite Hd, Hi.
Qed.

(** Whatever the request and whatever the model does, the generator
    yields [message] events numbered from 1 and then exactly one terminal
    event, [complete] with [[DONE]] or [error]: it never ends without
    one and never yields after it. *)
Theorem stream_ends_with_one_terminal_event
    (userId sessionId : string) (ms : list ChatMessage) (key : string) :
  exists chunks final,
    snd (respond userId sessionId ms key) = chunkMessages 1 chunks ++ [final]
    /\ terminal final = true
    /\ (final = completeMessage \/ exists m, final = errorMessage sv m)
    /\ Forall (fun m => terminal m = false /\ event m = EvMessage) (chunkMessages 1 chunks)
    /\ map data (chunkMessages 1 chunks) = chunks
    /\ map id (chunkMessages 1 chunks)
       = map (fun k => Some (pretty k)) (seq 1 (length chunks)).
Proof.
  rewrite respond_unfold.
  destruct (negb _).
  { exists [], (errorMessage sv "No user messages found in request").
    repeat split; eauto. }
  destruct (model sv _) as [[cs f]|e].
  - eexists cs, _. cbn [snd chunks Assistant.failure]. split; [reflexivity|].
    split; [destruct f; reflexivity|]. split; [destruct f; eauto|].
    split; [apply chunkMessages_not_terminal | apply chunkMessages_payloads].
  - exists [], (errorMessage sv (message e)). repeat split; eauto.
Qed.

(** Of the messages of a request only the contents of those with role
    [user] reach the model, joined by blank lines into one user turn that
    follows the system prompt; when they are blank the model is not
    called at all and one [error] message is yielded. *)
Theorem only_user_messages_reach_the_model
    (userId sessionId : string) (ms : list ChatMessage) (key : string) :
  let combined := Js.join (Js.nl +:+ Js.nl) (userContents ms) in
  (Js.truthy (Js.trim combined) = true ->
   messagesSent (fst (respond userId sessionId ms key))
   = Some [{| Assistant.role := system; Assistant.content := ORCHESTRATOR_SYSTEM_PROMPT |};
           {| Assistant.role := user; Assistant.content := combined |}])
  /\ (Js.truthy (Js.trim combined) = false ->
      respond userId sessionId ms key
      = ([], [errorMessage sv "No user messages found in request"])).
Proof.
  cbv zeta. rewrite respond_unfold. split; intros ->; cbn [negb]; [|reflexivity].
  destruct (model sv _); reflexivity.
Qed.

(** What is yielded follows what the model does: a stream that ends
    gives its chunks and [complete]; a stream that fails while it is read
    gives the chunks that came before the failure and then [error] with
    the failure's message; a model that fails at once gives [error]
    alone. *)
Theorem stream_response_follows_the_model
    (userId sessionId : string) (ms : list ChatMessage) (key : string) :
  Js.truthy (Js.trim (Js.join (Js.nl +:+ Js.nl) (userContents ms))) = true ->
  match model sv (turns ms) with
  | Normal {| chunks := cs; Assistant.failure := None |} =>
      snd (respond userId sessionId ms key) = WebChat.streamOrchestratorResponse cs
  | Normal {| chunks := cs; Assistant.failure := Some e |} =>
      snd (respond userId sessionId ms key)
      = chunkMessages 1 cs ++ [errorMessage sv (message e)]
  | Throw e =>
      snd (respond userId sessionId ms key) = [errorMessage sv (message e)]
  end.
Proof.
  intros H. rewrite respond_unfold, H. cbn [negb].
  destruct (model sv _) as [[cs [e|]]|e]; reflexivity.
Qed.

End Handler.
(** At a header in capitals. *)
Lemma verifyAuthToken_accepts_witness :
  Lambda.verifyAuthToken SampleLambda.env (SampleLambda.streaming []) (Some "BEARER good")
  = ([Lambda.JwtVerify "good" "client-1"], Assistant.Normal SampleLambda.ada).
Proof.
  apply (proj2 (verifyAuthToken_accepts SampleLambda.env (SampleLambda.streaming [])
                  (Some "BEARER good") _ _)).
  exists "BEARER", "good". repeat split.
Defined.

(** At a token the verifier turns down. *)
Lemma verifyAuthToken_rejections_witness :
  exists token clientId verifierError,
    [Lambda.JwtVerify "bad" "client-1"] = [Lambda.JwtVerify token clientId]
    /\ Lambda.jwtVerify (SampleLambda.streaming []) token clientId
       = Assistant.Throw verifierError.
Proof.
  destruct (verifyAuthToken_rejections SampleLambda.env (SampleLambda.streaming [])
              (Some "Bearer bad") [Lambda.JwtVerify "bad" "client-1"]
              (Lambda.Error "Invalid or expired token") eq_refl)
    as [(H & _) | [(H & _) | [(H & _) | [(H & _) | (_ & H & _)]]]];
    try discriminate H.
  exact H.
Defined.

(** At a well-formed request. *)
Lemma lambdaHandler_answers_200_iff_witness :
  Lambda.statusCode
    (snd (Lambda.lambdaHandler Sample.prompt SampleLambda.env (SampleLambda.streaming ["Hel"; "lo"])
            (SampleLambda.post (Some "Bearer good") (Some "request"))))
  = 200%N.
Proof.
  apply (proj2 (lambdaHandler_answers_200_iff Sample.prompt SampleLambda.env
                  (SampleLambda.streaming ["Hel"; "lo"])
                  (SampleLambda.post (Some "Bearer good") (Some "request")))).
  exists SampleLambda.ada, SampleLambda.request.
  eexists _, "sm-key". unfold Lambda.accepted.
  repeat split; try (eexists; reflexivity); discriminate.
Defined.

(** At a request without a header. *)
Lemma lambdaHandler_failure_response_witness :
  let sv := SampleLambda.streaming ["Hel"; "lo"] in
  let r := snd (Lambda.lambdaHandler Sample.prompt SampleLambda.env sv
                  (SampleLambda.post None (Some "request"))) in
  Lambda.statusCode r = 401%N
  /\ Lambda.written r
     = ["event: error" +:+ Js.nl +:+ "data: {error:Missing Authorization header}"
        +:+ Js.nl +:+ Js.nl].
Proof.
  intros sv r.
  destruct (lambdaHandler_failure_response Sample.prompt SampleLambda.env sv
              (SampleLambda.post None (Some "request"))) as (m & Hw & Hs & _).
  - vm_compute. discriminate.
  - split; reflexivity.
Defined.

(** At a body that is not JSON: the parser's message mentions a token. *)
Lemma rejected_request_statuses_witness :
  Lambda.statusCode
    (snd (Lambda.lambdaHandler Sample.prompt SampleLambda.env (SampleLambda.streaming [])
            (SampleLambda.post (Some "Bearer good") (Some "hello"))))
  = 401%N.
Proof.
  destruct (rejected_request_statuses Sample.prompt SampleLambda.env (SampleLambda.streaming [])
              (SampleLambda.post (Some "Bearer good") (Some "hello")) _ _ eq_refl)
    as (_ & H).
  destruct (H eq_refl) as (H1 & _).
  destruct (H1 _ eq_refl) as (_ & H2).
  apply (H2 "Unexpected " " h in JSON at position 0"). reflexivity.
Defined.

(** At a request with turns of every role. *)
Lemma only_user_messages_reach_the_model_witness :
  Assistant.messagesSent
    (fst (Lambda.streamOrchestratorResponse Sample.prompt SampleLambda.env
            (SampleLambda.streaming ["Hel"; "lo"]) "u1" "s1"
            [{| Lambda.role := "system"; Lambda.content := "Be brief." |};
             {| Lambda.role := "user"; Lambda.content := "Hi" |};
             {| Lambda.role := "assistant"; Lambda.content := "Hello Ada" |};
             {| Lambda.role := "user"; Lambda.content := "What is on today?" |}] "sm-key"))
  = Some [{| Assistant.role := Assistant.system; Assistant.content := Sample.prompt |};
          {| Assistant.role := Assistant.user;
             Assistant.content := "Hi" +:+ Js.nl +:+ Js.nl +:+ "What is on today?" |}].
Proof.
  exact (proj1 (only_user_messages_reach_the_model Sample.prompt SampleLambda.env
                  (SampleLambda.streaming ["Hel"; "lo"]) "u1" "s1"
                  [{| Lambda.role := "system"; Lambda.content := "Be brief." |};
                   {| Lambda.role := "user"; Lambda.content := "Hi" |};
                   {| Lambda.role := "assistant"; Lambda.content := "Hello Ada" |};
                   {| Lambda.role := "user"; Lambda.content := "What is on today?" |}]
                  "sm-key") eq_refl).
Defined.

(** At a stream that fails after two chunks. *)
Lemma stream_response_follows_the_model_witness :
  snd (Lambda.streamOrchestratorResponse Sample.prompt SampleLambda.env
         (SampleLambda.interrupted ["Hel"; "lo"]) "u1" "s1"
         [{| Lambda.role := "user"; Lambda.content := "Hi" |}] "sm-key")
  = WebChat.chunkMessages 1 ["Hel"; "lo"]
    ++ [Lambda.errorMessage (SampleLambda.interrupted ["Hel"; "lo"]) "model unavailable"].
Proof.
  exact (stream_response_follows_the_model Sample.prompt SampleLambda.env
           (SampleLambda.interrupted ["Hel"; "lo"]) "u1" "s1"
           [{| Lambda.role := "user"; Lambda.content := "Hi" |}] "sm-key" eq_refl).
Defined.
(* ================================================================== *)
(** * The client on what the handler writes *)
(* ================================================================== *)

Section ClientErrors.
Import WebChat ChatStream Wire.

Variable JSON_parse_error : string -> Thrown + option string.

Lemma parse_deliverable_frame (m : SSEMessage) :
  singleLineId m -> deliverable (data m) ->
  parseSSEChunk (formatSSE m) = Some (eventName (event m), data m).
Proof.
  intros Hid [Hl Hne]. rewrite parse_frame by exact Hid.
  now rewrite lastLine_singleLine, Hne.
Qed.

Lemma onChunk_error (d : string) (h : Hook) :
  deliverable d ->
  onChunk JSON_parse_error
    (formatSSE {| data := d; event := EvError; id := None; retry := None |}) h
  = match JSON_parse_error d with
    | inl thrown => inl (thrown, h)
    | inr field =>
        let m := match field with
                 | Some m => if Js.truthy m then m else "Server error"
                 | None => "Server error"
                 end in
        let streamError := {| message := m; code := "SERVER_ERROR" |} in
        inr (invoke (OnError streamError)
               (setConnectionStatus ConnectionError
                  (setStatus StatusError (setError (Some streamError) h))))
    end.
Proof.
  intros Hd. unfold onChunk.
  rewrite (parse_deliverable_frame {| data := d; event := EvError; id := None; retry := None |})
    by (exact I || exact Hd).
  reflexivity.
Qed.

(** Once [startStream] has returned and no controller is held, nothing
    that happens changes the hook. *)
Lemma returned_is_final (inputs : list Input) :
  forall h : Hook,
    abortControllerRef h = false ->
    run JSON_parse_error inputs (h, Returned) = (h, Returned).
Proof.
  induction inputs as [|i inputs IH]; intros h Hh; [reflexivity|].
  rewrite run_cons.
  assert (Hs : step JSON_parse_error i (h, Returned) = (h, Returned)).
  { destruct i as [| | | | [| |] |]; try reflexivity.
    cbn [step]. unfold stopStream. now rewrite Hh. }
  rewrite Hs. now apply IH.
Qed.

(** An [error] event does not end the read: the client reports the
    server's message (or [Server error]) with the code [SERVER_ERROR] and
    keeps reading; when the stream then ends it sets the status to
    completed and fires the completion callback, with the text
    accumulated so far, after the error callback. *)
Theorem error_event_does_not_end_the_read (d : string) (field : option string) (h : Hook) :
  deliverable d ->
  JSON_parse_error d = inr field ->
  completedRef h = false ->
  let streamError :=
    {| message := match field with
                  | Some m => if Js.truthy m then m else "Server error"
                  | None => "Server error"
                  end;
       code := "SERVER_ERROR" |} in
  let frame := formatSSE {| data := d; event := EvError; id := None; retry := None |} in
  let '(h1, phase1) := step JSON_parse_error (ReadSettled (ReadValue frame)) (h, Reading) in
  let '(h2, phase2) := step JSON_parse_error (ReadSettled ReadDone) (h1, phase1) in
  phase1 = Reading
  /\ status h1 = StatusError
  /\ calls h1 = calls h ++ [OnError streamError]
  /\ phase2 = Returned
  /\ status h2 = StatusCompleted
  /\ connectionStatus h2 = Connected
  /\ error h2 = Some streamError
  /\ calls h2 = calls h ++ [OnError streamError; OnComplete (accumulatedMessageRef h)].
Proof.
  intros Hd Hj Hc. cbv zeta.
  rewrite step_read_value, onChunk_error, Hj by exact Hd. cbv zeta.
  cbn [step]. unfold completeOnce, finallyBlock. cbn. rewrite Hc. cbn.
  repeat split. now rewrite <- app_assoc.
Qed.

(** An [error] event whose payload does not parse ends the read: the
    exception of [JSON.parse] is reported with the code [STREAM_ERROR],
    the controller is released, and the completion callback is not
    invoked. *)
Theorem malformed_error_payload_ends_the_read
    (d name m : string) (h : Hook) :
  deliverable d ->
  JSON_parse_error d = inl (ErrorObject name m) ->
  name <> "AbortError" ->
  let frame := formatSSE {| data := d; event := EvError; id := None; retry := None |} in
  let '(h1, phase1) := step JSON_parse_error (ReadSettled (ReadValue frame)) (h, Reading) in
  phase1 = Returned
  /\ status h1 = StatusError
  /\ error h1 = Some {| message := m; code := "STREAM_ERROR" |}
  /\ abortControllerRef h1 = false
  /\ completedRef h1 = completedRef h
  /\ calls h1 = calls h ++ [OnError {| message := m; code := "STREAM_ERROR" |}].
Proof.
  intros Hd Hj Hname. cbv zeta.
  rewrite step_read_value, onChunk_error, Hj by exact Hd.
  unfold catchBlock. apply String.eqb_neq in Hname. rewrite Hname.
  repeat split.
Qed.

(** A response that is not ok is never read: whatever the body holds and
    whatever happens afterwards, the client reports [HTTP] and the status
    line with the code [STREAM_ERROR], once, and nothing is accumulated
    or completed. *)
Theorem non_ok_response_is_never_read
    (h0 : Hook) (statusLine : string) (hasBody : bool) (rest : list Input) :
  abortControllerRef h0 = false ->
  let '(h, phase) :=
    startStream JSON_parse_error h0
      ([TokenResolved; FetchResolved false statusLine hasBody] ++ rest) in
  phase = Returned
  /\ status h = StatusError
  /\ error h = Some {| message := "HTTP " +:+ statusLine; code := "STREAM_ERROR" |}
  /\ accumulatedMessageRef h = EmptyString
  /\ abortControllerRef h = false
  /\ calls h
     = calls h0 ++ [OnError {| message := "HTTP " +:+ statusLine; code := "STREAM_ERROR" |}].
Proof.
  intros Hidle. unfold startStream. rewrite Hidle.
  cbn [app]. rewrite !run_cons. cbn [step negb].
  unfold catchBlock. cbn [String.eqb Ascii.eqb Bool.eqb].
  rewrite returned_is_final by reflexivity.
  repeat split.
Qed.

End ClientErrors.

Section EndToEnd.
Import WebChat ChatStream Wire.

Variable ORCHESTRATOR_SYSTEM_PROMPT : string.
Variable env : Lambda.Env.
Variable sv : Lambda.Services.
Variable JSON_parse_error : string -> Thrown + option string.

Local Abbreviation handler := (Lambda.lambdaHandler ORCHESTRATOR_SYSTEM_PROMPT env sv).
Local Abbreviation respond :=
  (Lambda.streamOrchestratorResponse ORCHESTRATOR_SYSTEM_PROMPT env sv).

Lemma lambdaHandler_accepted (event : Lambda.Event) (claims : Lambda.CognitoTokenPayload)
    (requestBody : Lambda.ChatRequest) (ms : list Lambda.ChatMessage) (key : string) :
  Lambda.accepted env sv event claims requestBody ms key ->
  snd (handler event)
  = {| Lambda.statusCode := 200%N;
       Lambda.written :=
         formatSSE (Lambda.connectionMessage sv (Lambda.sub claims))
         :: map formatSSE
              (snd (respond (Lambda.sub claims) (Lambda.sessionId requestBody) ms key));
       Lambda.ended := true |}.
Proof.
  intros ((ev1 & Ha) & Hb & Hp & Hm & Hne & (ev3 & Hk)).
  unfold Lambda.lambdaHandler. rewrite Ha, Hb, Hp, Hm.
  destruct ms as [|m ms]; [contradiction|]. rewrite Hk.
  destruct (Lambda.streamOrchestratorResponse _ _ _ _ _ _ _). reflexivity.
Qed.

Lemma startStream_app (h0 : Hook) (inputs inputs' : list Input) :
  abortControllerRef h0 = false ->
  startStream JSON_parse_error h0 (inputs ++ inputs')
  = run JSON_parse_error inputs' (startStream JSON_parse_error h0 inputs).
Proof. intros H. unfold startStream. rewrite H. apply run_app. Qed.

Lemma delivered_app (a b : list string) :
  delivered (a ++ b) = delivered a ++ map (fun t => ReadSettled (ReadValue t)) b.
Proof. unfold delivered. now rewrite map_app, app_assoc. Qed.

(** The client after the connection message and the messages of the
    chunks: connected, every chunk received, nothing completed yet. *)
Lemma client_reads_chunks (userId : string) (cs : list string) (h0 : Hook) :
  deliverable (Lambda.JSON_stringify_connection sv userId) ->
  Forall deliverable cs ->
  abortControllerRef h0 = false ->
  exists h1,
    startStream JSON_parse_error h0
      (delivered (formatSSE (Lambda.connectionMessage sv userId)
                  :: map formatSSE (chunkMessages 1 cs)))
    = (h1, Reading)
    /\ accumulatedMessageRef h1 = Js.concat cs
    /\ calls h1 = calls h0 ++ [OnConnection] ++ chunkCalls EmptyString cs
    /\ completedRef h1 = false
    /\ error h1 = None.
Proof.
  intros Hconn Hok Hidle. unfold startStream. rewrite Hidle.
  unfold delivered. cbn [app map]. do 2 rewrite run_cons. cbn [step negb].
  rewrite run_cons, step_read_value. unfold onChunk.
  rewrite (parse_deliverable_frame (Lambda.connectionMessage sv userId)) by (exact I || exact Hconn).
  cbn [eventName event Lambda.connectionMessage String.eqb Ascii.eqb Bool.eqb andb].
  match goal with |- context [run _ _ (?h, Reading)] => set (h1 := h) end.
  pose proof (run_chunk_frames JSON_parse_error cs 1 h1 Hok) as Hrun. unfold writes in Hrun.
  rewrite Hrun. clear Hrun.
  destruct (received_all cs h1) as (Hacc & Hcalls & Hdone & Herr).
  eexists. split; [reflexivity|].
  rewrite Hacc, Hcalls, Hdone, Herr. subst h1. cbn.
  repeat split. now rewrite <- app_assoc.
Qed.

(** An accepted request whose model streams chunks that are not empty
    and hold no line feed, each frame read on its own: the client is told
    of the connection, receives every chunk in order and completes once
    with their concatenation. *)
Theorem accepted_request_end_to_end
    (event : Lambda.Event) (claims : Lambda.CognitoTokenPayload)
    (requestBody : Lambda.ChatRequest) (ms : list Lambda.ChatMessage) (key : string)
    (cs : list string) (h0 : Hook) :
  Lambda.accepted env sv event claims requestBody ms key ->
  Js.truthy (Js.trim (Js.join (Js.nl +:+ Js.nl) (Lambda.userContents ms))) = true ->
  Lambda.model sv
    [{| Assistant.role := Assistant.system; Assistant.content := ORCHESTRATOR_SYSTEM_PROMPT |};
     {| Assistant.role := Assistant.user;
        Assistant.content := Js.join (Js.nl +:+ Js.nl) (Lambda.userContents ms) |}]
  = Assistant.Normal {| Assistant.chunks := cs; Assistant.failure := None |} ->
  Forall deliverable cs ->
  deliverable (Lambda.JSON_stringify_connection sv (Lambda.sub claims)) ->
  abortControllerRef h0 = false ->
  let '(h, phase) :=
    startStream JSON_parse_error h0
      (delivered (Lambda.written (snd (handler event))) ++ [ReadSettled ReadDone]) in
  phase = Returned
  /\ status h = StatusCompleted
  /\ error h = None
  /\ accumulatedMessageRef h = Js.concat cs
  /\ calls h
     = calls h0 ++ [OnConnection] ++ chunkCalls EmptyString cs ++ [OnComplete (Js.concat cs)].
Proof.
  intros Hacc Hblank Hmodel Hok Hconn Hidle.
  rewrite (lambdaHandler_accepted _ _ _ _ _ Hacc). cbn [Lambda.written].
  rewrite respond_unfold, Hblank, Hmodel. cbn [negb snd Assistant.chunks Assistant.failure].
  rewrite map_app. change (?a :: ?l ++ ?r) with ((a :: l) ++ r).
  rewrite delivered_app, <- app_assoc, startStream_app by exact Hidle.
  destruct (client_reads_chunks (Lambda.sub claims) cs h0 Hconn Hok Hidle)
    as (h1 & -> & Hacc1 & Hcalls1 & Hdone1 & Herr1).
  cbn [map app]. rewrite !run_cons, step_read_value.
  change (formatSSE Lambda.completeMessage)
    with (formatSSE {| data := "[DONE]"; event := EvComplete; id := None; retry := None |}).
  rewrite onChunk_complete. cbn [run fold_left step].
  unfold completeOnce, finallyBlock. cbn. rewrite Hdone1. cbn.
  rewrite Hacc1, Hcalls1, Herr1. repeat split. now rewrite <- !app_assoc.
Qed.

(** An accepted request whose stream fails while it is read: the client
    receives the chunks that came before the failure, then the error
    callback with the failure's message and the code [SERVER_ERROR], and
    then, the response ending, the completion callback with the partial
    text; its status ends as completed with the error still set. *)
Theorem interrupted_stream_end_to_end
    (event : Lambda.Event) (claims : Lambda.CognitoTokenPayload)
    (requestBody : Lambda.ChatRequest) (ms : list Lambda.ChatMessage) (key : string)
    (cs : list string) (e : Assistant.JsError) (h0 : Hook) :
  Lambda.accepted env sv event claims requestBody ms key ->
  Js.truthy (Js.trim (Js.join (Js.nl +:+ Js.nl) (Lambda.userContents ms))) = true ->
  Lambda.model sv
    [{| Assistant.role := Assistant.system; Assistant.content := ORCHESTRATOR_SYSTEM_PROMPT |};
     {| Assistant.role := Assistant.user;
        Assistant.content := Js.join (Js.nl +:+ Js.nl) (Lambda.userContents ms) |}]
  = Assistant.Normal {| Assistant.chunks := cs; Assistant.failure := Some e |} ->
  Forall deliverable cs ->
  deliverable (Lambda.JSON_stringify_connection sv (Lambda.sub claims)) ->
  deliverable (Lambda.JSON_stringify_error sv (Assistant.message e)) ->
  JSON_parse_error (Lambda.JSON_stringify_error sv (Assistant.message e))
  = inr (Some (Assistant.message e)) ->
  Js.truthy (Assistant.message e) = true ->
  abortControllerRef h0 = false ->
  let streamError := {| message := Assistant.message e; code := "SERVER_ERROR" |} in
  let '(h, phase) :=
    startStream JSON_parse_error h0
      (delivered (Lambda.written (snd (handler event))) ++ [ReadSettled ReadDone]) in
  phase = Returned
  /\ status h = StatusCompleted
  /\ error h = Some streamError
  /\ accumulatedMessageRef h = Js.concat cs
  /\ calls h
     = calls h0 ++ [OnConnection] ++ chunkCalls EmptyString cs
       ++ [OnError streamError; OnComplete (Js.concat cs)].
Proof.
  intros Hacc Hblank Hmodel Hok Hconn Herr Hj Hne Hidle. cbv zeta.
  rewrite (lambdaHandler_accepted _ _ _ _ _ Hacc). cbn [Lambda.written].
  rewrite respond_unfold, Hblank, Hmodel. cbn [negb snd Assistant.chunks Assistant.failure].
  rewrite map_app. change (?a :: ?l ++ ?r) with ((a :: l) ++ r).
  rewrite delivered_app, <- app_assoc, startStream_app by exact Hidle.
  destruct (client_reads_chunks (Lambda.sub claims) cs h0 Hconn Hok Hidle)
    as (h1 & -> & Hacc1 & Hcalls1 & Hdone1 & Herr1).
  cbn [map app]. rewrite !run_cons, step_read_value.
  unfold Lambda.errorMessage. rewrite onChunk_error, Hj, Hne by exact Herr. cbv zeta.
  cbn [run fold_left step].
  unfold completeOnce, finallyBlock. cbn. rewrite Hdone1. cbn.
  rewrite Hacc1, Hcalls1. repeat split. now rewrite <- !app_assoc.
Qed.

End EndToEnd.
(** At a server error without chunks before it. *)
Lemma error_event_does_not_end_the_read_witness :
  let frame :=
    WebChat.formatSSE {| WebChat.data := "{error:model unavailable}";
                         WebChat.event := WebChat.EvError;
                         WebChat.id := None; WebChat.retry := None |} in
  ChatStream.calls
    (fst (ChatStream.run SampleLambda.parseError
            [ChatStream.ReadSettled (ChatStream.ReadValue frame);
             ChatStream.ReadSettled ChatStream.ReadDone]
            (ChatStream.initial, ChatStream.Reading)))
  = [ChatStream.OnError {| ChatStream.message := "model unavailable";
                           ChatStream.code := "SERVER_ERROR" |};
     ChatStream.OnComplete EmptyString].
Proof.
  pose proof (error_event_does_not_end_the_read SampleLambda.parseError
                "{error:model unavailable}" (Some "model unavailable") ChatStream.initial
                (conj eq_refl eq_refl) eq_refl eq_refl) as H.
  vm_compute in H. destruct H as (_ & _ & _ & _ & _ & _ & _ & H).
  vm_compute. exact H.
Defined.

(** At a payload that is not JSON. *)
Lemma malformed_error_payload_ends_the_read_witness :
  let frame :=
    WebChat.formatSSE {| WebChat.data := "oops"; WebChat.event := WebChat.EvError;
                         WebChat.id := None; WebChat.retry := None |} in
  let '(h, phase) :=
    ChatStream.step SampleLambda.parseError
      (ChatStream.ReadSettled (ChatStream.ReadValue frame))
      (ChatStream.initial, ChatStream.Reading) in
  phase = ChatStream.Returned
  /\ ChatStream.calls h
     = [ChatStream.OnError {| ChatStream.message := "Unexpected token";
                              ChatStream.code := "STREAM_ERROR" |}].
Proof.
  assert (Hname : "SyntaxError" <> "AbortError") by discriminate.
  pose proof (malformed_error_payload_ends_the_read SampleLambda.parseError
                "oops" "SyntaxError" "Unexpected token" ChatStream.initial
                (conj eq_refl eq_refl) eq_refl Hname) as H.
  vm_compute in H. destruct H as (Hp & _ & _ & _ & _ & Hc).
  vm_compute. split; assumption.
Defined.

(** At the response the handler gives a request without a header. *)
Lemma non_ok_response_is_never_read_witness :
  let r :=
    snd (Lambda.lambdaHandler Sample.prompt SampleLambda.env (SampleLambda.streaming ["Hel"])
           (SampleLambda.post None (Some "request"))) in
  ChatStream.calls
    (fst (ChatStream.startStream SampleLambda.parseError ChatStream.initial
            ([ChatStream.TokenResolved;
              ChatStream.FetchResolved false "401: Unauthorized" true]
             ++ map (fun t => ChatStream.ReadSettled (ChatStream.ReadValue t))
                    (Lambda.written r)
             ++ [ChatStream.ReadSettled ChatStream.ReadDone])))
  = [ChatStream.OnError {| ChatStream.message := "HTTP 401: Unauthorized";
                           ChatStream.code := "STREAM_ERROR" |}].
Proof.
  intros r.
  pose proof (non_ok_response_is_never_read SampleLambda.parseError ChatStream.initial
                "401: Unauthorized" true
                (map (fun t => ChatStream.ReadSettled (ChatStream.ReadValue t))
                     (Lambda.written r)
                 ++ [ChatStream.ReadSettled ChatStream.ReadDone]) eq_refl) as H.
  destruct (ChatStream.startStream _ _ _) as [h phase].
  destruct H as (_ & _ & _ & _ & _ & H). exact H.
Defined.

(** At a request answered with two chunks. *)
Lemma accepted_request_end_to_end_witness :
  let r :=
    snd (Lambda.lambdaHandler Sample.prompt SampleLambda.env
           (SampleLambda.streaming ["Hel"; "lo"])
           (SampleLambda.post (Some "Bearer good") (Some "request"))) in
  ChatStream.calls
    (fst (ChatStream.startStream SampleLambda.parseError ChatStream.initial
            (ChatStream.delivered (Lambda.written r)
             ++ [ChatStream.ReadSettled ChatStream.ReadDone])))
  = [ChatStream.OnConnection;
     ChatStream.OnMessageChunk "Hel" "Hel"; ChatStream.OnMessageChunk "lo" "Hello";
     ChatStream.OnComplete "Hello"].
Proof.
  intros r.
  assert (Hacc : Lambda.accepted SampleLambda.env (SampleLambda.streaming ["Hel"; "lo"])
                   (SampleLambda.post (Some "Bearer good") (Some "request"))
                   SampleLambda.ada SampleLambda.request
                   [{| Lambda.role := "system"; Lambda.content := "Be brief." |};
                    {| Lambda.role := "user"; Lambda.content := "Hi" |};
                    {| Lambda.role := "assistant"; Lambda.content := "Hello Ada" |};
                    {| Lambda.role := "user"; Lambda.content := "What is on today?" |}]
                   "sm-key").
  { unfold Lambda.accepted. repeat split; try (eexists; reflexivity); discriminate. }
  assert (Hok : Forall ChatStream.deliverable ["Hel"; "lo"]) by (repeat constructor).
  pose proof (accepted_request_end_to_end Sample.prompt SampleLambda.env
                (SampleLambda.streaming ["Hel"; "lo"]) SampleLambda.parseError
                _ _ _ _ _ ["Hel"; "lo"] ChatStream.initial
                Hacc eq_refl eq_refl Hok (conj eq_refl eq_refl) eq_refl) as H.
  fold r in H. destruct (ChatStream.startStream _ _ _) as [h phase].
  destruct H as (_ & _ & _ & _ & H). exact H.
Defined.

(** At a request whose stream fails after two chunks. *)
Lemma interrupted_stream_end_to_end_witness :
  let r :=
    snd (Lambda.lambdaHandler Sample.prompt SampleLambda.env
           (SampleLambda.interrupted ["Hel"; "lo"])
           (SampleLambda.post (Some "Bearer good") (Some "request"))) in
  ChatStream.calls
    (fst (ChatStream.startStream SampleLambda.parseError ChatStream.initial
            (ChatStream.delivered (Lambda.written r)
             ++ [ChatStream.ReadSettled ChatStream.ReadDone])))
  = [ChatStream.OnConnection;
     ChatStream.OnMessageChunk "Hel" "Hel"; ChatStream.OnMessageChunk "lo" "Hello";
     ChatStream.OnError {| ChatStream.message := "model unavailable";
                           ChatStream.code := "SERVER_ERROR" |};
     ChatStream.OnComplete "Hello"].
Proof.
  intros r.
  assert (Hacc : Lambda.accepted SampleLambda.env (SampleLambda.interrupted ["Hel"; "lo"])
                   (SampleLambda.post (Some "Bearer good") (Some "request"))
                   SampleLambda.ada SampleLambda.request
                   [{| Lambda.role := "system"; Lambda.content := "Be brief." |};
                    {| Lambda.role := "user"; Lambda.content := "Hi" |};
                    {| Lambda.role := "assistant"; Lambda.content := "Hello Ada" |};
                    {| Lambda.role := "user"; Lambda.content := "What is on today?" |}]
                   "sm-key").
  { unfold Lambda.accepted. repeat split; try (eexists; reflexivity); discriminate. }
  assert (Hok : Forall ChatStream.deliverable ["Hel"; "lo"]) by (repeat constructor).
  pose proof (interrupted_stream_end_to_end Sample.prompt SampleLambda.env
                (SampleLambda.interrupted ["Hel"; "lo"]) SampleLambda.parseError
                _ _ _ _ _ ["Hel"; "lo"] Sample.boom ChatStream.initial
                Hacc eq_refl eq_refl Hok (conj eq_refl eq_refl) (conj eq_refl eq_refl)
                eq_refl eq_refl eq_refl) as H.
  fold r in H. destruct (ChatStream.startStream _ _ _) as [h phase].
  destruct H as (_ & _ & _ & _ & H). exact H.
Defined.

(* ================================================================== *)
(** * Routing by configuration *)
(* ================================================================== *)

Section Routing.
Import Assistant.

Variable ORCHESTRATOR_SYSTEM_PROMPT : string.
Variable AWS_REGION : option string.

(** [process] on an instance as constructed.  With the key [streaming]
    present and [true] it streams, and the user turn handed to the model
    is the message without any tone suffix.  With the key absent,
    [false] or [undefined] it answers in one piece, and the turn carries
    the suffix of the tone the instance ends up with: the concise suffix
    when the key [toneOfResponse] is absent, the suffix of the value when
    the key holds a recognized one, and none when it holds another value
    or [undefined]. *)
Theorem process_routes_by_streaming
    (cfg : OrchestratorConfig) (w : World) (llm : LanguageModel) (sllm : StreamingModel)
    (X : string) (additionalContext : option string) :
  let this := constructor ORCHESTRATOR_SYSTEM_PROMPT AWS_REGION cfg in
  let s := process w llm sllm this X additionalContext in
  let base := withContext X additionalContext in
  let suffix :=
    match toneOfResponse cfg with
    | Absent => conciseSuffix
    | Present (Some tone) =>
        match recognizedSuffix tone with
        | Some suffix => suffix
        | None => EmptyString
        end
    | Present None => EmptyString
    end in
  (streaming cfg = Present (Some true) ->
   turnSent (effects s) = Some {| role := user; content := base |}
   /\ forall response, completion s <> Normal (Complete response))
  /\ (streaming cfg <> Present (Some true) ->
      turnSent (effects s) = Some {| role := user; content := base +:+ suffix |}
      /\ forall textStream, completion s <> Normal (Stream textStream)).
Proof.
  intros this s base suffix. split.
  - intros Hs. subst s. unfold process.
    replace (cfg_streaming (config this)) with (Some true)
      by (subst this; cbn; now rewrite Hs).
    cbn [effects completion].
    pose proof (processMessageStream_unfold sllm this X additionalContext) as H.
    cbv zeta in H. fold base in H.
    destruct (sllm _) as [result|e]; destruct H as (-> & -> & _);
      (split; [reflexivity | discriminate]).
  - intros Hs. subst s. unfold process.
    assert (Hroute : cfg_streaming (config this) = Some false
                     \/ cfg_streaming (config this) = None).
    { subst this. cbn. destruct (streaming cfg) as [|[[|]|]]; cbn; auto. contradiction. }
    pose proof (processMessage_records w llm this X additionalContext) as H.
    cbv zeta in H. fold base in H.
    assert (Hsent : turnSent (effects (processMessage w llm this X additionalContext))
                    = Some {| role := user; content := base +:+ suffix |}).
    { subst suffix this. cbn [config constructor cfg_toneOfResponse] in H.
      destruct (toneOfResponse cfg) as [|[tone|]]; cbn [spreadOver] in H.
      - change (recognizedSuffix "concise and direct") with (Some conciseSuffix) in H.
        now destruct H as (-> & _).
      - destruct (recognizedSuffix tone); destruct H as (-> & _); [reflexivity|].
        now rewrite append_empty_r.
      - destruct H as (-> & _). now rewrite append_empty_r. }
    destruct Hroute as [-> | ->]; cbn [effects completion];
      (split; [exact Hsent|]);
      intros g; destruct (completion (processMessage _ _ _ _ _)); discriminate.
Qed.

End Routing.

(** At the sample configuration: streamed, with the tone key absent, and
    with the tone key present and [undefined]. *)
Lemma process_routes_by_streaming_witness :
  let streamed :=
    {| Assistant.userId := "u1"; Assistant.sessionId := "s1";
       Assistant.supermemoryApiKey := "sm-key";
       Assistant.streaming := Assistant.Present (Some true);
       Assistant.region := Assistant.Absent; Assistant.modelId := Assistant.Absent;
       Assistant.verbose := Assistant.Absent;
       Assistant.composioApiKey := None; Assistant.connectionIds := None;
       Assistant.toneOfResponse := Assistant.Absent |} in
  let sent (cfg : Assistant.OrchestratorConfig) :=
    Assistant.turnSent
      (Assistant.effects
         (Assistant.process Sample.world (Sample.answering "Hello")
            (Sample.streamingChunks ["Hel"])
            (Assistant.constructor Sample.prompt None cfg) "Hi" None)) in
  sent streamed = Some {| Assistant.role := Assistant.user; Assistant.content := "Hi" |}
  /\ sent Sample.cfg
     = Some {| Assistant.role := Assistant.user;
               Assistant.content := "Hi" +:+ Assistant.conciseSuffix |}
  /\ sent Sample.withUndefinedTone
     = Some {| Assistant.role := Assistant.user; Assistant.content := "Hi" |}.
Proof.
  intros streamed sent. split; [|split].
  - destruct (process_routes_by_streaming Sample.prompt None streamed Sample.world
                (Sample.answering "Hello") (Sample.streamingChunks ["Hel"]) "Hi" None)
      as (H & _).
    destruct (H eq_refl) as (Ht & _). exact Ht.
  - destruct (process_routes_by_streaming Sample.prompt None Sample.cfg Sample.world
                (Sample.answering "Hello") (Sample.streamingChunks ["Hel"]) "Hi" None)
      as (_ & H).
    assert (Hs : Assistant.streaming Sample.cfg <> Assistant.Present (Some true))
      by discriminate.
    destruct (H Hs) as (Ht & _). exact Ht.
  - destruct (process_routes_by_streaming Sample.prompt None Sample.withUndefinedTone
                Sample.world (Sample.answering "Hello") (Sample.streamingChunks ["Hel"])
                "Hi" None)
      as (_ & H).
    assert (Hs : Assistant.streaming Sample.withUndefinedTone
                 <> Assistant.Present (Some true)) by discriminate.
    destruct (H Hs) as (Ht & _). exact Ht.
Defined.

(* ================================================================== *)
(** * The API key *)
(* ================================================================== *)

Section ApiKey.
Import Assistant Lambda.

Variable env : Env.
Variable sv : Services.

(** [getSupermemoryApiKey] returns a key exactly when the secret's name
    is configured and the secret is an object with a non-empty
    [api_key]; every other outcome (no name, a secret that is missing, a
    plain string or without key, a failing lookup) throws one and the
    same message, whatever the cause; the store is asked at most once,
    and only for the configured name. *)
Theorem getSupermemoryApiKey_outcomes :
  let '(ev, outcome) := getSupermemoryApiKey env sv in
  (forall key,
     outcome = Normal key
     <-> exists secretName,
           SUPERMEMORY_API_KEY_SECRET_NAME env = Some secretName
           /\ Js.truthy secretName = true
           /\ getSecret sv secretName = Normal (SecretObject (Some key))
           /\ Js.truthy key = true)
  /\ (forall e,
        outcome = Throw e ->
        e = Error "Failed to retrieve Supermemory API key from Secrets Manager")
  /\ (ev = []
      \/ exists secretName,
           SUPERMEMORY_API_KEY_SECRET_NAME env = Some secretName /\ ev = [GetSecret secretName]).
Proof.
  unfold getSupermemoryApiKey.
  destruct (missing (SUPERMEMORY_API_KEY_SECRET_NAME env)) eqn:Hm.
  - split; [|split; [now intros e [= <-] | now left]].
    intros key. split; [discriminate|].
    intros (n & Hn & Ht & _). unfold missing in Hm. rewrite Hn, Ht in Hm. discriminate.
  - apply missing_false in Hm as (n & Hn & Ht). rewrite Hn. cbn [valueOf].
    assert (Hev : [GetSecret n] = []
                  \/ exists secretName, Some n = Some secretName
                                        /\ [GetSecret n] = [GetSecret secretName])
      by (right; eauto).
    destruct (getSecret sv n) as [[|s|[k|]]|e0] eqn:Hs;
      try (split; [|split; [now intros e [= <-] | exact Hev]];
           intros key; split; [discriminate|];
           intros (n' & [= <-] & _ & Hs' & _); congruence).
    destruct (Js.truthy k) eqn:Hk.
    + split; [|split; [discriminate | exact Hev]].
      intros key. split.
      * intros [= <-]. exists n. auto.
      * intros (n' & [= <-] & _ & Hs' & _). congruence.
    + split; [|split; [now intros e [= <-] | exact Hev]].
      intros key. split; [discriminate|].
      intros (n' & [= <-] & _ & Hs' & Hk'). congruence.
Qed.

End ApiKey.

(** At a store that holds the key. *)
Lemma getSupermemoryApiKey_outcomes_witness :
  exists secretName,
    Lambda.SUPERMEMORY_API_KEY_SECRET_NAME SampleLambda.env = Some secretName
    /\ Js.truthy secretName = true
    /\ Lambda.getSecret (SampleLambda.streaming []) secretName
       = Assistant.Normal (Lambda.SecretObject (Some "sm-key"))
    /\ Js.truthy "sm-key" = true.
Proof.
  pose proof (getSupermemoryApiKey_outcomes SampleLambda.env (SampleLambda.streaming [])) as H.
  vm_compute in H. destruct H as (H & _).
  destruct (proj1 (H "sm-key") eq_refl) as (n & Hn & Ht & Hs & Hk).
  exists n. vm_compute. repeat split; assumption.
Defined.

(* ================================================================== *)
(** * One hook, several streams *)
(* ================================================================== *)

Section Restart.
Import WebChat ChatStream.

Variable JSON_parse_error : string -> Thrown + option string.

(** A stream of deliverable chunks read to its end leaves the hook
    returned, its controller released. *)
Lemma stream_of_chunks (h0 : Hook) (chunks : list string) :
  abortControllerRef h0 = false ->
  Forall deliverable chunks ->
  exists h,
    startStream JSON_parse_error h0
      (delivered (writes (streamOrchestratorResponse chunks)) ++ [ReadSettled ReadDone])
    = (h, Returned)
    /\ abortControllerRef h = false
    /\ completedRef h = true
    /\ accumulatedMessageRef h = Js.concat chunks
    /\ calls h = calls h0 ++ chunkCalls EmptyString chunks ++ [OnComplete (Js.concat chunks)].
Proof.
  intros Hidle Hok. unfold startStream. rewrite Hidle.
  unfold delivered, streamOrchestratorResponse, writes.
  rewrite map_app, map_app, <- !app_assoc.
  cbn [app]. rewrite !run_cons. cbn [step negb].
  rewrite run_app.
  match goal with |- context [run _ _ (?h, Reading)] => set (h1 := h) end.
  pose proof (run_chunk_frames JSON_parse_error chunks 1 h1 Hok) as Hrun.
  unfold writes in Hrun. rewrite Hrun. clear Hrun.
  destruct (received_all chunks h1) as (Hacc & Hcalls & Hdone & Herr).
  set (h2 := fold_left _ chunks h1) in *.
  cbn [map app]. rewrite !run_cons, step_read_value, onChunk_complete.
  cbn [run fold_left step].
  unfold completeOnce, finallyBlock. cbn.
  rewrite Hdone. cbn. eexists. split; [reflexivity|]. cbn.
  rewrite Hacc, Hcalls. cbn. repeat split. now rewrite <- !app_assoc.
Qed.

(** [startStream] resets the accumulated text and the completion guard:
    a second stream on the same hook, after the first has ended, is
    received on its own - its chunks are accumulated from the empty
    string, and the completion callback fires again, once, with the text
    of the second stream alone. *)
Theorem second_stream_starts_afresh (h0 : Hook) (chunks1 chunks2 : list string) :
  abortControllerRef h0 = false ->
  Forall deliverable chunks1 ->
  Forall deliverable chunks2 ->
  let '(h1, _) :=
    startStream JSON_parse_error h0
      (delivered (writes (streamOrchestratorResponse chunks1)) ++ [ReadSettled ReadDone]) in
  let '(h2, phase) :=
    startStream JSON_parse_error h1
      (delivered (writes (streamOrchestratorResponse chunks2)) ++ [ReadSettled ReadDone]) in
  phase = Returned
  /\ accumulatedMessageRef h2 = Js.concat chunks2
  /\ calls h2
     = calls h0
       ++ (chunkCalls EmptyString chunks1 ++ [OnComplete (Js.concat chunks1)])
       ++ (chunkCalls EmptyString chunks2 ++ [OnComplete (Js.concat chunks2)])
  /\ completions (calls h2) = completions (calls h0) + 2.
Proof.
  intros Hidle H1 H2.
  destruct (stream_of_chunks h0 chunks1 Hidle H1) as (h1 & -> & Hidle1 & _ & _ & Hc1).
  destruct (stream_of_chunks h1 chunks2 Hidle1 H2) as (h2 & -> & _ & _ & Ha2 & Hc2).
  split; [reflexivity|]. split; [exact Ha2|].
  assert (Hcalls : calls h2
                   = calls h0
                     ++ (chunkCalls EmptyString chunks1 ++ [OnComplete (Js.concat chunks1)])
                     ++ chunkCalls EmptyString chunks2 ++ [OnComplete (Js.concat chunks2)])
    by (rewrite Hc2, Hc1, <- !app_assoc; reflexivity).
  split; [exact Hcalls|].
  rewrite Hcalls, !completions_app.
  assert (Hnone : forall acc cs, completions (chunkCalls acc cs) = 0).
  { intros acc cs. revert acc. induction cs as [|c cs IH]; intros acc; [reflexivity|]. apply IH. }
  rewrite !Hnone. cbn. lia.
Qed.

(** [stopStream] has nothing to stop while the token is awaited: the
    controller is created only afterwards, so a stop requested then is
    ignored - no completion callback, and the stream goes on as if it had
    not been requested. *)
Theorem stop_before_token_is_ignored (h0 : Hook) (stops : nat) (inputs : list Input) :
  abortControllerRef h0 = false ->
  startStream JSON_parse_error h0 (replicate stops StopStream ++ inputs)
  = startStream JSON_parse_error h0 inputs.
Proof.
  intros Hidle. unfold startStream. rewrite Hidle. rewrite run_app. f_equal.
  match goal with |- run _ _ (?h, _) = _ => set (h1 := h) end.
  assert (Hh : abortControllerRef h1 = false) by exact Hidle.
  induction stops as [|n IH]; [reflexivity|].
  cbn [replicate]. rewrite run_cons. cbn [step]. unfold stopStream. rewrite Hh. exact IH.
Qed.

End Restart.

(** At two streams of one and two chunks. *)
Lemma second_stream_starts_afresh_witness :
  let '(h1, _) :=
    ChatStream.startStream SampleClient.noErrorField ChatStream.initial
      (ChatStream.delivered (WebChat.writes (WebChat.streamOrchestratorResponse ["Hi"]))
       ++ [ChatStream.ReadSettled ChatStream.ReadDone]) in
  let '(h2, _) :=
    ChatStream.startStream SampleClient.noErrorField h1
      (ChatStream.delivered (WebChat.writes (WebChat.streamOrchestratorResponse ["Hel"; "lo"]))
       ++ [ChatStream.ReadSettled ChatStream.ReadDone]) in
  ChatStream.calls h2
  = [ChatStream.OnMessageChunk "Hi" "Hi"; ChatStream.OnComplete "Hi";
     ChatStream.OnMessageChunk "Hel" "Hel"; ChatStream.OnMessageChunk "lo" "Hello";
     ChatStream.OnComplete "Hello"].
Proof.
  assert (H1 : Forall ChatStream.deliverable ["Hi"]) by (repeat constructor).
  assert (H2 : Forall ChatStream.deliverable ["Hel"; "lo"]) by (repeat constructor).
  pose proof (second_stream_starts_afresh SampleClient.noErrorField ChatStream.initial
                ["Hi"] ["Hel"; "lo"] eq_refl H1 H2) as H.
  vm_compute in H. destruct H as (_ & _ & H & _).
  vm_compute. exact H.
Defined.

(** At a stop requested twice before the token arrives. *)
Lemma stop_before_token_is_ignored_witness :
  ChatStream.startStream SampleClient.noErrorField ChatStream.initial
    ([ChatStream.StopStream; ChatStream.StopStream]
     ++ ChatStream.delivered SampleClient.twoChunks)
  = ChatStream.startStream SampleClient.noErrorField ChatStream.initial
      (ChatStream.delivered SampleClient.twoChunks).
Proof.
  exact (stop_before_token_is_ignored SampleClient.noErrorField ChatStream.initial 2
           (ChatStream.delivered SampleClient.twoChunks) eq_refl).
Defined.
